(** * FlowPipeLine master: the slave-monitoring core of [flowline/master.py]

    A shallow embedding of [SlaveInfo] and [MasterServer]: the roster built
    by [_init_slaves], the fetch [_fetch_slave_info] with its [try]/[except]
    chain, the Flask routes that read and refresh the roster, and the
    monitoring thread [_monitor_slaves] with its run flag.

    Conventions of the embedding.
    - A Python [dict] is an association list in insertion order; assigning
      to a key that is present replaces the value in place ([dict_set]).
    - Python [None] is [None] of an [option] for the typed attributes and
      [VNone] for values that go through JSON.
    - [time.time()] is a clock reading supplied by the environment, an
      integer here.
    - The network is an oracle: each call of [_fetch_slave_info] receives
      the [net_reply] that [requests.get], [response.json()] and
      [time.time()] produce for it.
    - Threads share the roster without a lock. A schedule lets the
      monitoring thread and the request handlers advance one attribute
      store at a time, so that the stores of several fetches of one
      record interleave. *)

From Stdlib Require Import ZArith Lia Ascii.
From stdpp Require Import base list strings pretty.

Open Scope Z_scope.
Open Scope string_scope.

(** ** Python values *)

#[local] Set Warnings "-register-all".

(** What [response.json()] returns and what [jsonify] receives. *)
Inductive pyval :=
| VNone
| VBool (b : bool)
| VInt (n : Z)
| VFloat (lexeme : string)
| VStr (s : string)
| VList (l : list pyval)
| VDict (d : list (pyval * pyval)).

(** [str(x)] for an attribute that holds a string or [None]. *)
Definition py_str (x : option string) : string :=
  match x with
  | Some s => s
  | None => "None"
  end.

Definition opt_str_val (x : option string) : pyval :=
  match x with
  | Some s => VStr s
  | None => VNone
  end.

Definition opt_int_val (x : option Z) : pyval :=
  match x with
  | Some n => VInt n
  | None => VNone
  end.

(** [d[k]] on a dict literal with string keys, as a reader of a JSON
    object does it. *)
Fixpoint vdict_lookup (k : string) (d : list (pyval * pyval)) : option pyval :=
  match d with
  | [] => None
  | (VStr k', v) :: d' => if String.eqb k k' then Some v else vdict_lookup k d'
  | _ :: d' => vdict_lookup k d'
  end.

Definition vdict_get (k : string) (v : pyval) : option pyval :=
  match v with
  | VDict d => vdict_lookup k d
  | _ => None
  end.

Definition vdict_entries (v : pyval) : list (pyval * pyval) :=
  match v with
  | VDict d => d
  | _ => []
  end.

(** ** Python dictionaries, in insertion order *)

Section pydict.
Context {K V : Type} `{EqDecision K}.

Fixpoint dict_get (k : K) (d : list (K * V)) : option V :=
  match d with
  | [] => None
  | (k', v) :: d' => if decide (k = k') then Some v else dict_get k d'
  end.

(** [d[k] = v]: a present key keeps its position, a new key goes last. *)
Fixpoint dict_set (k : K) (v : V) (d : list (K * V)) : list (K * V) :=
  match d with
  | [] => [(k, v)]
  | (k', v') :: d' =>
      if decide (k = k') then (k', v) :: d' else (k', v') :: dict_set k v d'
  end.

Definition dict_in (k : K) (d : list (K * V)) : bool :=
  match dict_get k d with
  | Some _ => true
  | None => false
  end.

Definition dict_keys (d : list (K * V)) : list K := map fst d.
Definition dict_values (d : list (K * V)) : list V := map snd d.
Definition dict_items (d : list (K * V)) : list (K * V) := d.
Definition dict_len (d : list (K * V)) : Z := Z.of_nat (length d).
End pydict.

(** ** [class SlaveInfo] *)

Record SlaveInfo := mkSlaveInfo {
  name : option string;
  ip : option string;
  port : Z;
  online : bool;
  last_seen : option Z;
  data : pyval;
  error : option string
}.

Definition SlaveInfo__init__ (name ip : option string) (port : Z) : SlaveInfo :=
  {| name := name; ip := ip; port := port;
     online := false; last_seen := None; data := VNone; error := None |}.

Definition to_dict (self : SlaveInfo) : pyval :=
  VDict [ (VStr "name", opt_str_val (name self));
          (VStr "ip", opt_str_val (ip self));
          (VStr "port", VInt (port self));
          (VStr "online", VBool (online self));
          (VStr "last_seen", opt_int_val (last_seen self));
          (VStr "data", data self);
          (VStr "error", opt_str_val (error self)) ].

(** The four attribute assignments that [_fetch_slave_info] performs. *)
Inductive store :=
| SetData (v : pyval)
| SetOnline (b : bool)
| SetLastSeen (t : Z)
| SetError (e : option string).

Definition setattr (slave : SlaveInfo) (w : store) : SlaveInfo :=
  match w with
  | SetData v =>
      {| name := name slave; ip := ip slave; port := port slave;
         online := online slave; last_seen := last_seen slave;
         data := v; error := error slave |}
  | SetOnline b =>
      {| name := name slave; ip := ip slave; port := port slave;
         online := b; last_seen := last_seen slave;
         data := data slave; error := error slave |}
  | SetLastSeen t =>
      {| name := name slave; ip := ip slave; port := port slave;
         online := online slave; last_seen := Some t;
         data := data slave; error := error slave |}
  | SetError e =>
      {| name := name slave; ip := ip slave; port := port slave;
         online := online slave; last_seen := last_seen slave;
         data := data slave; error := e |}
  end.

Definition run_stores (ws : list store) (slave : SlaveInfo) : SlaveInfo :=
  fold_left setattr ws slave.

(** ** Configuration *)

(** One entry of the ["slaves"] list; [None] is an absent key. *)
Record slave_config := mkSlaveConfig {
  cfg_name : option string;
  cfg_ip : option string;
  cfg_port : option Z
}.

(** The configuration dict after [_load_config]: the keys of
    [default_config] are always present, ["request_timeout"] only when the
    user file gives it. *)
Record Config := mkConfig {
  slaves_cfg : list slave_config;
  slave_port : Z;
  refresh_interval : Z;
  request_timeout : option Z
}.

(** The keys a user file may override. *)
Record user_config := mkUserConfig {
  u_slaves : option (list slave_config);
  u_slave_port : option Z;
  u_refresh_interval : option Z;
  u_request_timeout : option Z
}.

Definition default_config : Config :=
  {| slaves_cfg :=
       [ {| cfg_name := Some "Slave-1"; cfg_ip := Some "192.168.217.180"; cfg_port := None |};
         {| cfg_name := Some "Slave-2"; cfg_ip := Some "192.168.217.190"; cfg_port := None |};
         {| cfg_name := Some "Slave-3"; cfg_ip := Some "192.168.217.200"; cfg_port := None |} ];
     slave_port := 5001;
     refresh_interval := 5;
     request_timeout := None |}.

(** [file] is [None] when the path is missing or [json.load] raised. *)
Definition _load_config (file : option user_config) : Config :=
  match file with
  | None => default_config
  | Some u =>
      {| slaves_cfg := default (slaves_cfg default_config) (u_slaves u);
         slave_port := default (slave_port default_config) (u_slave_port u);
         refresh_interval := default (refresh_interval default_config) (u_refresh_interval u);
         request_timeout := u_request_timeout u |}
  end.

(** ** [MasterServer._init_slaves] *)

Definition init_entry (slave_port : Z) (slave_config : slave_config) : SlaveInfo :=
  let name := match cfg_name slave_config with
              | Some n => Some n
              | None => cfg_ip slave_config
              end in
  let ip := cfg_ip slave_config in
  let port := default slave_port (cfg_port slave_config) in
  SlaveInfo__init__ name ip port.

Definition _init_slaves (cfg : Config) : list (option string * SlaveInfo) :=
  fold_left
    (fun slaves slave_config =>
       dict_set (cfg_ip slave_config) (init_entry (slave_port cfg) slave_config) slaves)
    (slaves_cfg cfg) [].

(** ** The network oracle *)

(** The exceptions, by the [except] clause that catches them: any
    [requests.exceptions.Timeout], any other
    [requests.exceptions.ConnectionError], and every other [Exception]
    with its [str(e)]. What [requests.get] and [response.json()] raise
    derives from [Exception]; a [KeyboardInterrupt] is delivered to the
    main thread only, which runs neither the monitoring loop nor a
    request handler. *)
Inductive exn :=
| Timeout
| ConnectionError
| OtherException (msg : string).

(** A [requests] response: the status code and what [response.json()]
    does. *)
Record response := mkResponse {
  status_code : Z;
  json : exn + pyval
}.

Record net_reply := mkReply {
  get : exn + response;
  clock : Z
}.

(** ** [MasterServer._fetch_slave_info] *)

(** The body of the [try]: the assignments performed, and the exception
    that left the block if one did. [response.json()] is evaluated before
    [slave.data] is assigned, so an unparseable body assigns nothing. *)
Definition try_body (slave : SlaveInfo) (r : net_reply) : list store * option exn :=
  match get r with
  | inl e => ([], Some e)
  | inr response =>
      if Z.eqb (status_code response) 200 then
        match json response with
        | inl e => ([], Some e)
        | inr body =>
            ([SetData body; SetOnline true; SetLastSeen (clock r); SetError None], None)
        end
      else
        ([SetOnline false;
          SetError (Some ("HTTP " +:+ pretty (status_code response) +:+ " from "
                          +:+ py_str (name slave) +:+ " (" +:+ py_str (ip slave) +:+ ")"))],
         None)
  end.

Definition except_clauses (slave : SlaveInfo) (e : exn) : list store * option exn :=
  match e with
  | Timeout =>
      ([SetOnline false;
        SetError (Some ("Connection timeout to " +:+ py_str (name slave) +:+ " ("
                        +:+ py_str (ip slave) +:+ ":" +:+ pretty (port slave) +:+ ")"))],
       None)
  | ConnectionError =>
      ([SetOnline false;
        SetError (Some ("Connection refused by " +:+ py_str (name slave) +:+ " ("
                        +:+ py_str (ip slave) +:+ ":" +:+ pretty (port slave) +:+ ")"))],
       None)
  | OtherException msg =>
      ([SetOnline false;
        SetError (Some ("Error from " +:+ py_str (name slave) +:+ ": " +:+ msg))],
       None)
  end.

(** All assignments of one call, in program order, and the exception that
    escapes the call if one does. *)
Definition fetch_stores (slave : SlaveInfo) (r : net_reply) : list store * option exn :=
  match try_body slave r with
  | (ws, None) => (ws, None)
  | (ws, Some e) =>
      let '(ws', raised) := except_clauses slave e in ((ws ++ ws')%list, raised)
  end.

Definition _fetch_slave_info (slave : SlaveInfo) (r : net_reply) : SlaveInfo * option exn :=
  let '(ws, raised) := fetch_stores slave r in (run_stores ws slave, raised).

(** ** [class MasterServer] *)

(** Where the monitoring thread stands in [_monitor_slaves]: at the test
    of the [while]; inside the [for], between two calls, with the keys
    still to visit; inside the call of [_fetch_slave_info] for the slave
    under [k], the request answered, with the attribute stores still to
    perform, the exception that will leave the call if one will, and the
    keys to visit afterwards; in [time.sleep]; or returned (the thread is
    no longer alive). *)
Inductive thread_pc :=
| AtWhile
| InFor (rest : list (option string))
| InFetch (k : option string) (pending : list store) (raised : option exn)
          (rest : list (option string))
| InSleep
| Returned.

Record MasterServer := mkMasterServer {
  config : Config;
  slaves : list (option string * SlaveInfo);
  _monitor_thread : option thread_pc;
  _running : bool
}.

Definition MasterServer__init__ (file : option user_config) : MasterServer :=
  let config := _load_config file in
  {| config := config;
     slaves := _init_slaves config;
     _monitor_thread := None;
     _running := false |}.

Definition set_slaves (self : MasterServer) (d : list (option string * SlaveInfo)) : MasterServer :=
  {| config := config self; slaves := d;
     _monitor_thread := _monitor_thread self; _running := _running self |}.

Definition set_thread (self : MasterServer) (t : option thread_pc) : MasterServer :=
  {| config := config self; slaves := slaves self;
     _monitor_thread := t; _running := _running self |}.

Definition set_running (self : MasterServer) (b : bool) : MasterServer :=
  {| config := config self; slaves := slaves self;
     _monitor_thread := _monitor_thread self; _running := b |}.

(** What a call gives back: a value, or an exception that escaped it. *)
Inductive outcome (A : Type) :=
| Return (a : A)
| Raise (e : exn).
Arguments Return {A} a.
Arguments Raise {A} e.

(** [self._fetch_slave_info(self.slaves[k])]: the object under [k] is
    mutated in place. *)
Definition fetch_at (k : option string) (r : net_reply)
    (d : list (option string * SlaveInfo)) : list (option string * SlaveInfo) * option exn :=
  match dict_get k d with
  | Some slave =>
      let '(slave', raised) := _fetch_slave_info slave r in (dict_set k slave' d, raised)
  | None => (d, None)
  end.

(** The stores [ws] performed on the object under [k]. *)
Definition store_at (k : option string) (ws : list store)
    (d : list (option string * SlaveInfo)) : list (option string * SlaveInfo) :=
  match dict_get k d with
  | Some slave => dict_set k (run_stores ws slave) d
  | None => d
  end.

(** [for slave in self.slaves.values(): self._fetch_slave_info(slave)],
    the loop shared by [_monitor_slaves] and [refresh_all]. [net k] is the
    reply to the request for the slave stored under [k]. An exception
    that escapes a fetch leaves the loop. *)
Fixpoint for_each_slave (net : option string -> net_reply)
    (d : list (option string * SlaveInfo)) : list (option string * SlaveInfo) * option exn :=
  match d with
  | [] => ([], None)
  | (k, slave) :: d' =>
      match _fetch_slave_info slave (net k) with
      | (slave', Some e) => ((k, slave') :: d', Some e)
      | (slave', None) =>
          let '(d'', raised) := for_each_slave net d' in ((k, slave') :: d'', raised)
      end
  end.

(** ** The Flask routes *)

Definition http_response : Type := pyval * Z.

(** The key of a JSON object that [json.dumps] writes for a roster key:
    [None] becomes ["null"]. *)
Definition json_key (k : option string) : string :=
  match k with
  | Some s => s
  | None => "null"
  end.

(** Whether a dict holds the key [None] beside a string key. *)
Definition mixed_keys {V : Type} (d : list (option string * V)) : bool :=
  existsb (fun kv => match fst kv with None => true | Some _ => false end) d
  && existsb (fun kv => match fst kv with None => false | Some _ => true end) d.

(** The [TypeError] of comparing [None] with a [str]. *)
Definition unorderable_keys : exn :=
  OtherException "'<' not supported between instances of 'NoneType' and 'str'".

(** [jsonify] of a dict keyed by the roster keys. Flask serialises with
    [sort_keys]: sorting raises when [None] stands beside a string key;
    otherwise every key becomes a string. The members of a JSON object
    carry no order; they are listed here in the order of the dict. *)
Definition jsonify_dict (result : list (option string * pyval)) : outcome pyval :=
  if mixed_keys result then Raise unorderable_keys
  else Return (VDict (map (fun kv => (VStr (json_key (fst kv)), snd kv)) result)).

Definition slave_not_found : http_response :=
  (VDict [(VStr "error", VStr "Slave not found")], 404).

(** An exception that escapes the route makes Flask answer 500. *)
Definition get_slaves (self : MasterServer) : outcome http_response :=
  let result :=
    fold_left (fun result kv => dict_set (fst kv) (to_dict (snd kv)) result)
              (dict_items (slaves self)) [] in
  match jsonify_dict result with
  | Return body => Return (body, 200)
  | Raise e => Raise e
  end.

Definition get_slave (self : MasterServer) (slave_ip : string) : http_response :=
  match dict_get (Some slave_ip) (slaves self) with
  | Some slave => (to_dict slave, 200)
  | None => slave_not_found
  end.

Definition refresh_slave (self : MasterServer) (slave_ip : string) (r : net_reply)
    : MasterServer * outcome http_response :=
  match dict_get (Some slave_ip) (slaves self) with
  | Some slave =>
      match _fetch_slave_info slave r with
      | (slave', None) =>
          (set_slaves self (dict_set (Some slave_ip) slave' (slaves self)),
           Return (to_dict slave', 200))
      | (slave', Some e) =>
          (set_slaves self (dict_set (Some slave_ip) slave' (slaves self)), Raise e)
      end
  | None => (self, Return slave_not_found)
  end.

Definition refresh_all (self : MasterServer) (net : option string -> net_reply)
    : MasterServer * outcome http_response :=
  match for_each_slave net (slaves self) with
  | (d, None) => (set_slaves self d, Return (VDict [(VStr "success", VBool true)], 200))
  | (d, Some e) => (set_slaves self d, Raise e)
  end.

(** [sum(1 for s in self.slaves.values() if s.online)] *)
Definition online_count (self : MasterServer) : Z :=
  fold_right Z.add 0 (map (fun _ => 1) (List.filter online (dict_values (slaves self)))).

Definition health_check (self : MasterServer) (now : Z) : http_response :=
  (VDict [ (VStr "status", VStr "ok");
           (VStr "timestamp", VInt now);
           (VStr "slaves_total", VInt (dict_len (slaves self)));
           (VStr "slaves_online", VInt (online_count self)) ], 200).

(** ** The monitoring thread and the threads around it *)

Definition is_alive (t : option thread_pc) : bool :=
  match t with
  | Some Returned | None => false
  | Some _ => true
  end.

Definition start_monitoring (self : MasterServer) : MasterServer :=
  if is_alive (_monitor_thread self) then self
  else set_thread (set_running self true) (Some AtWhile).

Definition stop_monitoring (self : MasterServer) : MasterServer :=
  set_running self false.

(** Who fetches, on which key, with which reply: logged by the
    monitoring thread when it makes the request, and by a handler with
    each event that stores to the record. *)
Inductive origin := Monitor | Handler.

Record commit := mkCommit {
  by_thread : origin;
  at_key : option string;
  with_reply : net_reply
}.

(** One step of the thread running [_monitor_slaves]: from one program
    point to the next. Entering [_fetch_slave_info] is the request, which
    consumes [r] and fixes the stores the call will make; then each store
    is a step of its own, and so is the return from the call. The call of
    [time.sleep] raises [ValueError] for a negative interval, outside any
    [try], which ends the thread; so does an exception that escapes
    [_fetch_slave_info]. *)
Definition monitor_step (self : MasterServer) (r : net_reply) : MasterServer * list commit :=
  match _monitor_thread self with
  | Some AtWhile =>
      if _running self
      then (set_thread self (Some (InFor (dict_keys (slaves self)))), [])
      else (set_thread self (Some Returned), [])
  | Some (InFor []) =>
      if Z.ltb (refresh_interval (config self)) 0
      then (set_thread self (Some Returned), [])
      else (set_thread self (Some InSleep), [])
  | Some (InFor (k :: rest)) =>
      match dict_get k (slaves self) with
      | Some slave =>
          let '(ws, raised) := fetch_stores slave r in
          (set_thread self (Some (InFetch k ws raised rest)), [mkCommit Monitor k r])
      | None => (set_thread self (Some (InFor rest)), [])
      end
  | Some (InFetch k (w :: ws) raised rest) =>
      (set_thread (set_slaves self (store_at k [w] (slaves self)))
                  (Some (InFetch k ws raised rest)), [])
  | Some (InFetch k [] None rest) => (set_thread self (Some (InFor rest)), [])
  | Some (InFetch k [] (Some _) rest) => (set_thread self (Some Returned), [])
  | Some InSleep => (set_thread self (Some AtWhile), [])
  | Some Returned | None => (self, [])
  end.

(** What the scheduler lets happen next. Request handlers run on their
    own threads. A [RefreshSlave] is the route of that name, and a
    [RefreshAllIter] one iteration of the loop of [refresh_all], run with
    nothing scheduled in between. A [HandlerStore k r i] is one attribute
    store of a handler: store number [i] of the fetch of the slave under
    [k] that [r] answers. With it the stores of a handler's fetch
    interleave with those of other handlers and of the monitoring thread.
    A list of events need not hold every store of a fetch, nor hold them
    in order: the schedules of the program are among the lists, and what
    holds for every list holds for them. *)
Inductive event :=
| MonitorStep (r : net_reply)
| StartMonitoring
| StopMonitoring
| RefreshSlave (slave_ip : string) (r : net_reply)
| RefreshAllIter (k : option string) (r : net_reply)
| HandlerStore (k : option string) (r : net_reply) (i : nat).

Definition step (self : MasterServer) (ev : event) : MasterServer * list commit :=
  match ev with
  | MonitorStep r => monitor_step self r
  | StartMonitoring => (start_monitoring self, [])
  | StopMonitoring => (stop_monitoring self, [])
  | RefreshSlave slave_ip r =>
      (fst (refresh_slave self slave_ip r),
       if dict_in (Some slave_ip) (slaves self) then [mkCommit Handler (Some slave_ip) r] else [])
  | RefreshAllIter k r =>
      (set_slaves self (fst (fetch_at k r (slaves self))),
       if dict_in k (slaves self) then [mkCommit Handler k r] else [])
  | HandlerStore k r i =>
      match dict_get k (slaves self) with
      | Some slave =>
          match fst (fetch_stores slave r) !! i with
          | Some w => (set_slaves self (store_at k [w] (slaves self)), [mkCommit Handler k r])
          | None => (self, [])
          end
      | None => (self, [])
      end
  end.

Fixpoint run (self : MasterServer) (evs : list event) : MasterServer * list commit :=
  match evs with
  | [] => (self, [])
  | ev :: evs' =>
      let '(self', cs) := step self ev in
      let '(self'', cs') := run self' evs' in
      (self'', (cs ++ cs')%list)
  end.

Definition monitor_keys (cs : list commit) : list (option string) :=
  map at_key (List.filter (fun c => match by_thread c with Monitor => true | Handler => false end) cs).

(** ** A reader racing a commit, attribute by attribute *)

Inductive attr := AName | AIp | APort | AOnline | ALastSeen | AData | AError.

Definition attr_key (a : attr) : string :=
  match a with
  | AName => "name" | AIp => "ip" | APort => "port" | AOnline => "online"
  | ALastSeen => "last_seen" | AData => "data" | AError => "error"
  end.

Definition getattr (slave : SlaveInfo) (a : attr) : pyval :=
  match a with
  | AName => opt_str_val (name slave)
  | AIp => opt_str_val (ip slave)
  | APort => VInt (port slave)
  | AOnline => VBool (online slave)
  | ALastSeen => opt_int_val (last_seen slave)
  | AData => data slave
  | AError => opt_str_val (error slave)
  end.

(** The attribute reads of [to_dict], in the order of its dict display. *)
Definition to_dict_reads : list attr :=
  [AName; AIp; APort; AOnline; ALastSeen; AData; AError].

(** An attribute store by the committing thread or an attribute load by
    the thread evaluating [to_dict]. *)
Inductive action :=
| Write (w : store)
| Read (a : attr).

(** The shared object and the dict under construction. *)
Fixpoint run_actions (tr : list action) (slave : SlaveInfo) (acc : list (pyval * pyval))
    : SlaveInfo * list (pyval * pyval) :=
  match tr with
  | [] => (slave, acc)
  | Write w :: tr' => run_actions tr' (setattr slave w) acc
  | Read a :: tr' => run_actions tr' slave (acc ++ [(VStr (attr_key a), getattr slave a)])%list
  end.

(** Every way of scheduling two threads that each run a fixed sequence. *)
Fixpoint interleavings {A : Type} (xs : list A) : list A -> list (list A) :=
  fix inner (ys : list A) : list (list A) :=
    match xs, ys with
    | [], _ => [ys]
    | _, [] => [xs]
    | x :: xs', y :: ys' =>
        (map (cons x) (interleavings xs' ys) ++ map (cons y) (inner ys'))%list
    end.

(** What a reader gets when its [to_dict] is scheduled as [tr] against a
    fetch of [slave] answered by [r]. *)
Definition observed (tr : list action) (slave : SlaveInfo) : pyval :=
  VDict (snd (run_actions tr slave [])).

Definition races (slave : SlaveInfo) (r : net_reply) : list (list action) :=
  interleavings (map Write (fst (fetch_stores slave r))) (map Read to_dict_reads).

(** A record as a reader sees it: ["online"] true next to an ["error"]
    that is not [None]. *)
Definition torn (v : pyval) : bool :=
  match vdict_get "online" v, vdict_get "error" v with
  | Some (VBool true), Some VNone => false
  | Some (VBool true), Some _ => true
  | _, _ => false
  end.

(** ** Vocabulary of the properties *)

(** The body of a reply that makes the fetch a success: status 200 and a
    body that [response.json()] parses. Every other reply is a failure. *)
Definition success_body (r : net_reply) : option pyval :=
  match get r with
  | inr response =>
      if Z.eqb (status_code response) 200 then
        match json response with
        | inr body => Some body
        | inl _ => None
        end
      else None
  | inl _ => None
  end.

Definition is_success (r : net_reply) : bool :=
  match success_body r with
  | Some _ => true
  | None => false
  end.

Definition success_state (s : SlaveInfo) : Prop := online s = true ∧ error s = None.
Definition failure_state (s : SlaveInfo) : Prop := online s = false ∧ is_Some (error s).

(** The record as readers want it: never online with an error. *)
Definition consistent (s : SlaveInfo) : Prop := online s = true → error s = None.

(** The roster as a Python dict can be: no key twice. *)
Definition roster_ok (self : MasterServer) : Prop := NoDup (dict_keys (slaves self)).

(** The keys the monitoring thread still has to visit in its current pass;
    the [for] only ever visits keys of the roster. *)
Definition remaining_keys (t : option thread_pc) : list (option string) :=
  match t with
  | Some (InFor rest) | Some (InFetch _ _ _ rest) => rest
  | _ => []
  end.

(** What the thread of a running server satisfies: it visits keys of the
    roster only, and no exception is about to leave a fetch. *)
Definition thread_ok (self : MasterServer) : Prop :=
  Forall (fun k => k ∈ dict_keys (slaves self)) (remaining_keys (_monitor_thread self))
  ∧ match _monitor_thread self with
    | Some (InFetch k _ raised _) => raised = None ∧ k ∈ dict_keys (slaves self)
    | _ => True
    end.

Definition is_start (ev : event) : bool :=
  match ev with
  | StartMonitoring => true
  | _ => false
  end.

Definition is_monitor_step (ev : event) : bool :=
  match ev with
  | MonitorStep _ => true
  | _ => false
  end.

(** Whether every key of a dict is a string. *)
Definition string_keys {V : Type} (d : list (option string * V)) : bool :=
  forallb (fun kv => match fst kv with Some _ => true | None => false end) d.


(** The two schedules in which the reader does not overlap the commit. *)
Definition reader_first (slave : SlaveInfo) (r : net_reply) : list action :=
  (map Read to_dict_reads ++ map Write (fst (fetch_stores slave r)))%list.

Definition reader_last (slave : SlaveInfo) (r : net_reply) : list action :=
  (map Write (fst (fetch_stores slave r)) ++ map Read to_dict_reads)%list.

(** An agent that no fetch has reached yet. *)
Definition never_reached (s : SlaveInfo) : Prop := online s = false ∧ data s = VNone.

(** Exactly one of the two outcomes. *)
Definition one_outcome (s : SlaveInfo) : Prop :=
  success_state s ∧ ¬ failure_state s ∨ failure_state s ∧ ¬ success_state s.

(** Whether an event stores to the record under [k]. *)
Definition stores_to (self : MasterServer) (ev : event) (k : option string) : bool :=
  match ev with
  | MonitorStep _ =>
      match _monitor_thread self with
      | Some (InFetch k' (_ :: _) _ _) => bool_decide (k' = k)
      | _ => false
      end
  | RefreshSlave slave_ip _ => bool_decide (Some slave_ip = k)
  | RefreshAllIter k' _ | HandlerStore k' _ _ => bool_decide (k' = k)
  | StartMonitoring | StopMonitoring => false
  end.

(** A schedule around one fetch: [None] stands for the next step of the
    fetch, [own i] being its step number [i], and [Some ev] for any other
    event. *)
Fixpoint weave (own : nat → event) (i : nat) (sched : list (option event)) : list event :=
  match sched with
  | [] => []
  | None :: sched' => own i :: weave own (S i) sched'
  | Some ev :: sched' => ev :: weave own i sched'
  end.

Definition own_steps (sched : list (option event)) : nat :=
  length (List.filter (fun o => match o with None => true | Some _ => false end) sched).

(** No other event of the schedule stores to the record under [k]: no
    other fetch of that agent overlaps the fetch. *)
Fixpoint others_quiet (k : option string) (own : nat → event) (i : nat)
    (self : MasterServer) (sched : list (option event)) : bool :=
  match sched with
  | [] => true
  | None :: sched' => others_quiet k own (S i) (fst (step self (own i))) sched'
  | Some ev :: sched' =>
      negb (stores_to self ev k) && others_quiet k own i (fst (step self ev)) sched'
  end.

(** The other events are not steps of the monitoring thread. *)
Definition handlers_only (sched : list (option event)) : bool :=
  forallb (fun o => match o with
                    | Some (MonitorStep _) => false
                    | _ => true
                    end) sched.

(** A store that keeps an agent never reached. *)
Definition harmless (w : store) : bool :=
  match w with
  | SetOnline b => negb b
  | SetData _ => false
  | SetLastSeen _ | SetError _ => true
  end.

(** The stores the monitoring thread still has to perform on the record
    under [k] in the fetch it is in. *)
Definition pending_at (t : option thread_pc) (k : option string) : list store :=
  match t with
  | Some (InFetch k' ws _ _) => if decide (k' = k) then ws else []
  | _ => []
  end.

(** The agent under [k] was never reached, and the stores the monitoring
    thread still has to perform on it keep it so. *)
Definition unreached_at (k : option string) (self : MasterServer) : Prop :=
  (∃ s, dict_get k (slaves self) = Some s ∧ never_reached s)
  ∧ Forall (fun w => harmless w = true) (pending_at (_monitor_thread self) k).

(** The attribute stores of a fetch: four on success, two on failure. *)
Definition store_count (r : net_reply) : nat := if is_success r then 4 else 2.

(** The steps of the monitoring thread through one call of
    [_fetch_slave_info] answered by [r]: the request, the stores, the
    return. *)
Definition fetch_events (r : net_reply) : list event :=
  replicate (2 + store_count r) (MonitorStep r).

(** The stores of a handler's fetch of the slave under [k], one event
    each, in program order and with nothing in between. *)
Definition handler_fetch_events (k : option string) (r : net_reply) : list event :=
  map (HandlerStore k r) (seq 0 (store_count r)).

(** The events of one pass of the monitoring thread over [keys], the
    request for the agent under [k] being answered by [net k]. *)
Definition pass_events (net : option string -> net_reply) (keys : list (option string))
    : list event :=
  concat (map (fun k => fetch_events (net k)) keys).

(** A number of its own steps within which the monitoring thread returns
    once the run flag is down: a fetch takes at most six. *)
Definition steps_bound (t : option thread_pc) : nat :=
  match t with
  | Some AtWhile => 1
  | Some (InFor rest) => 6 * length rest + 3
  | Some (InFetch _ ws _ rest) => length ws + 1 + 6 * length rest + 3
  | Some InSleep => 2
  | Some Returned | None => 0
  end.

Definition monitor_steps (evs : list event) : nat :=
  length (List.filter is_monitor_step evs).

(** The steps that take the monitoring thread out of the fetch it is
    in: its pending stores and the return. *)
Definition finish_events (t : option thread_pc) (r : net_reply) : list event :=
  match t with
  | Some (InFetch _ ws _ _) => replicate (length ws + 1) (MonitorStep r)
  | _ => []
  end.

(** The roster once the stores pending in the thread are done. *)
Definition after_pending (t : option thread_pc) (d : list (option string * SlaveInfo))
    : list (option string * SlaveInfo) :=
  match t with
  | Some (InFetch k ws _ _) => store_at k ws d
  | _ => d
  end.

(** ** Sample replies and schedules *)

Definition reply_timeout : net_reply := mkReply (inl Timeout) 100.
Definition reply_refused : net_reply := mkReply (inl ConnectionError) 101.
Definition reply_http500 : net_reply := mkReply (inr (mkResponse 500 (inr VNone))) 102.
Definition reply_bad_json : net_reply :=
  mkReply (inr (mkResponse 200 (inl (OtherException "Expecting value: line 1 column 1 (char 0)")))) 103.
Definition reply_ok : net_reply :=
  mkReply (inr (mkResponse 200
    (inr (VDict [(VStr "timestamp", VInt 1); (VStr "system", VDict []); (VStr "gpus", VList [])]))))
    104.

(** The default roster; the monitoring thread starts and runs a pass in
    which the first agent times out and the other two answer, then a
    handler refreshes the first agent, which answers 500, and the thread
    sleeps and starts a second pass in which the first agent sends a body
    that does not parse. *)
Definition sample_schedule : list event :=
  (StartMonitoring :: MonitorStep reply_ok
   :: fetch_events reply_timeout ++ fetch_events reply_ok ++ fetch_events reply_ok
   ++ [ RefreshSlave "192.168.217.180" reply_http500;
        MonitorStep reply_ok; MonitorStep reply_ok; MonitorStep reply_ok ]
   ++ fetch_events reply_bad_json)%list.

(** A stop in the middle of a commit of the first pass: the thread has
    asked the first agent, which timed out, and has stored [online]; the
    store of [error] is still to come and two keys remain. *)
Definition before_stop : list event :=
  [ StartMonitoring; MonitorStep reply_ok; MonitorStep reply_timeout; MonitorStep reply_timeout ].

Definition after_stop : list event :=
  (MonitorStep reply_ok :: RefreshSlave "192.168.217.180" reply_ok :: StopMonitoring
   :: replicate 20 (MonitorStep reply_refused))%list.

(** The monitoring thread times out on the first agent and stores
    [online]; a handler then refreshes that agent, which answers; then the
    thread stores its [error] and returns from the fetch. *)
Definition overlap_schedule : list event :=
  [ StartMonitoring; MonitorStep reply_ok;
    MonitorStep reply_timeout; MonitorStep reply_timeout;
    RefreshSlave "192.168.217.180" reply_ok;
    MonitorStep reply_timeout; MonitorStep reply_timeout ].

(** The monitoring thread fetches the first agent, which answers, while
    a handler refreshes the second agent, which times out: the steps of
    the fetch stand as [None], the stores of the handler between them. *)
Definition at_first_agent : MasterServer :=
  fst (run (MasterServer__init__ None) [StartMonitoring; MonitorStep reply_ok]).

Definition around_monitor_fetch : list (option event) :=
  [ None; Some (HandlerStore (Some "192.168.217.190") reply_timeout 0); None; None;
    Some (HandlerStore (Some "192.168.217.190") reply_timeout 1); Some StopMonitoring;
    None; None; None ].

(** A configuration with a negative ["refresh_interval"]. *)
Definition config_negative_interval : user_config :=
  {| u_slaves := None; u_slave_port := None;
     u_refresh_interval := Some (-1); u_request_timeout := None |}.


(** A record after a failed fetch, and a reader scheduled between the
    store of [online] and the store of [error] of the next, successful
    fetch. *)
Definition offline_slave : SlaveInfo :=
  fst (_fetch_slave_info (SlaveInfo__init__ (Some "Slave-1") (Some "192.168.217.180") 5001)
                         reply_timeout).

Definition reader_inside_success : list action :=
  [ Write (SetData (VDict [(VStr "timestamp", VInt 1); (VStr "system", VDict []);
                           (VStr "gpus", VList [])]));
    Write (SetOnline true);
    Read AName; Read AIp; Read APort; Read AOnline; Read ALastSeen; Read AData; Read AError;
    Write (SetLastSeen 104);
    Write (SetError None) ].

(** A record after a successful fetch, and a failed fetch scheduled
    between the reader's load of [online] and its load of [error]. *)
Definition online_slave : SlaveInfo :=
  fst (_fetch_slave_info (SlaveInfo__init__ (Some "Slave-1") (Some "192.168.217.180") 5001)
                         reply_ok).

Definition failure_inside_reader : list action :=
  [ Read AName; Read AIp; Read APort; Read AOnline;
    Write (SetOnline false);
    Write (SetError (Some "Connection timeout to Slave-1 (192.168.217.180:5001)"));
    Read ALastSeen; Read AData; Read AError ].

(** The stores of a successful fetch by one thread and of a timed-out
    fetch of the same record by another, scheduled so that the failed
    fetch stores [online] first and [error] last. *)
Definition fresh_slave : SlaveInfo :=
  SlaveInfo__init__ (Some "Slave-1") (Some "192.168.217.180") 5001.

Definition racing_stores : list store :=
  [ SetOnline false;
    SetData (VDict [(VStr "timestamp", VInt 1); (VStr "system", VDict []);
                    (VStr "gpus", VList [])]);
    SetOnline true; SetLastSeen 104; SetError None;
    SetError (Some "Connection timeout to Slave-1 (192.168.217.180:5001)") ].

(** ** Vocabulary of the further properties *)

(** A record under a sequence of fetches, one reply after the other. *)
Definition fetch_all (slave : SlaveInfo) (rs : list net_reply) : SlaveInfo :=
  fold_left (fun s r => fst (_fetch_slave_info s r)) rs slave.

(** The body and the clock reading of a successful reply. *)
Definition success_of (r : net_reply) : option (pyval * Z) :=
  match success_body r with
  | Some body => Some (body, clock r)
  | None => None
  end.

Definition last_success (rs : list net_reply) : option (pyval * Z) :=
  last (omap success_of rs).

(** What a record satisfies between two fetches of its agent. *)
Definition record_ok (s : SlaveInfo) : Prop :=
  (online s = true → error s = None ∧ is_Some (last_seen s))
  ∧ (is_Some (error s) → online s = false)
  ∧ (last_seen s = None → data s = VNone ∧ online s = false).

Definition same_identity (s s' : SlaveInfo) : Prop :=
  name s = name s' ∧ ip s = ip s' ∧ port s = port s'.


(** Whether the monitoring thread has no store pending on the record
    under [k]. *)
Definition idle_at (t : option thread_pc) (k : option string) : bool :=
  match pending_at t k with
  | [] => true
  | _ :: _ => false
  end.

(** A schedule in which no two fetches of one agent overlap: a handler
    fetches in one event, and never an agent that the monitoring thread
    has stores pending on. *)
Fixpoint no_overlap (self : MasterServer) (evs : list event) : bool :=
  match evs with
  | [] => true
  | ev :: evs' =>
      match ev with
      | HandlerStore _ _ _ => false
      | RefreshSlave slave_ip _ => idle_at (_monitor_thread self) (Some slave_ip)
      | RefreshAllIter k _ => idle_at (_monitor_thread self) k
      | MonitorStep _ | StartMonitoring | StopMonitoring => true
      end
      && no_overlap (fst (step self ev)) evs'
  end.

(** Every record is well formed once the stores pending on it are
    done. *)
Definition records_settle (self : MasterServer) : Prop :=
  ∀ k s, dict_get k (slaves self) = Some s →
    record_ok (run_stores (pending_at (_monitor_thread self) k) s).


(** ** [get_uptime] *)

(** [datetime.timedelta], normalised as Python keeps it: any number of
    days, seconds within a day, microseconds within a second. *)
Record timedelta := mkTimedelta {
  td_days : Z;
  td_seconds : Z;
  td_microseconds : Z
}.

(** [now - start_time] for two [datetime]s given in microseconds. *)
Definition datetime_sub (now start_time : Z) : timedelta :=
  let us := now - start_time in
  {| td_days := us / 86400000000;
     td_seconds := (us mod 86400000000) / 1000000;
     td_microseconds := us mod 1000000 |}.

Definition get_uptime (start_time now : Z) : http_response :=
  let uptime := datetime_sub now start_time in
  (VDict [ (VStr "days", VInt (td_days uptime));
           (VStr "hours", VInt (td_seconds uptime / 3600));
           (VStr "minutes", VInt ((td_seconds uptime mod 3600) / 60));
           (VStr "seconds", VInt (td_seconds uptime mod 60)) ], 200).

(** * The slave: [flowline/slave.py] *)

(** ** Python string methods

    Strings are sequences of code points below 256. *)

(** [c.isspace()] *)
Definition is_space (c : ascii) : bool :=
  let n := nat_of_ascii c in
  ((9 <=? n) && (n <=? 13) || (28 <=? n) && (n <=? 32) || (n =? 133) || (n =? 160))%nat.

(** [needle in hay] *)
Fixpoint py_in (needle hay : string) : bool :=
  String.prefix needle hay
  || match hay with
     | EmptyString => false
     | String _ hay' => py_in needle hay'
     end.

(** [s.split(sep)] for a separator of one character: one piece more
    than there are separators. *)
Fixpoint py_split (sep : ascii) (s : string) : list string :=
  match s with
  | EmptyString => [EmptyString]
  | String c s' =>
      if Ascii.eqb c sep then EmptyString :: py_split sep s'
      else match py_split sep s' with
           | piece :: pieces => String c piece :: pieces
           | [] => [String c EmptyString]
           end
  end.

Fixpoint py_lstrip (s : string) : string :=
  match s with
  | EmptyString => EmptyString
  | String c s' => if is_space c then py_lstrip s' else s
  end.

Fixpoint py_rstrip (s : string) : string :=
  match s with
  | EmptyString => EmptyString
  | String c s' =>
      match py_rstrip s' with
      | EmptyString => if is_space c then EmptyString else String c EmptyString
      | t => String c t
      end
  end.

(** [s.strip()] *)
Definition py_strip (s : string) : string := py_rstrip (py_lstrip s).

(** [sep.join(l)] *)
Fixpoint py_join (sep : string) (l : list string) : string :=
  match l with
  | [] => EmptyString
  | [x] => x
  | x :: l' => x +:+ sep +:+ py_join sep l'
  end.

(** [x or y] on strings: the empty string is false. *)
Definition str_or (x y : string) : string :=
  match x with
  | EmptyString => y
  | _ => x
  end.

(** ** [get_cpu_model] *)

(** What [open("/proc/cpuinfo")] and the iteration over the file give:
    the open raises, or these lines are read (each with its newline) and
    the read then ends or raises. *)
Inductive file_read :=
| OpenRaises
| Lines (lines : list string) (then_raises : bool).

(** What the function sees of the machine: [platform.system()], the
    file, the standard output of [wmic] ([None] when [subprocess.run]
    raises), and [platform.processor()]. *)
Record cpu_env := mkCpuEnv {
  platform_system : string;
  proc_cpuinfo : file_read;
  wmic_stdout : option string;
  platform_processor : string
}.

(** The [for] over the lines: [Some (Some m)] is a [return m], [Some None]
    an exception, [None] the end of the loop without a [return]. *)
Fixpoint scan_cpuinfo (lines : list string) : option (option string) :=
  match lines with
  | [] => None
  | line :: lines' =>
      if py_in "model name" line then
        match py_split ":" line with
        | _ :: piece :: _ => Some (Some (py_strip piece))
        | _ => Some None
        end
      else scan_cpuinfo lines'
  end.

(** The body of the [try]; [None] is an exception. *)
Definition get_cpu_model_body (env : cpu_env) : option string :=
  let fall_through := Some (str_or (platform_processor env) "Unknown CPU") in
  if String.eqb (platform_system env) "Linux" then
    match proc_cpuinfo env with
    | OpenRaises => None
    | Lines lines then_raises =>
        match scan_cpuinfo lines with
        | Some result => result
        | None => if then_raises then None else fall_through
        end
    end
  else if String.eqb (platform_system env) "Windows" then
    match wmic_stdout env with
    | None => None
    | Some stdout =>
        let lines := py_split "010" (py_strip stdout) in
        match lines with
        | _ :: line :: _ => Some (py_strip line)
        | _ => fall_through
        end
    end
  else fall_through.

Definition get_cpu_model (env : cpu_env) : string :=
  match get_cpu_model_body env with
  | Some model => model
  | None => "Unknown CPU"
  end.

(** Whether a string is free of a character, and of whitespace at its
    ends. *)
Fixpoint free_of (c : ascii) (s : string) : bool :=
  match s with
  | EmptyString => true
  | String c' s' => negb (Ascii.eqb c' c) && free_of c s'
  end.

Definition stripped (s : string) : Prop := py_lstrip s = s ∧ py_rstrip s = s.

Definition tab : string := String "009" EmptyString.
Definition newline : string := String "010" EmptyString.

Definition sample_cpuinfo : list string :=
  [ "processor" +:+ tab +:+ ": 0" +:+ newline;
    "vendor_id" +:+ tab +:+ ": GenuineIntel" +:+ newline;
    "model name" +:+ tab +:+ ": Intel(R) Xeon(R) Gold 6248R CPU @ 3.00GHz" +:+ newline;
    "model name" +:+ tab +:+ ": other" +:+ newline ].

(** ** [get_gpu_processes] and [get_gpu_info]

    The floating-point arithmetic is a parameter of this part:
    [round_ratio a b n] stands for [round(a / b, n)]. *)

(** How a call into [psutil] or NVML can end besides returning: with
    [psutil.NoSuchProcess] or [psutil.AccessDenied], with
    [pynvml.NVMLError], or with any other [Exception]. *)
Inductive failure :=
| ProcessGone
| NvmlFailure
| OtherFailure.

Definition attempt (A : Type) : Type := failure + A.

Definition attempt_bind {A B : Type} (m : attempt A) (k : A → attempt B) : attempt B :=
  match m with
  | inl e => inl e
  | inr a => k a
  end.

Notation "m >>= k" := (attempt_bind m k) (at level 50, left associativity).

Definition returns {A : Type} (a : attempt A) : bool :=
  match a with
  | inr _ => true
  | inl _ => false
  end.

(** One element of [nvmlDeviceGetComputeRunningProcesses(handle)], with
    what [psutil] answers about that process: the constructor
    [psutil.Process(pid)], [name()], [username()] and the two calls of
    [cmdline()]. *)
Record gpu_proc := mkGpuProc {
  pid : Z;
  usedGpuMemory : option Z;
  psutil_Process : attempt unit;
  p_name : attempt string;
  p_username : attempt string;
  p_cmdline : attempt (list string);
  p_cmdline_again : attempt (list string)
}.

Definition CMDLINE_MAX_ARGS : nat := 5.

Section gpu.
Variable round_ratio : Z → Z → Z → pyval.

(** [round(proc.usedGpuMemory / (1024 ** 2), 1) if proc.usedGpuMemory else 0] *)
Definition memory_mb (proc : gpu_proc) : pyval :=
  match usedGpuMemory proc with
  | Some n => if Z.eqb n 0 then VInt 0 else round_ratio n (1024 ^ 2) 1
  | None => VInt 0
  end.

(** The dict of the inner [try], its values evaluated in the order of
    the display. *)
Definition proc_entry (proc : gpu_proc) : attempt pyval :=
  psutil_Process proc >>= fun _ =>
  p_name proc >>= fun name =>
  p_username proc >>= fun username =>
  p_cmdline proc >>= fun args =>
  match args with
  | [] => inr EmptyString
  | _ => p_cmdline_again proc >>= fun args' =>
         inr (py_join " " (take CMDLINE_MAX_ARGS args'))
  end >>= fun cmdline =>
  inr (VDict [ (VStr "pid", VInt (pid proc));
               (VStr "name", VStr name);
               (VStr "username", VStr username);
               (VStr "memory_mb", memory_mb proc);
               (VStr "cmdline", VStr cmdline) ]).

(** The dict of the inner [except]. *)
Definition unknown_entry (proc : gpu_proc) : pyval :=
  VDict [ (VStr "pid", VInt (pid proc));
          (VStr "name", VStr "Unknown");
          (VStr "username", VStr "Unknown");
          (VStr "memory_mb", memory_mb proc);
          (VStr "cmdline", VStr EmptyString) ].

(** The [for] over [proc_infos]: a process that is gone or may not be
    inspected is listed as unknown; any other exception leaves the loop
    for the outer [except], which returns what was collected. *)
Fixpoint list_processes (proc_infos : list gpu_proc) (processes : list pyval) : list pyval :=
  match proc_infos with
  | [] => processes
  | proc :: rest =>
      match proc_entry proc with
      | inr entry => list_processes rest (processes ++ [entry])
      | inl ProcessGone => list_processes rest (processes ++ [unknown_entry proc])
      | inl _ => processes
      end
  end.

Definition get_gpu_processes (running : attempt (list gpu_proc)) : list pyval :=
  match running with
  | inr proc_infos => list_processes proc_infos []
  | inl _ => []
  end.

(** What [nvmlDeviceGetName] returns: [bytes], with their UTF-8 decoding
    if they have one, or [str]. *)
Inductive gpu_name :=
| NameBytes (decoded : option string)
| NameStr (s : string).

(** What NVML answers about the device with one index. *)
Record gpu_device := mkGpuDevice {
  nvmlDeviceGetHandleByIndex : attempt unit;
  nvmlDeviceGetMemoryInfo : attempt (Z * Z * Z);
  nvmlDeviceGetUtilizationRates : attempt pyval;
  nvmlDeviceGetTemperature : attempt pyval;
  nvmlDeviceGetPowerUsage : attempt Z;
  nvmlDeviceGetPowerManagementLimit : attempt Z;
  nvmlDeviceGetName : attempt gpu_name;
  nvmlDeviceGetComputeRunningProcesses : attempt (list gpu_proc)
}.

(** [try: power = query / 1000; except pynvml.NVMLError: power = 0],
    then [round(power, 1)]. *)
Definition rounded_power (query : attempt Z) : attempt pyval :=
  match query with
  | inr mw => inr (round_ratio mw 1000 1)
  | inl NvmlFailure => inr (VInt 0)
  | inl e => inl e
  end.

Definition decode_name (n : gpu_name) : attempt string :=
  match n with
  | NameBytes (Some s) => inr s
  | NameBytes None => inl OtherFailure
  | NameStr s => inr s
  end.

(** One turn of the [for] over [range(device_count)]. *)
Definition gpu_entry (i : Z) (dev : gpu_device) : attempt pyval :=
  nvmlDeviceGetHandleByIndex dev >>= fun _ =>
  nvmlDeviceGetMemoryInfo dev >>= fun memory_info =>
  nvmlDeviceGetUtilizationRates dev >>= fun utilization =>
  nvmlDeviceGetTemperature dev >>= fun temperature =>
  rounded_power (nvmlDeviceGetPowerUsage dev) >>= fun power =>
  rounded_power (nvmlDeviceGetPowerManagementLimit dev) >>= fun max_power =>
  nvmlDeviceGetName dev >>= fun gpu_name =>
  decode_name gpu_name >>= fun name =>
  let processes := get_gpu_processes (nvmlDeviceGetComputeRunningProcesses dev) in
  let '(total, used, free) := memory_info in
  inr (VDict [ (VStr "id", VInt i);
               (VStr "name", VStr name);
               (VStr "memory",
                VDict [ (VStr "total", round_ratio total (1024 ^ 2) 1);
                        (VStr "used", round_ratio used (1024 ^ 2) 1);
                        (VStr "free", round_ratio free (1024 ^ 2) 1) ]);
               (VStr "utilization", utilization);
               (VStr "temperature", temperature);
               (VStr "power", VDict [ (VStr "current", power); (VStr "max", max_power) ]);
               (VStr "processes", VList processes) ]).

(** The [for]: the devices from index [i] on. The flag tells whether
    the loop ran to its end. *)
Fixpoint collect_gpus (i : Z) (devs : list gpu_device) (gpus : list pyval)
    : list pyval * bool :=
  match devs with
  | [] => (gpus, true)
  | dev :: rest =>
      match gpu_entry i dev with
      | inr entry => collect_gpus (i + 1) rest (gpus ++ [entry])
      | inl _ => (gpus, false)
      end
  end.

(** The NVML library as [get_gpu_info] meets it: whether the import
    succeeded, what [nvmlInit] and [nvmlDeviceGetCount] do (the count
    being the number of devices), and the devices by index. An exception
    of [nvmlShutdown] is caught like every other and changes nothing of
    what is returned. *)
Record nvml_env := mkNvmlEnv {
  HAS_PYNVML : bool;
  nvmlInit : attempt unit;
  nvmlDeviceGetCount : attempt unit;
  nvml_devices : list gpu_device
}.

(** The calls that open and close the library, as the function makes
    them. *)
Inductive nvml_call := CallInit | CallShutdown.

(** The list returned, and the calls of [nvmlInit] and [nvmlShutdown]
    made on the way. *)
Definition get_gpu_info (env : nvml_env) : list pyval * list nvml_call :=
  if negb (HAS_PYNVML env) then ([], [])
  else
    match nvmlInit env with
    | inl _ => ([], [CallInit])
    | inr _ =>
        match nvmlDeviceGetCount env with
        | inl _ => ([], [CallInit])
        | inr _ =>
            match collect_gpus 0 (nvml_devices env) [] with
            | (gpus, true) => (gpus, [CallInit; CallShutdown])
            | (gpus, false) => (gpus, [CallInit])
            end
        end
    end.

(** The ["id"] of an entry and the [pid] of a process entry. *)
Definition entry_id (entry : pyval) : option pyval := vdict_get "id" entry.
Definition entry_pid (entry : pyval) : option pyval := vdict_get "pid" entry.

(** Whether the entry of a process or of a device gets built. *)
Definition proc_listed (proc : gpu_proc) : bool :=
  match proc_entry proc with
  | inr _ | inl ProcessGone => true
  | inl _ => false
  end.

Definition device_read (i : Z) (dev : gpu_device) : bool := returns (gpu_entry i dev).

Fixpoint devices_read (i : Z) (devs : list gpu_device) : bool :=
  match devs with
  | [] => true
  | dev :: rest => device_read i dev && devices_read (i + 1) rest
  end.

(** A power query that returns or raises [pynvml.NVMLError]. *)
Definition power_answered (query : attempt Z) : bool :=
  match query with
  | inr _ | inl NvmlFailure => true
  | inl _ => false
  end.

(** The elements before the first one that fails a test. *)
Fixpoint while_ok {A : Type} (ok : A → bool) (l : list A) : list A :=
  match l with
  | [] => []
  | x :: l' => if ok x then x :: while_ok ok l' else []
  end.

End gpu.

(** ** [SlaveServer._load_config] and [SlaveServer.run] *)

(** The configuration dict of the slave after [_load_config]. *)
Record SlaveConfig := mkSlaveServerConfig {
  sc_slave_host : string;
  sc_slave_port : Z;
  sc_master_ip : string;
  sc_master_port : Z;
  sc_report_interval : Z
}.

(** The keys a user file may override. *)
Record slave_user_config := mkSlaveUserConfig {
  su_slave_host : option string;
  su_slave_port : option Z;
  su_master_ip : option string;
  su_master_port : option Z;
  su_report_interval : option Z
}.

Definition slave_default_config : SlaveConfig :=
  {| sc_slave_host := "0.0.0.0";
     sc_slave_port := 5001;
     sc_master_ip := "192.168.217.190";
     sc_master_port := 5000;
     sc_report_interval := 3 |}.

(** [file] is [None] when the path is missing or [json.load] raised. *)
Definition slave_load_config (file : option slave_user_config) : SlaveConfig :=
  match file with
  | None => slave_default_config
  | Some u =>
      {| sc_slave_host := default (sc_slave_host slave_default_config) (su_slave_host u);
         sc_slave_port := default (sc_slave_port slave_default_config) (su_slave_port u);
         sc_master_ip := default (sc_master_ip slave_default_config) (su_master_ip u);
         sc_master_port := default (sc_master_port slave_default_config) (su_master_port u);
         sc_report_interval :=
           default (sc_report_interval slave_default_config) (su_report_interval u) |}
  end.

(** [host or ...] and [port or ...]: [None], the empty string and 0 are
    false. *)
Definition host_or (host : option string) (fallback : string) : string :=
  match host with
  | Some (String c h) => String c h
  | _ => fallback
  end.

Definition port_or (port : option Z) (fallback : Z) : Z :=
  match port with
  | Some p => if Z.eqb p 0 then fallback else p
  | None => fallback
  end.

(** The address [SlaveServer.run] hands to [app.run]. *)
Definition slave_run (config : SlaveConfig) (host : option string) (port : option Z)
    : string * Z :=
  let host := host_or host (sc_slave_host config) in
  let port := port_or port (sc_slave_port config) in
  (host, port).

(** * Properties *)

(** ** Dictionaries *)

Section pydict_facts.
Context {K V : Type} `{EqDecision K}.
Implicit Types (k : K) (v : V) (d : list (K * V)).

Lemma dict_get_set_eq k v d : dict_get k (dict_set k v d) = Some v.
Proof.
  induction d as [|[k' v'] d IH]; simpl.
  - by rewrite decide_True.
  - destruct (decide (k = k')) as [->|Hne]; simpl.
    + by rewrite decide_True.
    + by rewrite decide_False.
Qed.

Lemma dict_get_set_ne k k' v d :
  k ≠ k' → dict_get k' (dict_set k v d) = dict_get k' d.
Proof.
  intros Hne. induction d as [|[k0 v0] d IH]; simpl.
  - rewrite decide_False; [done|congruence].
  - destruct (decide (k = k0)) as [->|Hk]; simpl.
    + rewrite !decide_False; [done|congruence|congruence].
    + destruct (decide (k' = k0)); [done|apply IH].
Qed.

Lemma dict_get_Some_keys k v d : dict_get k d = Some v → k ∈ dict_keys d.
Proof.
  induction d as [|[k0 v0] d IH]; simpl; [done|].
  destruct (decide (k = k0)) as [->|Hk]; intros Hg.
  - apply list_elem_of_here.
  - apply list_elem_of_further, IH, Hg.
Qed.

Lemma dict_get_None_keys k d : dict_get k d = None → k ∉ dict_keys d.
Proof.
  induction d as [|[k0 v0] d IH]; simpl.
  - intros _ Hin. by apply elem_of_nil in Hin.
  - destruct (decide (k = k0)) as [->|Hk]; [done|].
    intros Hg Hin. apply elem_of_cons in Hin as [?|Hin]; [done|]. by apply IH.
Qed.

Lemma dict_keys_set_present k v v0 d :
  dict_get k d = Some v0 → dict_keys (dict_set k v d) = dict_keys d.
Proof.
  unfold dict_keys. induction d as [|[k0 v1] d IH]; simpl; [done|].
  destruct (decide (k = k0)) as [->|Hk]; simpl; [done|].
  intros Hg. f_equal. by apply IH.
Qed.

Lemma dict_keys_set_absent k v d :
  dict_get k d = None → dict_keys (dict_set k v d) = (dict_keys d ++ [k])%list.
Proof.
  unfold dict_keys. induction d as [|[k0 v1] d IH]; simpl; [done|].
  destruct (decide (k = k0)) as [->|Hk]; simpl; [done|].
  intros Hg. f_equal. by apply IH.
Qed.

Lemma dict_keys_set_NoDup k v d : NoDup (dict_keys d) → NoDup (dict_keys (dict_set k v d)).
Proof.
  intros Hnd. destruct (dict_get k d) as [v0|] eqn:Hg.
  - by rewrite (dict_keys_set_present _ _ _ _ Hg).
  - rewrite (dict_keys_set_absent _ _ _ Hg).
    apply NoDup_app. split; [done|]. split.
    + intros x Hx Hx'. apply list_elem_of_singleton in Hx' as ->.
      by apply (dict_get_None_keys _ _ Hg).
    + apply NoDup_singleton.
Qed.

Lemma dict_get_elem k v d : dict_get k d = Some v → (k, v) ∈ d.
Proof.
  induction d as [|[k0 v0] d IH]; simpl; [done|].
  destruct (decide (k = k0)) as [->|Hk]; intros Hg.
  - injection Hg as ->. apply list_elem_of_here.
  - apply list_elem_of_further, IH, Hg.
Qed.

Lemma dict_elem_get k v d : NoDup (dict_keys d) → (k, v) ∈ d → dict_get k d = Some v.
Proof.
  induction d as [|[k0 v0] d IH]; simpl; intros Hnd Hin.
  - by apply elem_of_nil in Hin.
  - apply NoDup_cons in Hnd as [Hk0 Hnd].
    apply elem_of_cons in Hin as [Heq|Hin].
    + injection Heq as -> ->. by rewrite decide_True.
    + destruct (decide (k = k0)) as [->|Hk]; [|by apply IH].
      exfalso. apply Hk0. change (k0 ∈ dict_keys d).
      apply (dict_get_Some_keys _ v). by apply IH.
Qed.

Lemma dict_in_true k d : dict_in k d = true ↔ k ∈ dict_keys d.
Proof.
  unfold dict_in. destruct (dict_get k d) as [v|] eqn:Hg.
  - split; [intros _|done]. by apply (dict_get_Some_keys _ v).
  - split; [done|]. intros Hin. by apply dict_get_None_keys in Hg.
Qed.
End pydict_facts.

(** ** One fetch *)

Lemma fetch_on_success slave r body :
  success_body r = Some body →
  _fetch_slave_info slave r =
    ({| name := name slave; ip := ip slave; port := port slave;
        online := true; last_seen := Some (clock r); data := body; error := None |}, None).
Proof.
  unfold success_body, _fetch_slave_info, fetch_stores, try_body.
  destruct (get r) as [e|response]; [done|].
  destruct (Z.eqb (status_code response) 200); [|done].
  destruct (json response) as [e|body']; [done|].
  by intros [= ->].
Qed.

Lemma fetch_on_failure slave r :
  success_body r = None →
  ∃ msg, _fetch_slave_info slave r =
    ({| name := name slave; ip := ip slave; port := port slave;
        online := false; last_seen := last_seen slave; data := data slave;
        error := Some msg |}, None).
Proof.
  unfold success_body, _fetch_slave_info, fetch_stores, try_body.
  destruct (get r) as [e|response].
  - intros _. destruct e; simpl; eauto.
  - destruct (Z.eqb (status_code response) 200).
    + destruct (json response) as [e|body']; [|done].
      intros _. destruct e; simpl; eauto.
    + intros _. simpl. eauto.
Qed.

Lemma fetch_returns slave r : snd (_fetch_slave_info slave r) = None.
Proof.
  destruct (success_body r) as [body|] eqn:Hs.
  - by rewrite (fetch_on_success _ _ _ Hs).
  - destruct (fetch_on_failure slave r Hs) as [msg ->]. done.
Qed.

Lemma fetch_keeps_identity slave r :
  let s' := fst (_fetch_slave_info slave r) in
  name s' = name slave ∧ ip s' = ip slave ∧ port s' = port slave.
Proof.
  destruct (success_body r) as [body|] eqn:Hs.
  - by rewrite (fetch_on_success _ _ _ Hs).
  - destruct (fetch_on_failure slave r Hs) as [msg ->]. done.
Qed.

Lemma fetch_outcome_state slave r :
  let s' := fst (_fetch_slave_info slave r) in
  success_state s' ∨ failure_state s'.
Proof.
  destruct (success_body r) as [body|] eqn:Hs.
  - rewrite (fetch_on_success _ _ _ Hs). by left.
  - destruct (fetch_on_failure slave r Hs) as [msg ->]. right. split; simpl; eauto.
Qed.

Lemma outcome_states_exclusive s : success_state s → failure_state s → False.
Proof. intros [Ho _] [Ho' _]. congruence. Qed.

Lemma fetch_consistent slave r : consistent (fst (_fetch_slave_info slave r)).
Proof.
  destruct (fetch_outcome_state slave r) as [[_ He]|[Ho _]]; intros Hon.
  - exact He.
  - simpl in *. congruence.
Qed.

Lemma fetch_at_returns k r d : snd (fetch_at k r d) = None.
Proof.
  unfold fetch_at. destruct (dict_get k d) as [slave|]; [|done].
  pose proof (fetch_returns slave r) as Hr.
  destruct (_fetch_slave_info slave r) as [s' x]. exact Hr.
Qed.

Lemma fetch_at_get k r d slave :
  dict_get k d = Some slave →
  dict_get k (fst (fetch_at k r d)) = Some (fst (_fetch_slave_info slave r)).
Proof.
  intros Hg. unfold fetch_at. rewrite Hg.
  destruct (_fetch_slave_info slave r) as [s' x]. simpl. apply dict_get_set_eq.
Qed.

Lemma fetch_at_other k k' r d : k ≠ k' → dict_get k' (fst (fetch_at k r d)) = dict_get k' d.
Proof.
  intros Hne. unfold fetch_at. destruct (dict_get k d) as [slave|]; [|done].
  destruct (_fetch_slave_info slave r) as [s' x]. simpl. by apply dict_get_set_ne.
Qed.

Lemma fetch_at_keys k r d : dict_keys (fst (fetch_at k r d)) = dict_keys d.
Proof.
  unfold fetch_at. destruct (dict_get k d) as [slave|] eqn:Hg; [|done].
  destruct (_fetch_slave_info slave r) as [s' x]. simpl.
  by apply (dict_keys_set_present _ _ slave).
Qed.

Lemma for_each_slave_spec net d :
  for_each_slave net d =
    (map (fun kv => (fst kv, fst (_fetch_slave_info (snd kv) (net (fst kv))))) d, None).
Proof.
  induction d as [|[k slave] d IH]; simpl; [done|].
  pose proof (fetch_returns slave (net k)) as Hr.
  destruct (_fetch_slave_info slave (net k)) as [s' x]. simpl in Hr. subst x.
  by rewrite IH.
Qed.

(** ** Reading the roster *)

Lemma dict_set_absent {K V : Type} `{EqDecision K} (k : K) (v : V) (d : list (K * V)) :
  dict_get k d = None → dict_set k v d = (d ++ [(k, v)])%list.
Proof.
  induction d as [|[k0 v0] d IH]; simpl; [done|].
  destruct (decide (k = k0)); [done|]. intros Hg. by rewrite IH.
Qed.

Lemma dict_get_app_None {K V : Type} `{EqDecision K} (k : K) (d d' : list (K * V)) :
  dict_get k d = None → dict_get k (d ++ d')%list = dict_get k d'.
Proof.
  induction d as [|[k0 v0] d IH]; simpl; [done|].
  destruct (decide (k = k0)); [done|]. apply IH.
Qed.

(** ** Refreshing every agent *)

Lemma dict_get_absent {K V : Type} `{EqDecision K} (k : K) (d : list (K * V)) :
  k ∉ dict_keys d → dict_get k d = None.
Proof.
  intros Hk. destruct (dict_get k d) as [v|] eqn:Hg; [|done].
  exfalso. by apply Hk, (dict_get_Some_keys _ v).
Qed.

Lemma dict_set_middle {K V : Type} `{EqDecision K} (k : K) (v v' : V) (pre d : list (K * V)) :
  k ∉ dict_keys pre →
  dict_set k v' (pre ++ (k, v) :: d)%list = (pre ++ (k, v') :: d)%list.
Proof.
  induction pre as [|[k0 v0] pre IH]; simpl; intros Hk.
  - by rewrite decide_True.
  - rewrite decide_False.
    + rewrite IH; [done|]. intros Hin. apply Hk. by apply list_elem_of_further.
    + intros ->. apply Hk. apply list_elem_of_here.
Qed.

(** ** The stores of a fetch *)

Lemma fetch_stores_success slave r body :
  success_body r = Some body →
  fetch_stores slave r =
    ([SetData body; SetOnline true; SetLastSeen (clock r); SetError None], None).
Proof.
  unfold success_body, fetch_stores, try_body.
  destruct (get r) as [e|response]; [done|].
  destruct (Z.eqb (status_code response) 200); [|done].
  destruct (json response) as [e|body']; [done|].
  by intros [= ->].
Qed.

Lemma fetch_stores_failure slave r :
  success_body r = None →
  ∃ msg, fetch_stores slave r = ([SetOnline false; SetError (Some msg)], None).
Proof.
  unfold success_body, fetch_stores, try_body.
  destruct (get r) as [e|response].
  - intros _. destruct e; simpl; eauto.
  - destruct (Z.eqb (status_code response) 200).
    + destruct (json response) as [e|body']; [|done].
      intros _. destruct e; simpl; eauto.
    + intros _. simpl. eauto.
Qed.

Lemma fetch_stores_count slave r : length (fst (fetch_stores slave r)) = store_count r.
Proof.
  unfold store_count, is_success. destruct (success_body r) as [body|] eqn:Hs.
  - by rewrite (fetch_stores_success _ _ _ Hs).
  - by destruct (fetch_stores_failure slave r Hs) as [msg ->].
Qed.

Lemma fetch_stores_returns slave r : snd (fetch_stores slave r) = None.
Proof.
  destruct (success_body r) as [body|] eqn:Hs.
  - by rewrite (fetch_stores_success _ _ _ Hs).
  - by destruct (fetch_stores_failure slave r Hs) as [msg ->].
Qed.

Lemma fetch_as_stores slave r :
  run_stores (fst (fetch_stores slave r)) slave = fst (_fetch_slave_info slave r).
Proof. unfold _fetch_slave_info. by destruct (fetch_stores slave r). Qed.

Lemma setattr_identity s w :
  name (setattr s w) = name s ∧ ip (setattr s w) = ip s ∧ port (setattr s w) = port s.
Proof. by destruct w. Qed.

Lemma run_stores_identity ws : ∀ s,
  name (run_stores ws s) = name s ∧ ip (run_stores ws s) = ip s
  ∧ port (run_stores ws s) = port s.
Proof.
  induction ws as [|w ws IH]; intros s; [done|].
  simpl. destruct (IH (setattr s w)) as (Hn & Hi & Hp).
  destruct (setattr_identity s w) as (Hn' & Hi' & Hp'). repeat split; congruence.
Qed.

(** What a fetch stores depends on the record through its name, ip and
    port only. *)
Lemma fetch_stores_same s s' r :
  name s = name s' → ip s = ip s' → port s = port s' →
  fetch_stores s r = fetch_stores s' r.
Proof.
  intros Hn Hi Hp. unfold fetch_stores, try_body, except_clauses.
  by rewrite Hn, Hi, Hp.
Qed.

Lemma fetch_stores_run_stores ws s r : fetch_stores (run_stores ws s) r = fetch_stores s r.
Proof. destruct (run_stores_identity ws s) as (Hn & Hi & Hp). by apply fetch_stores_same. Qed.

Lemma run_stores_app ws ws' s : run_stores (ws ++ ws')%list s = run_stores ws' (run_stores ws s).
Proof. unfold run_stores. apply fold_left_app. Qed.

Lemma failing_stores_harmless slave r :
  success_body r = None → Forall (fun w => harmless w = true) (fst (fetch_stores slave r)).
Proof.
  intros Hs. destruct (fetch_stores_failure slave r Hs) as [msg ->]. by repeat constructor.
Qed.

Lemma harmless_never_reached s w :
  harmless w = true → never_reached s → never_reached (setattr s w).
Proof. intros Hw [Ho Hd]. destruct w as [v|[|]|t|e]; try done. Qed.

(** ** Stores into the roster *)

Lemma dict_set_same {K V : Type} `{EqDecision K} (k : K) (v : V) (d : list (K * V)) :
  dict_get k d = Some v → dict_set k v d = d.
Proof.
  induction d as [|[k0 v0] d IH]; simpl; [done|].
  destruct (decide (k = k0)) as [->|Hne].
  - by intros [= ->].
  - intros Hg. by rewrite IH.
Qed.

Lemma dict_set_set {K V : Type} `{EqDecision K} (k : K) (v v' : V) (d : list (K * V)) :
  dict_set k v (dict_set k v' d) = dict_set k v d.
Proof.
  induction d as [|[k0 v0] d IH]; simpl.
  - by rewrite decide_True.
  - destruct (decide (k = k0)) as [->|Hne]; simpl.
    + by rewrite decide_True.
    + rewrite decide_False by done. by rewrite IH.
Qed.

Lemma store_at_keys k ws d : dict_keys (store_at k ws d) = dict_keys d.
Proof.
  unfold store_at. destruct (dict_get k d) as [s|] eqn:Hg; [|done].
  by apply (dict_keys_set_present _ _ s).
Qed.

Lemma store_at_get k ws d s :
  dict_get k d = Some s → dict_get k (store_at k ws d) = Some (run_stores ws s).
Proof. intros Hg. unfold store_at. rewrite Hg. apply dict_get_set_eq. Qed.

Lemma store_at_other k k' ws d : k ≠ k' → dict_get k' (store_at k ws d) = dict_get k' d.
Proof.
  intros Hne. unfold store_at. destruct (dict_get k d) as [s|]; [|done].
  by apply dict_get_set_ne.
Qed.

Lemma store_at_nil k d : store_at k [] d = d.
Proof.
  unfold store_at. destruct (dict_get k d) as [s|] eqn:Hg; [|done]. by apply dict_set_same.
Qed.

(** A record after stores into the roster: the record that was there,
    with the stores performed on it. *)
Lemma store_at_record k ws d k' s' :
  dict_get k' (store_at k ws d) = Some s' →
  ∃ s ws', dict_get k' d = Some s ∧ s' = run_stores ws' s.
Proof.
  destruct (decide (k = k')) as [->|Hne].
  - destruct (dict_get k' d) as [s|] eqn:Hg.
    + rewrite (store_at_get _ _ _ _ Hg). intros [= <-]. eauto.
    + unfold store_at. rewrite Hg. congruence.
  - rewrite store_at_other by done. intros Hg. by exists s', [].
Qed.

Lemma fetch_at_stores k r d :
  fst (fetch_at k r d) =
    match dict_get k d with
    | Some s => store_at k (fst (fetch_stores s r)) d
    | None => d
    end.
Proof.
  unfold fetch_at, store_at. destruct (dict_get k d) as [s|] eqn:Hg; [|done].
  rewrite fetch_as_stores. by destruct (_fetch_slave_info s r).
Qed.

(** ** The server under a schedule *)

(** Every event leaves the roster as it was or performs stores on one
    record. *)
Lemma step_slaves self ev : ∃ k ws, slaves (fst (step self ev)) = store_at k ws (slaves self).
Proof.
  destruct ev as [r| | |slave_ip r|k r|k r i]; simpl.
  - unfold monitor_step.
    destruct (_monitor_thread self) as [[|[|k rest]|k [|w ws] [e|] rest| |]|]; simpl;
      try (exists None, []; by rewrite store_at_nil); try by eauto.
    + by destruct (_running self); exists None, []; rewrite store_at_nil.
    + by destruct (Z.ltb (refresh_interval (config self)) 0); exists None, [];
        rewrite store_at_nil.
    + destruct (dict_get k (slaves self)) as [s|]; [destruct (fetch_stores s r)|];
        exists None, []; by rewrite store_at_nil.
  - exists None, []. rewrite store_at_nil. unfold start_monitoring.
    by destruct (is_alive (_monitor_thread self)).
  - exists None, []. by rewrite store_at_nil.
  - unfold refresh_slave.
    destruct (dict_get (Some slave_ip) (slaves self)) as [s|] eqn:Hg.
    + exists (Some slave_ip), (fst (fetch_stores s r)). unfold store_at.
      rewrite Hg, fetch_as_stores. by destruct (_fetch_slave_info s r) as [s' [e|]].
    + exists None, []. by rewrite store_at_nil.
  - rewrite fetch_at_stores. destruct (dict_get k (slaves self)) as [s|]; [eauto|].
    exists None, []. by rewrite store_at_nil.
  - destruct (dict_get k (slaves self)) as [s|]; [|exists None, []; by rewrite store_at_nil].
    destruct (fst (fetch_stores s r) !! i) as [w|]; simpl; [eauto|].
    exists None, []. by rewrite store_at_nil.
Qed.

Lemma step_keys self ev : dict_keys (slaves (fst (step self ev))) = dict_keys (slaves self).
Proof. destruct (step_slaves self ev) as (k & ws & ->). apply store_at_keys. Qed.

Lemma step_config self ev : config (fst (step self ev)) = config self.
Proof.
  destruct ev as [r| | |slave_ip r|k r|k r i]; simpl; try done.
  - unfold monitor_step.
    destruct (_monitor_thread self) as [[|[|k rest]|k [|w ws] [e|] rest| |]|]; simpl; try done.
    + by destruct (_running self).
    + by destruct (Z.ltb (refresh_interval (config self)) 0).
    + destruct (dict_get k (slaves self)) as [s|]; [|done]. by destruct (fetch_stores s r).
  - unfold start_monitoring. by destruct (is_alive (_monitor_thread self)).
  - unfold refresh_slave. destruct (dict_get (Some slave_ip) (slaves self)) as [slave|]; [|done].
    by destruct (_fetch_slave_info slave r) as [s' [e|]].
  - destruct (dict_get k (slaves self)) as [s|]; [|done].
    by destruct (fst (fetch_stores s r) !! i).
Qed.

Lemma run_cons self ev evs :
  run self (ev :: evs) =
    (fst (run (fst (step self ev)) evs),
     (snd (step self ev) ++ snd (run (fst (step self ev)) evs))%list).
Proof.
  simpl. destruct (step self ev) as [self' cs]. simpl.
  by destruct (run self' evs) as [self'' cs'].
Qed.

Lemma run_app self evs evs' :
  run self (evs ++ evs')%list =
    (fst (run (fst (run self evs)) evs'),
     (snd (run self evs) ++ snd (run (fst (run self evs)) evs'))%list).
Proof.
  revert self. induction evs as [|ev evs IH]; intros self.
  - simpl. by destruct (run self evs').
  - change ((ev :: evs) ++ evs')%list with (ev :: (evs ++ evs')%list).
    rewrite !run_cons, IH. simpl. by rewrite app_assoc.
Qed.

Lemma run_keys self evs : dict_keys (slaves (fst (run self evs))) = dict_keys (slaves self).
Proof.
  revert self. induction evs as [|ev evs IH]; intros self; [done|].
  rewrite run_cons. simpl. by rewrite IH, step_keys.
Qed.

Lemma run_config self evs : config (fst (run self evs)) = config self.
Proof.
  revert self. induction evs as [|ev evs IH]; intros self; [done|].
  rewrite run_cons. simpl. by rewrite IH, step_config.
Qed.

(** What every single store keeps, every schedule keeps. *)
Lemma run_records_inv (I : option string → SlaveInfo → Prop) :
  (∀ k s w, I k s → I k (setattr s w)) →
  ∀ evs self,
    (∀ k s, dict_get k (slaves self) = Some s → I k s) →
    ∀ k s, dict_get k (slaves (fst (run self evs))) = Some s → I k s.
Proof.
  intros Hstore.
  assert (Hstores : ∀ ws k s, I k s → I k (run_stores ws s)).
  { induction ws as [|w ws IH]; intros k s Hs; [done|]. simpl. by apply IH, Hstore. }
  induction evs as [|ev evs IH]; intros self Hinit k s Hg; [by apply Hinit|].
  rewrite run_cons in Hg. simpl in Hg. revert k s Hg. apply IH.
  intros k s Hg. destruct (step_slaves self ev) as (k0 & ws & Heq). rewrite Heq in Hg.
  destruct (store_at_record _ _ _ _ _ Hg) as (s0 & ws' & Hg0 & ->).
  by apply Hstores, Hinit.
Qed.

(** The monitoring thread through the stores of a fetch and out of it. *)
Lemma run_pending r : ∀ ws self k rest s,
  _monitor_thread self = Some (InFetch k ws None rest) →
  dict_get k (slaves self) = Some s →
  run self (replicate (length ws + 1) (MonitorStep r)) =
    (set_thread (set_slaves self (dict_set k (run_stores ws s) (slaves self)))
                (Some (InFor rest)), []).
Proof.
  induction ws as [|w ws IH]; intros self k rest s Ht Hg.
  - simpl. unfold monitor_step. rewrite Ht. simpl.
    rewrite (dict_set_same _ _ _ Hg). by destruct self.
  - change (replicate (length (w :: ws) + 1) (MonitorStep r))
      with (MonitorStep r :: replicate (length ws + 1) (MonitorStep r)).
    rewrite run_cons.
    assert (Hstep : step self (MonitorStep r) =
              (set_thread (set_slaves self (dict_set k (setattr s w) (slaves self)))
                          (Some (InFetch k ws None rest)), [])).
    { simpl. unfold monitor_step. rewrite Ht. unfold store_at. by rewrite Hg. }
    rewrite Hstep. cbn [fst snd].
    rewrite (IH (set_thread (set_slaves self (dict_set k (setattr s w) (slaves self)))
                            (Some (InFetch k ws None rest)))
                k rest (setattr s w) eq_refl) by (simpl; apply dict_get_set_eq).
    simpl. by rewrite dict_set_set.
Qed.

(** One call of [_fetch_slave_info] by the monitoring thread, with
    nothing scheduled in between, is the fetch as a whole. *)
Lemma run_monitor_fetch self k rest s r :
  _monitor_thread self = Some (InFor (k :: rest)) →
  dict_get k (slaves self) = Some s →
  run self (fetch_events r) =
    (set_thread (set_slaves self (dict_set k (fst (_fetch_slave_info s r)) (slaves self)))
                (Some (InFor rest)), [mkCommit Monitor k r]).
Proof.
  intros Ht Hg. unfold fetch_events.
  replace (2 + store_count r)%nat with (S (store_count r + 1)) by lia.
  change (replicate (S (store_count r + 1)) (MonitorStep r))
    with (MonitorStep r :: replicate (store_count r + 1) (MonitorStep r)).
  rewrite run_cons.
  assert (Hstep : step self (MonitorStep r) =
            (set_thread self (Some (InFetch k (fst (fetch_stores s r)) None rest)),
             [mkCommit Monitor k r])).
  { simpl. unfold monitor_step. rewrite Ht, Hg.
    pose proof (fetch_stores_returns s r) as Hr.
    destruct (fetch_stores s r) as [ws x]. simpl in Hr. by subst x. }
  rewrite Hstep. cbn [fst snd]. rewrite <- (fetch_stores_count s r).
  rewrite (run_pending r _ (set_thread self (Some (InFetch k (fst (fetch_stores s r)) None rest)))
             k rest s eq_refl Hg). simpl. by rewrite fetch_as_stores.
Qed.

(** The stores of a handler's fetch, in program order with nothing
    scheduled in between, are the fetch as a whole. *)
Lemma run_handler_stores k r s : ∀ suf pre self,
  fst (fetch_stores s r) = (pre ++ suf)%list →
  dict_get k (slaves self) = Some (run_stores pre s) →
  run self (map (HandlerStore k r) (seq (length pre) (length suf))) =
    (set_slaves self (dict_set k (run_stores (pre ++ suf) s) (slaves self)),
     replicate (length suf) (mkCommit Handler k r)).
Proof.
  induction suf as [|w suf IH]; intros pre self Hws Hg.
  - simpl. rewrite app_nil_r, (dict_set_same _ _ _ Hg). by destruct self.
  - simpl seq. simpl map. rewrite run_cons.
    assert (Hstep : step self (HandlerStore k r (length pre)) =
              (set_slaves self (dict_set k (run_stores (pre ++ [w]) s) (slaves self)),
               [mkCommit Handler k r])).
    { simpl. rewrite Hg, fetch_stores_run_stores, Hws.
      rewrite lookup_app_r by lia. rewrite Nat.sub_diag. simpl.
      unfold store_at. rewrite Hg. by rewrite run_stores_app. }
    rewrite Hstep. cbn [fst snd].
    specialize (IH (pre ++ [w])%list
                  (set_slaves self (dict_set k (run_stores (pre ++ [w]) s) (slaves self)))).
    rewrite length_app in IH. simpl in IH. rewrite Nat.add_1_r in IH.
    rewrite IH.
    + simpl. by rewrite dict_set_set, <- app_assoc.
    + by rewrite <- app_assoc.
    + apply dict_get_set_eq.
Qed.

Lemma run_handler_fetch self k s r :
  dict_get k (slaves self) = Some s →
  run self (handler_fetch_events k r) =
    (set_slaves self (dict_set k (fst (_fetch_slave_info s r)) (slaves self)),
     replicate (store_count r) (mkCommit Handler k r)).
Proof.
  intros Hg. unfold handler_fetch_events. rewrite <- (fetch_stores_count s r).
  pose proof (run_handler_stores k r s (fst (fetch_stores s r)) [] self eq_refl Hg) as Hrun.
  simpl in Hrun. rewrite Hrun. by rewrite fetch_as_stores.
Qed.

(** ** A fetch that no other fetch of the agent overlaps *)

Lemma quiet_step self ev k :
  stores_to self ev k = false →
  dict_get k (slaves (fst (step self ev))) = dict_get k (slaves self).
Proof.
  destruct ev as [r| | |slave_ip r|k' r|k' r i]; simpl.
  - unfold monitor_step.
    destruct (_monitor_thread self) as [[|[|k0 rest]|k0 [|w ws] [e|] rest| |]|]; simpl;
      try done.
    + by destruct (_running self).
    + by destruct (Z.ltb (refresh_interval (config self)) 0).
    + destruct (dict_get k0 (slaves self)) as [s|]; [|done]. by destruct (fetch_stores s r).
    + intros Hq. apply bool_decide_eq_false in Hq. by apply store_at_other.
    + intros Hq. apply bool_decide_eq_false in Hq. by apply store_at_other.
  - unfold start_monitoring. by destruct (is_alive (_monitor_thread self)).
  - done.
  - intros Hq. apply bool_decide_eq_false in Hq. unfold refresh_slave.
    destruct (dict_get (Some slave_ip) (slaves self)) as [s|]; [|done].
    destruct (_fetch_slave_info s r) as [s' [e|]]; simpl; by apply dict_get_set_ne.
  - intros Hq. apply bool_decide_eq_false in Hq. by apply fetch_at_other.
  - intros Hq. apply bool_decide_eq_false in Hq.
    destruct (dict_get k' (slaves self)) as [s|]; [|done].
    destruct (fst (fetch_stores s r) !! i) as [w|]; simpl; [|done]. by apply store_at_other.
Qed.

(** An event of a handler, or a stop, while the thread is alive: the
    thread stays where it is. *)
Lemma handler_step_thread self ev :
  match ev with MonitorStep _ => false | _ => true end = true →
  is_alive (_monitor_thread self) = true →
  _monitor_thread (fst (step self ev)) = _monitor_thread self.
Proof.
  intros Hev Hal. destruct ev as [r| | |slave_ip r|k' r|k' r i]; simpl; try done.
  - unfold start_monitoring. by rewrite Hal.
  - unfold refresh_slave. destruct (dict_get (Some slave_ip) (slaves self)) as [s|]; [|done].
    by destruct (_fetch_slave_info s r) as [s' [e|]].
  - destruct (dict_get k' (slaves self)) as [s|]; [|done].
    by destruct (fst (fetch_stores s r) !! i).
Qed.

Lemma own_steps_None sched : own_steps (None :: sched) = S (own_steps sched).
Proof. done. Qed.

Lemma own_steps_Some ev sched : own_steps (Some ev :: sched) = own_steps sched.
Proof. done. Qed.

Lemma weave_handler_fetch k r s : ∀ sched suf pre self,
  fst (fetch_stores s r) = (pre ++ suf)%list →
  dict_get k (slaves self) = Some (run_stores pre s) →
  own_steps sched = length suf →
  others_quiet k (HandlerStore k r) (length pre) self sched = true →
  dict_get k (slaves (fst (run self (weave (HandlerStore k r) (length pre) sched))))
  = Some (run_stores (pre ++ suf) s).
Proof.
  induction sched as [|[ev|] sched IH]; intros suf pre self Hws Hg Hown Hq.
  - destruct suf; [|done]. by rewrite app_nil_r.
  - cbn [others_quiet] in Hq. apply andb_prop in Hq as [Hev Hq]. apply negb_true_iff in Hev.
    simpl weave. rewrite run_cons. cbn [fst].
    apply IH; [done| |done|done]. by rewrite quiet_step.
  - destruct suf as [|w suf]; [done|]. rewrite own_steps_None in Hown. simpl in Hown.
    cbn [others_quiet] in Hq.
    simpl weave. rewrite run_cons. cbn [fst].
    assert (Hstep : fst (step self (HandlerStore k r (length pre))) =
              set_slaves self (dict_set k (run_stores (pre ++ [w]) s) (slaves self))).
    { simpl. rewrite Hg, fetch_stores_run_stores, Hws.
      rewrite lookup_app_r by lia. rewrite Nat.sub_diag. simpl.
      unfold store_at. rewrite Hg. by rewrite run_stores_app. }
    rewrite Hstep in Hq |- *.
    specialize (IH suf (pre ++ [w])%list
                  (set_slaves self (dict_set k (run_stores (pre ++ [w]) s) (slaves self)))).
    rewrite length_app, Nat.add_1_r in IH. rewrite <- app_assoc in IH. simpl in IH.
    apply IH; [done| |lia|done]. apply dict_get_set_eq.
Qed.

Lemma weave_others_only k own : ∀ sched i self,
  own_steps sched = 0%nat → handlers_only sched = true →
  others_quiet k own i self sched = true →
  is_alive (_monitor_thread self) = true →
  dict_get k (slaves (fst (run self (weave own i sched)))) = dict_get k (slaves self)
  ∧ _monitor_thread (fst (run self (weave own i sched))) = _monitor_thread self.
Proof.
  induction sched as [|[ev|] sched IH]; intros i self Hown Honly Hq Hal; [done| |done].
  cbn [others_quiet] in Hq. simpl in Honly. apply andb_prop in Hq as [Hev Hq]. apply negb_true_iff in Hev.
  apply andb_prop in Honly as [Hh Honly].
  simpl weave. rewrite run_cons. cbn [fst].
  assert (Hth : _monitor_thread (fst (step self ev)) = _monitor_thread self).
  { apply handler_step_thread; [by destruct ev|done]. }
  destruct (IH i (fst (step self ev))) as [Hg Ht]; [done|done|done|by rewrite Hth|].
  by rewrite Hg, Ht, Hth, quiet_step.
Qed.

Lemma weave_monitor_stores k r rest : ∀ sched ws s i self,
  _monitor_thread self = Some (InFetch k ws None rest) →
  dict_get k (slaves self) = Some s →
  own_steps sched = (length ws + 1)%nat → handlers_only sched = true →
  others_quiet k (fun _ => MonitorStep r) i self sched = true →
  dict_get k (slaves (fst (run self (weave (fun _ => MonitorStep r) i sched))))
  = Some (run_stores ws s)
  ∧ _monitor_thread (fst (run self (weave (fun _ => MonitorStep r) i sched)))
    = Some (InFor rest).
Proof.
  induction sched as [|[ev|] sched IH]; intros ws s i self Ht Hg Hown Honly Hq.
  - unfold own_steps in Hown. simpl in Hown. lia.
  - cbn [others_quiet] in Hq. simpl in Honly. apply andb_prop in Hq as [Hev Hq]. apply negb_true_iff in Hev.
    apply andb_prop in Honly as [Hh Honly].
    simpl weave. rewrite run_cons. cbn [fst].
    assert (Hth : _monitor_thread (fst (step self ev)) = _monitor_thread self).
    { apply handler_step_thread; [by destruct ev|by rewrite Ht]. }
    apply IH; [by rewrite Hth|by rewrite quiet_step|done|done|done].
  - rewrite own_steps_None in Hown. simpl in Honly. cbn [others_quiet] in Hq. simpl weave. rewrite run_cons. cbn [fst].
    destruct ws as [|w ws].
    + assert (Hstep : fst (step self (MonitorStep r)) = set_thread self (Some (InFor rest))).
      { simpl. unfold monitor_step. by rewrite Ht. }
      rewrite Hstep in Hq |- *. simpl in Hown.
      destruct (weave_others_only k (fun _ => MonitorStep r) sched (S i)
                  (set_thread self (Some (InFor rest)))) as [Hg' Ht'];
        [lia|done|done|done|].
      by rewrite Hg', Ht'.
    + assert (Hstep : fst (step self (MonitorStep r)) =
                set_thread (set_slaves self (store_at k [w] (slaves self)))
                           (Some (InFetch k ws None rest))).
      { simpl. unfold monitor_step. by rewrite Ht. }
      rewrite Hstep in Hq |- *. simpl in Hown.
      apply (IH ws (setattr s w)); [done| |lia|done|done].
      simpl. unfold store_at. rewrite Hg. simpl. apply dict_get_set_eq.
Qed.

Lemma weave_monitor_fetch k r rest s : ∀ sched i self,
  _monitor_thread self = Some (InFor (k :: rest)) →
  dict_get k (slaves self) = Some s →
  own_steps sched = (2 + store_count r)%nat → handlers_only sched = true →
  others_quiet k (fun _ => MonitorStep r) i self sched = true →
  dict_get k (slaves (fst (run self (weave (fun _ => MonitorStep r) i sched))))
  = Some (fst (_fetch_slave_info s r))
  ∧ _monitor_thread (fst (run self (weave (fun _ => MonitorStep r) i sched)))
    = Some (InFor rest).
Proof.
  induction sched as [|[ev|] sched IH]; intros i self Ht Hg Hown Honly Hq.
  - done.
  - cbn [others_quiet] in Hq. simpl in Honly. apply andb_prop in Hq as [Hev Hq]. apply negb_true_iff in Hev.
    apply andb_prop in Honly as [Hh Honly].
    simpl weave. rewrite run_cons. cbn [fst].
    assert (Hth : _monitor_thread (fst (step self ev)) = _monitor_thread self).
    { apply handler_step_thread; [by destruct ev|by rewrite Ht]. }
    apply IH; [by rewrite Hth|by rewrite quiet_step|done|done|done].
  - rewrite own_steps_None in Hown. simpl in Honly. cbn [others_quiet] in Hq. simpl weave. rewrite run_cons. cbn [fst].
    pose proof (fetch_stores_returns s r) as Hret.
    pose proof (fetch_stores_count s r) as Hcount.
    pose proof (fetch_as_stores s r) as Hfetch.
    assert (Hstep : fst (step self (MonitorStep r)) =
                set_thread self (Some (InFetch k (fst (fetch_stores s r)) None rest))).
    { simpl. unfold monitor_step. rewrite Ht, Hg.
      destruct (fetch_stores s r) as [ws raised]. simpl in Hret. by subst raised. }
    rewrite Hstep in Hq |- *.
    rewrite <- Hfetch.
    apply weave_monitor_stores; [done|done|lia|done|done].
Qed.

(** ** The outcome of a fetch *)

Lemma fetch_one_outcome slave r : one_outcome (fst (_fetch_slave_info slave r)).
Proof.
  destruct (fetch_outcome_state slave r) as [Hs|Hf].
  - left. split; [done|]. intros Hf. by apply (outcome_states_exclusive _ Hs Hf).
  - right. split; [done|]. intros Hs. by apply (outcome_states_exclusive _ Hs Hf).
Qed.

(** C1, as the code has it. After a completed call of
    [_fetch_slave_info] the record is in exactly one of two
    configurations: online with no error, or offline with an error;
    online never comes with an error. The record on the server is in that
    state when the fetch completes, whether the monitoring thread or a
    handler did the fetch, provided no other event stored to the record
    of that agent while the fetch ran; fetches of the other agents,
    readers, starts and stops may fall anywhere between its steps. The
    refresh routes run alone commit the same record. *)
Theorem fetch_commit_exclusive :
  (∀ slave r,
     let s' := fst (_fetch_slave_info slave r) in
     one_outcome s' ∧ ¬ (online s' = true ∧ is_Some (error s')))
  ∧ (∀ self k rest s r sched,
       _monitor_thread self = Some (InFor (k :: rest)) →
       dict_get k (slaves self) = Some s →
       own_steps sched = (2 + store_count r)%nat →
       handlers_only sched = true →
       others_quiet k (fun _ => MonitorStep r) 0 self sched = true →
       let self' := fst (run self (weave (fun _ => MonitorStep r) 0 sched)) in
       ∃ s', dict_get k (slaves self') = Some s'
             ∧ s' = fst (_fetch_slave_info s r) ∧ one_outcome s'
             ∧ _monitor_thread self' = Some (InFor rest))
  ∧ (∀ self k s r sched,
       dict_get k (slaves self) = Some s →
       own_steps sched = store_count r →
       others_quiet k (HandlerStore k r) 0 self sched = true →
       let self' := fst (run self (weave (HandlerStore k r) 0 sched)) in
       ∃ s', dict_get k (slaves self') = Some s'
             ∧ s' = fst (_fetch_slave_info s r) ∧ one_outcome s')
  ∧ (∀ self slave_ip s r,
       dict_get (Some slave_ip) (slaves self) = Some s →
       ∃ s', dict_get (Some slave_ip) (slaves (fst (refresh_slave self slave_ip r))) = Some s'
             ∧ s' = fst (_fetch_slave_info s r) ∧ one_outcome s')
  ∧ (∀ self net k s',
       dict_get k (slaves (fst (refresh_all self net))) = Some s' → one_outcome s').
Proof.
  split; [|split; [|split; [|split]]].
  - intros slave r s'. split; [apply fetch_one_outcome|].
    intros [Hon [e He]]. pose proof (fetch_consistent slave r Hon) as Hn.
    fold s' in Hn. congruence.
  - intros self k rest s r sched Ht Hg Hown Honly Hq self'.
    destruct (weave_monitor_fetch k r rest s sched 0%nat self Ht Hg Hown Honly Hq)
      as [Hg' Ht'].
    exists (fst (_fetch_slave_info s r)). split; [done|]. split; [done|].
    split; [apply fetch_one_outcome|done].
  - intros self k s r sched Hg Hown Hq self'.
    pose proof (weave_handler_fetch k r s sched (fst (fetch_stores s r)) [] self
                  eq_refl Hg) as Hw.
    rewrite fetch_stores_count in Hw. specialize (Hw Hown Hq).
    simpl in Hw. rewrite fetch_as_stores in Hw.
    exists (fst (_fetch_slave_info s r)). split; [done|]. split; [done|].
    apply fetch_one_outcome.
  - intros self slave_ip s r Hg. exists (fst (_fetch_slave_info s r)).
    split; [|split; [done|apply fetch_one_outcome]].
    unfold refresh_slave. rewrite Hg.
    destruct (_fetch_slave_info s r) as [s' [e|]]; simpl; apply dict_get_set_eq.
  - intros self net k s' Hg. unfold refresh_all in Hg.
    rewrite for_each_slave_spec in Hg. simpl in Hg.
    apply dict_get_elem in Hg. apply list_elem_of_fmap in Hg as ([k0 s0] & Heq & _).
    injection Heq as -> ->. apply fetch_one_outcome.
Qed.

(** The monitoring thread fetches the first agent of the default roster
    while a handler refreshes the second and a stop is requested: the
    record of the first agent is the outcome of its fetch. *)
Example monitor_fetch_among_handlers :
  ∃ s', dict_get (Some "192.168.217.180")
          (slaves (fst (run at_first_agent
                          (weave (fun _ => MonitorStep reply_ok) 0 around_monitor_fetch))))
        = Some s'
        ∧ online s' = true ∧ error s' = None ∧ last_seen s' = Some 104.
Proof. eexists. split; [reflexivity|]. by vm_compute. Qed.

(** C1, as the claim has it, fails. On the default roster the monitoring
    thread fetches the first agent, which times out; between the two
    stores of its [except] clause a handler refreshes the same agent,
    which now answers. Both fetches have completed, the thread is on its
    way to the next agent, and the record is online with the error of
    the timeout: neither of the two configurations. *)
Lemma overlapping_fetches_online_with_error :
  _monitor_thread (fst (run (MasterServer__init__ None) overlap_schedule))
  = Some (InFor [Some "192.168.217.190"; Some "192.168.217.200"])
  ∧ snd (run (MasterServer__init__ None) overlap_schedule)
    = [ mkCommit Monitor (Some "192.168.217.180") reply_timeout;
        mkCommit Handler (Some "192.168.217.180") reply_ok ]
  ∧ ∃ s, dict_get (Some "192.168.217.180")
           (slaves (fst (run (MasterServer__init__ None) overlap_schedule))) = Some s
         ∧ online s = true
         ∧ error s = Some "Connection timeout to Slave-1 (192.168.217.180:5001)"
         ∧ ¬ one_outcome s.
Proof.
  split; [reflexivity|]. split; [reflexivity|].
  eexists. split; [reflexivity|]. split; [reflexivity|]. split; [reflexivity|].
  intros [[[_ Hn] _]|[[Hoff _] _]]; simpl in *; congruence.
Qed.

(** C2. The commit of one fetch. On success the payload is the received
    body, the agent is online, [last_seen] is the clock reading and the
    error is cleared. On every failure (an exception of [requests.get], a
    status other than 200, a body that does not parse) the agent is
    offline, the error holds a message and the payload and [last_seen]
    keep their previous values. The identity of the agent never changes. *)
Theorem fetch_commit_fields (slave : SlaveInfo) (r : net_reply) :
  let s' := fst (_fetch_slave_info slave r) in
  match success_body r with
  | Some body =>
      data s' = body ∧ online s' = true ∧ last_seen s' = Some (clock r) ∧ error s' = None
  | None =>
      online s' = false ∧ is_Some (error s')
      ∧ data s' = data slave ∧ last_seen s' = last_seen slave
  end
  ∧ name s' = name slave ∧ ip s' = ip slave ∧ port s' = port slave.
Proof.
  intros s'. split; [|apply fetch_keeps_identity].
  subst s'. destruct (success_body r) as [body|] eqn:Hs.
  - by rewrite (fetch_on_success _ _ _ Hs).
  - destruct (fetch_on_failure slave r Hs) as [msg ->]. simpl. eauto.
Qed.

(** C3. [_fetch_slave_info] returns normally whatever the request does:
    no exception escapes it, and a failed request is recorded in the
    record of that agent alone: offline, with an error text, payload and
    [last_seen] kept. Hence the loop over the roster visits every agent
    and commits to each its own outcome, the monitoring thread commits
    the outcome and moves on to the next key after any fetch, both
    refresh routes return a response, and a fetch under one key leaves
    the records under the other keys as they were. *)
Theorem fetch_never_propagates :
  (∀ slave r, snd (_fetch_slave_info slave r) = None)
  ∧ (∀ slave r,
       let s' := fst (_fetch_slave_info slave r) in
       match success_body r with
       | None => online s' = false ∧ is_Some (error s')
                 ∧ data s' = data slave ∧ last_seen s' = last_seen slave
       | Some body => online s' = true ∧ error s' = None ∧ data s' = body
       end)
  ∧ (∀ net d,
       for_each_slave net d =
         (map (fun kv => (fst kv, fst (_fetch_slave_info (snd kv) (net (fst kv))))) d, None))
  ∧ (∀ self r k rest s,
       _monitor_thread self = Some (InFor (k :: rest)) →
       dict_get k (slaves self) = Some s →
       run self (fetch_events r) =
         (set_thread (set_slaves self (dict_set k (fst (_fetch_slave_info s r)) (slaves self)))
                     (Some (InFor rest)),
          [mkCommit Monitor k r]))
  ∧ (∀ self slave_ip r s,
       dict_get (Some slave_ip) (slaves self) = Some s →
       refresh_slave self slave_ip r =
         (set_slaves self (dict_set (Some slave_ip) (fst (_fetch_slave_info s r)) (slaves self)),
          Return (to_dict (fst (_fetch_slave_info s r)), 200)))
  ∧ (∀ self slave_ip r, ∃ resp, snd (refresh_slave self slave_ip r) = Return resp)
  ∧ (∀ self net, ∃ resp, snd (refresh_all self net) = Return resp)
  ∧ (∀ k k' r d, k ≠ k' → dict_get k' (fst (fetch_at k r d)) = dict_get k' d)
  ∧ (∀ k r d s, dict_get k d = Some s →
       dict_get k (fst (fetch_at k r d)) = Some (fst (_fetch_slave_info s r))).
Proof.
  split; [apply fetch_returns|]. split; [|split; [apply for_each_slave_spec|]].
  { intros slave r s'. subst s'. destruct (success_body r) as [body|] eqn:Hs.
    - by rewrite (fetch_on_success _ _ _ Hs).
    - destruct (fetch_on_failure slave r Hs) as [msg ->]. simpl. eauto. }
  split; [|split; [|split; [|split; [|split]]]].
  - intros self r k rest s Ht Hg. by apply run_monitor_fetch.
  - intros self slave_ip r s Hg. unfold refresh_slave. rewrite Hg.
    pose proof (fetch_returns s r) as Hr.
    destruct (_fetch_slave_info s r) as [s' x]. simpl in Hr. by subst x.
  - intros self slave_ip r. unfold refresh_slave.
    destruct (dict_get (Some slave_ip) (slaves self)) as [slave|]; [|eauto].
    pose proof (fetch_returns slave r) as Hr.
    destruct (_fetch_slave_info slave r) as [s' x]. simpl in Hr. subst x. eauto.
  - intros self net. unfold refresh_all. rewrite for_each_slave_spec. eauto.
  - intros k k' r d Hne. by apply fetch_at_other.
  - intros k r d s Hg. by apply fetch_at_get.
Qed.

(** C9. For an id that is not a key of the roster, [get_slave] and
    [refresh_slave] answer 404 with the not-found body; [refresh_slave]
    raises nothing, performs no fetch and leaves the server as it was. *)
Theorem unknown_id_not_found (self : MasterServer) (slave_ip : string) (r : net_reply) :
  dict_in (Some slave_ip) (slaves self) = false →
  get_slave self slave_ip = (VDict [(VStr "error", VStr "Slave not found")], 404)
  ∧ refresh_slave self slave_ip r =
      (self, Return (VDict [(VStr "error", VStr "Slave not found")], 404))
  ∧ step self (RefreshSlave slave_ip r) = (self, []).
Proof.
  unfold dict_in, get_slave, refresh_slave. simpl. unfold refresh_slave, dict_in.
  destruct (dict_get (Some slave_ip) (slaves self)) as [slave|]; [done|].
  done.
Qed.

Lemma unknown_id_not_found_witness :
  dict_in (Some "10.0.0.9") (slaves (MasterServer__init__ None)) = false
  ∧ get_slave (MasterServer__init__ None) "10.0.0.9"
      = (VDict [(VStr "error", VStr "Slave not found")], 404)
  ∧ refresh_slave (MasterServer__init__ None) "10.0.0.9" (mkReply (inl Timeout) 7)
      = (MasterServer__init__ None, Return (VDict [(VStr "error", VStr "Slave not found")], 404))
  ∧ step (MasterServer__init__ None) (RefreshSlave "10.0.0.9" (mkReply (inl Timeout) 7))
      = (MasterServer__init__ None, []).
Proof.
  split; [reflexivity|].
  apply (unknown_id_not_found (MasterServer__init__ None) "10.0.0.9" (mkReply (inl Timeout) 7)).
  reflexivity.
Defined.

(** ** The roster *)

Lemma init_fold_get port (l : list slave_config) acc (k : option string) :
  dict_get k
    (fold_left (fun slaves sc => dict_set (cfg_ip sc) (init_entry port sc) slaves) l acc) =
  match last (filter (fun sc => cfg_ip sc = k) l) with
  | Some sc => Some (init_entry port sc)
  | None => dict_get k acc
  end.
Proof.
  revert acc. induction l as [|sc l IH]; intros acc; simpl; [done|].
  rewrite IH. rewrite filter_cons. destruct (decide (cfg_ip sc = k)) as [Hk|Hk].
  - destruct (filter (fun sc0 => cfg_ip sc0 = k) l) as [|sc' l'] eqn:Hf; simpl.
    + rewrite <- Hk. apply dict_get_set_eq.
    + destruct (last (sc' :: l')) eqn:Hl; [done|].
      by apply last_None in Hl.
  - destruct (last (filter (fun sc0 => cfg_ip sc0 = k) l)); [done|].
    by apply dict_get_set_ne.
Qed.

Lemma init_fold_NoDup port (l : list slave_config) acc :
  NoDup (dict_keys acc) →
  NoDup (dict_keys
    (fold_left (fun slaves sc => dict_set (cfg_ip sc) (init_entry port sc) slaves) l acc)).
Proof.
  revert acc. induction l as [|sc l IH]; intros acc Hnd; simpl; [done|].
  apply IH. by apply dict_keys_set_NoDup.
Qed.

Lemma init_slaves_NoDup cfg : NoDup (dict_keys (_init_slaves cfg)).
Proof. apply init_fold_NoDup. apply NoDup_nil_2. Qed.

Lemma run_roster_ok file evs : roster_ok (fst (run (MasterServer__init__ file) evs)).
Proof. unfold roster_ok. rewrite run_keys. apply init_slaves_NoDup. Qed.

(** C10. The roster is keyed by [ip]. Under each key stands the fresh
    record of the last configuration entry with that [ip], and under no
    other key stands anything: the record has the name of that entry (the
    [ip] itself when the entry has no name), the key as its [ip], the
    port of that entry (the default [slave_port] when the entry has
    none), and is offline with no payload, no [last_seen] and no error.
    No key occurs twice, every configured [ip] is a key whatever its
    name, and the record under a key carries that key as its [ip]; so two
    entries that share a name and differ in [ip] both stay. *)
Theorem roster_keyed_by_ip (cfg : Config) :
  (∀ k, dict_get k (_init_slaves cfg) =
          init_entry (slave_port cfg) <$> last (filter (fun sc => cfg_ip sc = k) (slaves_cfg cfg)))
  ∧ (∀ k, match last (filter (fun sc => cfg_ip sc = k) (slaves_cfg cfg)) with
          | Some sc =>
              ∃ s, dict_get k (_init_slaves cfg) = Some s
                   ∧ name s = match cfg_name sc with Some n => Some n | None => k end
                   ∧ ip s = k
                   ∧ port s = match cfg_port sc with Some p => p | None => slave_port cfg end
                   ∧ online s = false ∧ last_seen s = None
                   ∧ data s = VNone ∧ error s = None
          | None => dict_get k (_init_slaves cfg) = None
          end)
  ∧ NoDup (dict_keys (_init_slaves cfg))
  ∧ (∀ sc, sc ∈ slaves_cfg cfg →
       ∃ s, dict_get (cfg_ip sc) (_init_slaves cfg) = Some s ∧ ip s = cfg_ip sc)
  ∧ (∀ sc1 sc2, sc1 ∈ slaves_cfg cfg → sc2 ∈ slaves_cfg cfg →
       cfg_name sc1 = cfg_name sc2 → cfg_ip sc1 ≠ cfg_ip sc2 →
       ∃ s1 s2, dict_get (cfg_ip sc1) (_init_slaves cfg) = Some s1
                ∧ dict_get (cfg_ip sc2) (_init_slaves cfg) = Some s2
                ∧ ip s1 = cfg_ip sc1 ∧ ip s2 = cfg_ip sc2).
Proof.
  assert (Hget : ∀ k, dict_get k (_init_slaves cfg) =
            init_entry (slave_port cfg) <$> last (filter (fun sc => cfg_ip sc = k) (slaves_cfg cfg))).
  { intros k. unfold _init_slaves. rewrite init_fold_get.
    by destruct (last (filter (fun sc => cfg_ip sc = k) (slaves_cfg cfg))). }
  assert (Hin : ∀ sc, sc ∈ slaves_cfg cfg →
            ∃ s, dict_get (cfg_ip sc) (_init_slaves cfg) = Some s ∧ ip s = cfg_ip sc).
  { intros sc Hsc. rewrite Hget.
    assert (Hf : sc ∈ filter (fun sc0 => cfg_ip sc0 = cfg_ip sc) (slaves_cfg cfg)).
    { apply list_elem_of_filter. by split. }
    destruct (last (filter (fun sc0 => cfg_ip sc0 = cfg_ip sc) (slaves_cfg cfg)))
      as [sc'|] eqn:Hl.
    - assert (Hsc' : sc' ∈ filter (fun sc0 => cfg_ip sc0 = cfg_ip sc) (slaves_cfg cfg)).
      { apply last_Some in Hl as [l' Hl]. rewrite Hl. apply elem_of_app. right.
        apply list_elem_of_here. }
      apply list_elem_of_filter in Hsc' as [Hip _].
      exists (init_entry (slave_port cfg) sc'). split; [done|]. exact Hip.
    - apply last_None in Hl. rewrite Hl in Hf. by apply elem_of_nil in Hf. }
  split; [exact Hget|]. split.
  { intros k. rewrite Hget.
    destruct (last (filter (fun sc => cfg_ip sc = k) (slaves_cfg cfg))) as [sc|] eqn:Hl;
      [|done].
    assert (Hip : cfg_ip sc = k).
    { apply last_Some in Hl as [l' Hl].
      assert (Hsc : sc ∈ filter (fun sc0 => cfg_ip sc0 = k) (slaves_cfg cfg)).
      { rewrite Hl. apply elem_of_app. right. apply list_elem_of_here. }
      by apply list_elem_of_filter in Hsc as [Hip _]. }
    exists (init_entry (slave_port cfg) sc). split; [done|].
    unfold init_entry. simpl. rewrite Hip.
    by destruct (cfg_name sc), (cfg_port sc). }
  split; [apply init_slaves_NoDup|]. split; [exact Hin|].
  intros sc1 sc2 H1 H2 _ _.
  destruct (Hin sc1 H1) as [s1 [Hg1 Hi1]]. destruct (Hin sc2 H2) as [s2 [Hg2 Hi2]].
  exists s1, s2. eauto.
Qed.

(** Two entries with one [ip]: the later one stays, at the place of the
    first. Two entries with one name and two [ip]s: both stay. *)
Example roster_last_wins :
  _init_slaves
    {| slaves_cfg :=
         [ {| cfg_name := Some "a"; cfg_ip := Some "10.0.0.1"; cfg_port := None |};
           {| cfg_name := Some "a"; cfg_ip := Some "10.0.0.2"; cfg_port := None |};
           {| cfg_name := Some "b"; cfg_ip := Some "10.0.0.1"; cfg_port := Some 6000 |} ];
       slave_port := 5001; refresh_interval := 5; request_timeout := None |}
  = [ (Some "10.0.0.1", SlaveInfo__init__ (Some "b") (Some "10.0.0.1") 6000);
      (Some "10.0.0.2", SlaveInfo__init__ (Some "a") (Some "10.0.0.2") 5001) ].
Proof. reflexivity. Qed.

(** ** Reading the roster *)

Lemma snapshot_fold (d : list (option string * SlaveInfo)) (acc : list (option string * pyval)) :
  NoDup (dict_keys d) →
  (∀ k, k ∈ dict_keys d → dict_get k acc = None) →
  fold_left (fun result kv => dict_set (fst kv) (to_dict (snd kv)) result) d acc
  = (acc ++ map (fun kv => (fst kv, to_dict (snd kv))) d)%list.
Proof.
  revert acc. induction d as [|[k s] d IH]; intros acc Hnd Hfresh; simpl.
  - by rewrite app_nil_r.
  - apply NoDup_cons in Hnd as [Hk Hnd].
    rewrite dict_set_absent by (apply Hfresh; apply list_elem_of_here).
    rewrite IH; [by rewrite <- app_assoc|done|].
    intros k' Hk'. rewrite dict_get_app_None by (apply Hfresh; by apply list_elem_of_further).
    simpl. rewrite decide_False; [done|]. intros ->. by apply Hk.
Qed.

Lemma existsb_map_fst {V W : Type} (p : option string → bool) (f : option string * V → W)
    (d : list (option string * V)) :
  existsb (fun kv => p (fst kv)) (map (fun kv => (fst kv, f kv)) d)
  = existsb (fun kv => p (fst kv)) d.
Proof. induction d as [|kv d IH]; simpl; [done|]. by rewrite IH. Qed.

Lemma mixed_keys_map {V W : Type} (f : option string * V → W) (d : list (option string * V)) :
  mixed_keys (map (fun kv => (fst kv, f kv)) d) = mixed_keys d.
Proof.
  unfold mixed_keys.
  rewrite (existsb_map_fst (fun k => match k with None => true | Some _ => false end)).
  by rewrite (existsb_map_fst (fun k => match k with None => false | Some _ => true end)).
Qed.

Lemma get_slaves_entries self :
  roster_ok self →
  get_slaves self =
    if mixed_keys (slaves self) then Raise unorderable_keys
    else Return (VDict (map (fun kv => (VStr (json_key (fst kv)), to_dict (snd kv)))
                            (slaves self)), 200).
Proof.
  intros Hok. unfold get_slaves, dict_items, jsonify_dict.
  rewrite snapshot_fold; [|exact Hok|done]. simpl.
  rewrite (mixed_keys_map (fun kv => to_dict (snd kv))).
  destruct (mixed_keys (slaves self)); [done|]. by rewrite map_map.
Qed.



Lemma sum_of_ones {A : Type} (l : list A) :
  fold_right Z.add 0 (map (fun _ => 1) l) = Z.of_nat (length l).
Proof. induction l as [|x l IH]; simpl length; simpl fold_right; [done|]. rewrite IH. lia. Qed.




(** ** Agents never reached *)

Lemma failed_fetch_never_reached s r :
  success_body r = None → never_reached s → never_reached (fst (_fetch_slave_info s r)).
Proof.
  intros Hs [Ho Hd]. destruct (fetch_on_failure s r Hs) as [msg ->]. by split.
Qed.

Lemma init_never_reached cfg k s : dict_get k (_init_slaves cfg) = Some s → never_reached s.
Proof.
  unfold _init_slaves. rewrite init_fold_get.
  destruct (last (filter (fun sc => cfg_ip sc = k) (slaves_cfg cfg))); [|done].
  by intros [= <-].
Qed.

Lemma step_never_reached self ev k :
  unreached_at k self →
  Forall (fun c => at_key c = k → success_body (with_reply c) = None) (snd (step self ev)) →
  unreached_at k (fst (step self ev)).
Proof.
  intros [(s & Hg & Hn) Hpend] Hall. unfold unreached_at.
  destruct ev as [r| | |slave_ip r|k' r|k' r i]; simpl in *.
  - unfold monitor_step in *.
    destruct (_monitor_thread self) as [[|[|k0 rest]|k0 [|w ws] [e|] rest| |]|] eqn:Ht;
      simpl in *; try (split; [by eauto|rewrite ?Ht; by constructor]).
    + destruct (_running self); simpl; (split; [by eauto|by constructor]).
    + destruct (Z.ltb (refresh_interval (config self)) 0); simpl;
        (split; [by eauto|by constructor]).
    + destruct (dict_get k0 (slaves self)) as [s0|] eqn:Hg0;
        [|simpl; split; [by eauto|by constructor]].
      destruct (fetch_stores s0 r) as [ws raised] eqn:Hfs. simpl in *.
      split; [by eauto|].
      destruct (decide (k0 = k)) as [->|Hne]; [|by constructor].
      apply Forall_cons in Hall as [Hfail _]. specialize (Hfail eq_refl).
      pose proof (failing_stores_harmless s0 r Hfail) as Hh. by rewrite Hfs in Hh.
    + destruct (decide (k0 = k)) as [->|Hne].
      * apply Forall_cons in Hpend as [Hw Hws]. split; [|done].
        exists (setattr s w). split; [|by apply harmless_never_reached].
        unfold store_at. rewrite Hg. simpl. apply dict_get_set_eq.
      * split; [|by constructor]. exists s. by rewrite store_at_other.
    + destruct (decide (k0 = k)) as [->|Hne].
      * apply Forall_cons in Hpend as [Hw Hws]. split; [|done].
        exists (setattr s w). split; [|by apply harmless_never_reached].
        unfold store_at. rewrite Hg. simpl. apply dict_get_set_eq.
      * split; [|by constructor]. exists s. by rewrite store_at_other.
  - unfold start_monitoring. destruct (is_alive (_monitor_thread self)); simpl;
      (split; [by eauto|done || by constructor]).
  - split; [by eauto|done].
  - split.
    + unfold refresh_slave, dict_in in *.
      destruct (decide (Some slave_ip = k)) as [<-|Hne].
      * rewrite Hg in *. apply Forall_cons in Hall as [Hfail _]. specialize (Hfail eq_refl).
        simpl in Hfail. exists (fst (_fetch_slave_info s r)).
        split; [|by apply failed_fetch_never_reached].
        destruct (_fetch_slave_info s r) as [s' [e|]]; simpl; apply dict_get_set_eq.
      * exists s. split; [|done].
        destruct (dict_get (Some slave_ip) (slaves self)) as [s0|]; [|done].
        destruct (_fetch_slave_info s0 r) as [s' [e|]]; simpl; by rewrite dict_get_set_ne.
    + unfold refresh_slave.
      destruct (dict_get (Some slave_ip) (slaves self)) as [s0|]; [|done].
      by destruct (_fetch_slave_info s0 r) as [s' [e|]].
  - split; [|done]. unfold dict_in in *.
    destruct (decide (k' = k)) as [->|Hne].
    + rewrite Hg in *. apply Forall_cons in Hall as [Hfail _]. specialize (Hfail eq_refl).
      simpl in Hfail. exists (fst (_fetch_slave_info s r)).
      split; [by apply fetch_at_get|by apply failed_fetch_never_reached].
    + exists s. by rewrite fetch_at_other.
  - destruct (dict_get k' (slaves self)) as [s0|] eqn:Hg0; [|by split; eauto].
    destruct (fst (fetch_stores s0 r) !! i) as [w|] eqn:Hw; simpl in *; [|by split; eauto].
    split; [|done].
    destruct (decide (k' = k)) as [->|Hne].
    + apply Forall_cons in Hall as [Hfail _]. specialize (Hfail eq_refl). simpl in Hfail.
      assert (s0 = s) as -> by congruence.
      pose proof (failing_stores_harmless s r Hfail) as Hh.
      rewrite Forall_forall in Hh. apply list_elem_of_lookup_2 in Hw.
      exists (setattr s w). split; [|apply harmless_never_reached; auto].
      unfold store_at. rewrite Hg. simpl. apply dict_get_set_eq.
    + exists s. by rewrite store_at_other.
Qed.

Lemma run_never_reached evs : ∀ self k,
  unreached_at k self →
  Forall (fun c => at_key c = k → success_body (with_reply c) = None) (snd (run self evs)) →
  unreached_at k (fst (run self evs)).
Proof.
  induction evs as [|ev evs IH]; intros self k Hu Hall; [done|].
  rewrite run_cons in Hall |- *. simpl in Hall |- *.
  apply Forall_app in Hall as [Hnow Hlater].
  apply IH; [|done]. by apply step_never_reached.
Qed.

(** C7. An agent of the roster that no fetch has reached with success:
    from the server's construction, under any schedule in which every
    fetch of that agent fails, [get_slave] answers 200 with ["online"]
    false and ["data"] [None]. *)
Theorem never_reached_snapshot (file : option user_config) (evs : list event)
    (slave_ip : string) :
  dict_in (Some slave_ip) (slaves (MasterServer__init__ file)) = true →
  Forall (fun c => at_key c = Some slave_ip → success_body (with_reply c) = None)
         (snd (run (MasterServer__init__ file) evs)) →
  ∃ d, get_slave (fst (run (MasterServer__init__ file) evs)) slave_ip = (d, 200)
       ∧ vdict_get "online" d = Some (VBool false)
       ∧ vdict_get "data" d = Some VNone.
Proof.
  intros Hin Hall. unfold dict_in in Hin.
  destruct (dict_get (Some slave_ip) (slaves (MasterServer__init__ file))) as [s|] eqn:Hg;
    [|done].
  destruct (run_never_reached evs (MasterServer__init__ file) (Some slave_ip))
    as [(s' & Hg' & Ho & Hd) _]; [|done|].
  { split; [|by constructor]. exists s. split; [done|]. by apply (init_never_reached _ _ _ Hg). }
  exists (to_dict s'). unfold get_slave. rewrite Hg'. simpl. by rewrite Ho, Hd.
Qed.

Lemma never_reached_snapshot_witness :
  dict_in (Some "192.168.217.180") (slaves (MasterServer__init__ None)) = true
  ∧ Forall (fun c => at_key c = Some "192.168.217.180" → success_body (with_reply c) = None)
           (snd (run (MasterServer__init__ None) sample_schedule))
  ∧ ∃ d, get_slave (fst (run (MasterServer__init__ None) sample_schedule)) "192.168.217.180"
           = (d, 200)
         ∧ vdict_get "online" d = Some (VBool false)
         ∧ vdict_get "data" d = Some VNone.
Proof.
  assert (Hall : Forall (fun c => at_key c = Some "192.168.217.180" →
                                  success_body (with_reply c) = None)
                   (snd (run (MasterServer__init__ None) sample_schedule))).
  { vm_compute. repeat constructor; intros; discriminate. }
  split; [reflexivity|]. split; [exact Hall|].
  apply (never_reached_snapshot None sample_schedule "192.168.217.180"); [reflexivity|exact Hall].
Defined.

(** ** The monitoring thread *)

Lemma monitor_keys_app cs cs' :
  monitor_keys (cs ++ cs')%list = (monitor_keys cs ++ monitor_keys cs')%list.
Proof. unfold monitor_keys. by rewrite List.filter_app, map_app. Qed.

Lemma dict_in_keys (k : option string) (d : list (option string * SlaveInfo)) :
  k ∈ dict_keys d → dict_in k d = true.
Proof. apply dict_in_true. Qed.

Lemma dict_get_keys (k : option string) (d : list (option string * SlaveInfo)) :
  k ∈ dict_keys d → ∃ s, dict_get k d = Some s.
Proof.
  intros Hk. apply dict_in_true in Hk. unfold dict_in in Hk.
  destruct (dict_get k d) as [s|]; [by exists s|done].
Qed.

Lemma step_thread_ok self ev : thread_ok self → thread_ok (fst (step self ev)).
Proof.
  unfold thread_ok. intros [Hok Hin]. rewrite step_keys.
  destruct ev as [r| | |slave_ip r|k r|k r i]; simpl.
  - unfold monitor_step.
    destruct (_monitor_thread self) as [[|[|k rest]|k [|w ws] [e|] rest| |]|] eqn:Ht;
      simpl in *; rewrite ?Ht; simpl; try done.
    + destruct (_running self); simpl; [|done]. split; [|done]. by apply Forall_forall.
    + by destruct (Z.ltb (refresh_interval (config self)) 0).
    + apply Forall_cons in Hok as [Hk Hrest].
      destruct (dict_get k (slaves self)) as [s|] eqn:Hg; [|done].
      pose proof (fetch_stores_returns s r) as Hr.
      destruct (fetch_stores s r) as [ws x]. simpl in Hr. subst x. simpl.
      split; [done|]. split; [done|]. by apply (dict_get_Some_keys _ s).
  - unfold start_monitoring. destruct (is_alive (_monitor_thread self)); [done|].
    simpl. done.
  - done.
  - unfold refresh_slave. destruct (dict_get (Some slave_ip) (slaves self)) as [slave|]; [|done].
    by destruct (_fetch_slave_info slave r) as [s' [e|]].
  - done.
  - destruct (dict_get k (slaves self)) as [s|]; [|done].
    by destruct (fst (fetch_stores s r) !! i).
Qed.

Lemma run_thread_ok_from evs : ∀ self, thread_ok self → thread_ok (fst (run self evs)).
Proof.
  induction evs as [|ev evs IH]; intros self Hok; [done|].
  rewrite run_cons. simpl. by apply IH, step_thread_ok.
Qed.

Lemma run_thread_ok file evs : thread_ok (fst (run (MasterServer__init__ file) evs)).
Proof. apply run_thread_ok_from. unfold thread_ok. simpl. done. Qed.

(** One event while the run flag is down and nobody calls
    [start_monitoring]: the flag stays down, the monitoring thread
    requests exactly the keys that leave its list, and each of its steps
    brings it nearer to its return. *)
Lemma stopped_step self ev :
  _running self = false → thread_ok self → is_start ev = false →
  _running (fst (step self ev)) = false
  ∧ remaining_keys (_monitor_thread self) =
      (monitor_keys (snd (step self ev))
         ++ remaining_keys (_monitor_thread (fst (step self ev))))%list
  ∧ (steps_bound (_monitor_thread (fst (step self ev))) ≤
      steps_bound (_monitor_thread self) - (if is_monitor_step ev then 1 else 0))%nat.
Proof.
  intros Hrun Hok Hns. unfold thread_ok in Hok. destruct Hok as [Hok Hin].
  destruct ev as [r| | |slave_ip r|k r|k r i]; simpl in *; try done.
  - unfold monitor_step.
    destruct (_monitor_thread self) as [[|[|k rest]|k [|w ws] [e|] rest| |]|] eqn:Ht;
      simpl in *; rewrite ?Hrun, ?Ht; simpl; try done;
      try (by destruct Hin); try (split; [done|]; split; [done|]; lia).
    + destruct (Z.ltb (refresh_interval (config self)) 0); simpl;
        (split; [done|]; split; [done|]; lia).
    + apply Forall_cons in Hok as [Hk _].
      destruct (dict_get_keys _ _ Hk) as [s Hg]. rewrite Hg.
      pose proof (fetch_stores_count s r) as Hc. unfold store_count in Hc.
      destruct (fetch_stores s r) as [ws x]. simpl in *.
      split; [done|]. split; [done|]. destruct (is_success r); lia.
  - split; [done|]. split; [done|]. lia.
  - unfold refresh_slave.
    destruct (dict_get (Some slave_ip) (slaves self)) as [slave|] eqn:Hg.
    + unfold dict_in. rewrite Hg.
      destruct (_fetch_slave_info slave r) as [s' [e|]]; simpl;
        (split; [done|]; split; [done|]; lia).
    + unfold dict_in. rewrite Hg. simpl. split; [done|]. split; [done|]. lia.
  - split; [done|]. split; [by destruct (dict_in k (slaves self))|]. lia.
  - destruct (dict_get k (slaves self)) as [s|]; [|simpl; split; [done|]; split; [done|]; lia].
    destruct (fst (fetch_stores s r) !! i); simpl; (split; [done|]; split; [done|]; lia).
Qed.

Lemma stopped_run evs : ∀ self,
  _running self = false → thread_ok self → Forall (fun ev => is_start ev = false) evs →
  _running (fst (run self evs)) = false
  ∧ remaining_keys (_monitor_thread self) =
    (monitor_keys (snd (run self evs))
       ++ remaining_keys (_monitor_thread (fst (run self evs))))%list
  ∧ (steps_bound (_monitor_thread (fst (run self evs))) ≤
      steps_bound (_monitor_thread self) - monitor_steps evs)%nat.
Proof.
  induction evs as [|ev evs IH]; intros self Hrun Hok Hns.
  - simpl. split; [done|]. split; [done|]. unfold monitor_steps. simpl. lia.
  - apply Forall_cons in Hns as [Hev Hns].
    destruct (stopped_step self ev Hrun Hok Hev) as [Hrun' [Hkeys Hsteps]].
    destruct (IH (fst (step self ev)) Hrun' (step_thread_ok _ _ Hok) Hns)
      as [Hrun'' [Hkeys' Hsteps']].
    rewrite run_cons. simpl. split; [done|]. split.
    + rewrite monitor_keys_app, <- app_assoc, <- Hkeys'. exact Hkeys.
    + revert Hsteps' Hsteps. unfold monitor_steps. simpl.
      destruct (is_monitor_step ev); simpl; lia.
Qed.

Lemma exited_thread t : steps_bound t = 0%nat → remaining_keys t = [] ∧ is_alive t = false.
Proof. destruct t as [[|rest|k ws raised rest| |]|]; simpl; try done; lia. Qed.

(** A thread that has returned, or was never started, does nothing. *)
Lemma returned_step self r :
  is_alive (_monitor_thread self) = false → step self (MonitorStep r) = (self, []).
Proof.
  simpl. unfold monitor_step.
  by destruct (_monitor_thread self) as [[|[|k rest]|k [|w ws] [e|] rest| |]|].
Qed.

Lemma returned_run self r n :
  is_alive (_monitor_thread self) = false → run self (replicate n (MonitorStep r)) = (self, []).
Proof.
  intros Hdead. induction n as [|n IH]; [done|].
  change (replicate (S n) (MonitorStep r)) with (MonitorStep r :: replicate n (MonitorStep r)).
  rewrite run_cons, (returned_step _ _ Hdead). cbn [fst snd]. by rewrite IH.
Qed.

(** The pass of the monitoring thread over the keys it has left, with
    nothing scheduled in between: each agent is fetched once, in order. *)
Lemma run_pass net : ∀ rest self,
  _monitor_thread self = Some (InFor rest) →
  Forall (fun k => k ∈ dict_keys (slaves self)) rest →
  run self (pass_events net rest) =
    (set_thread (set_slaves self
                   (fold_left (fun d k => fst (fetch_at k (net k) d)) rest (slaves self)))
                (Some (InFor [])),
     map (fun k => mkCommit Monitor k (net k)) rest).
Proof.
  induction rest as [|k rest IH]; intros self Ht Hin.
  - simpl. rewrite <- Ht. by destruct self.
  - apply Forall_cons in Hin as [Hk Hin].
    destruct (dict_get_keys _ _ Hk) as [s Hg].
    unfold pass_events. cbn [map concat]. fold (pass_events net rest).
    rewrite run_app, (run_monitor_fetch self k rest s (net k) Ht Hg). cbn [fst snd].
    assert (Hfa : fst (fetch_at k (net k) (slaves self))
                  = dict_set k (fst (_fetch_slave_info s (net k))) (slaves self)).
    { unfold fetch_at. rewrite Hg. by destruct (_fetch_slave_info s (net k)). }
    rewrite IH; [|done|].
    + simpl. by rewrite Hfa.
    + simpl. rewrite <- Hfa, fetch_at_keys. done.
Qed.

(** With the flag down the thread, left alone, leaves the [for], sleeps
    if the interval allows, tests the flag and returns. *)
Lemma run_exit self r extra :
  _running self = false → _monitor_thread self = Some (InFor []) →
  run self (replicate (3 + extra) (MonitorStep r)) = (set_thread self (Some Returned), []).
Proof.
  intros Hrun Ht.
  change (replicate (3 + extra) (MonitorStep r))
    with (MonitorStep r :: replicate (2 + extra) (MonitorStep r)).
  destruct (Z.ltb (refresh_interval (config self)) 0) eqn:Hneg.
  - assert (H1 : step self (MonitorStep r) = (set_thread self (Some Returned), [])).
    { simpl. unfold monitor_step. by rewrite Ht, Hneg. }
    rewrite run_cons, H1. cbn [fst snd]. by rewrite returned_run.
  - assert (H1 : step self (MonitorStep r) = (set_thread self (Some InSleep), [])).
    { simpl. unfold monitor_step. by rewrite Ht, Hneg. }
    assert (H2 : step (set_thread self (Some InSleep)) (MonitorStep r)
                 = (set_thread self (Some AtWhile), [])) by done.
    assert (H3 : step (set_thread self (Some AtWhile)) (MonitorStep r)
                 = (set_thread self (Some Returned), [])).
    { simpl. unfold monitor_step. simpl. by rewrite Hrun. }
    rewrite run_cons, H1. cbn [fst snd].
    change (replicate (2 + extra) (MonitorStep r))
      with (MonitorStep r :: MonitorStep r :: replicate extra (MonitorStep r)).
    rewrite run_cons, H2. cbn [fst snd]. rewrite run_cons, H3. cbn [fst snd].
    by rewrite returned_run.
Qed.

(** After a stop the monitoring thread, left alone, completes the
    commit it is in, fetches the keys that remain in its pass, and
    returns: nothing else is stored and nothing else is fetched. *)
Lemma stopped_alone self net r extra :
  _running self = false → thread_ok self →
  let alone := run self (finish_events (_monitor_thread self) r
                          ++ pass_events net (remaining_keys (_monitor_thread self))
                          ++ replicate (3 + extra) (MonitorStep r))%list in
  slaves (fst alone) =
    fold_left (fun d k => fst (fetch_at k (net k) d)) (remaining_keys (_monitor_thread self))
              (after_pending (_monitor_thread self) (slaves self))
  ∧ snd alone = map (fun k => mkCommit Monitor k (net k)) (remaining_keys (_monitor_thread self))
  ∧ is_alive (_monitor_thread (fst alone)) = false
  ∧ config (fst alone) = config self ∧ _running (fst alone) = false.
Proof.
  intros Hrun [Hok Hin].
  destruct (_monitor_thread self) as [[|rest|k ws raised rest| |]|] eqn:Ht;
    cbn [finish_events remaining_keys after_pending] in *.
  - change ([] ++ pass_events net [] ++ replicate (3 + extra) (MonitorStep r))%list
      with (MonitorStep r :: replicate (2 + extra) (MonitorStep r)).
    assert (H1 : step self (MonitorStep r) = (set_thread self (Some Returned), [])).
    { simpl. unfold monitor_step. by rewrite Ht, Hrun. }
    rewrite run_cons, H1. cbn [fst snd]. by rewrite returned_run.
  - change ([] ++ pass_events net rest ++ replicate (3 + extra) (MonitorStep r))%list
      with (pass_events net rest ++ replicate (3 + extra) (MonitorStep r))%list.
    rewrite run_app, (run_pass net rest self Ht Hok). cbn [fst snd].
    rewrite (run_exit _ r extra) by done. simpl. by rewrite app_nil_r.
  - destruct Hin as [-> Hk]. destruct (dict_get_keys _ _ Hk) as [s Hg].
    rewrite run_app, (run_pending r ws self k rest s Ht Hg). cbn [fst snd].
    rewrite run_app, (run_pass net rest)
      by (simpl; by rewrite ?(dict_keys_set_present _ _ _ _ Hg)).
    cbn [fst snd]. rewrite (run_exit _ r extra) by done. simpl.
    unfold store_at. rewrite Hg. by rewrite app_nil_r.
  - change ([] ++ pass_events net [] ++ replicate (3 + extra) (MonitorStep r))%list
      with (MonitorStep r :: MonitorStep r :: replicate (1 + extra) (MonitorStep r)).
    assert (H1 : step self (MonitorStep r) = (set_thread self (Some AtWhile), [])).
    { simpl. unfold monitor_step. by rewrite Ht. }
    assert (H2 : step (set_thread self (Some AtWhile)) (MonitorStep r)
                 = (set_thread self (Some Returned), [])).
    { simpl. unfold monitor_step. simpl. by rewrite Hrun. }
    rewrite run_cons, H1. cbn [fst snd]. rewrite run_cons, H2. cbn [fst snd].
    by rewrite returned_run.
  - change ([] ++ pass_events net [] ++ replicate (3 + extra) (MonitorStep r))%list
      with (replicate (3 + extra) (MonitorStep r)).
    rewrite returned_run by (by rewrite Ht). simpl. by rewrite Ht.
  - change ([] ++ pass_events net [] ++ replicate (3 + extra) (MonitorStep r))%list
      with (replicate (3 + extra) (MonitorStep r)).
    rewrite returned_run by (by rewrite Ht). simpl. by rewrite Ht.
Qed.

(** C8. A stop requested at any point of the server's life, with no call
    of [start_monitoring] after it. [stop_monitoring] itself touches only
    the run flag: the roster and the monitoring thread are as before, so
    a commit the thread is in is not interrupted. Under every later
    schedule the requests of the monitoring thread are the keys that
    remained in its current pass, in order, up to where the schedule lets
    it come; once the thread has had its steps (at most six for a fetch
    and three to leave) it has requested exactly these keys and has
    returned, and a thread that has returned does nothing. Left alone
    after the stop, the thread performs the stores pending in its current
    fetch, fetches each remaining key once, and returns: the roster is
    the one these fetches leave and nothing of a next pass is fetched or
    stored. *)
Theorem stop_ends_after_current_pass (file : option user_config) (evs0 evs : list event) :
  Forall (fun ev => is_start ev = false) evs →
  let self := fst (run (MasterServer__init__ file) evs0) in
  let res := run (stop_monitoring self) evs in
  slaves (stop_monitoring self) = slaves self
  ∧ _monitor_thread (stop_monitoring self) = _monitor_thread self
  ∧ remaining_keys (_monitor_thread self) =
      (monitor_keys (snd res) ++ remaining_keys (_monitor_thread (fst res)))%list
  ∧ ((steps_bound (_monitor_thread self) ≤ monitor_steps evs)%nat →
       monitor_keys (snd res) = remaining_keys (_monitor_thread self)
       ∧ is_alive (_monitor_thread (fst res)) = false)
  ∧ (is_alive (_monitor_thread (fst res)) = false →
       ∀ r, step (fst res) (MonitorStep r) = (fst res, []))
  ∧ (∀ net r extra,
       let alone := run (stop_monitoring self)
                        (finish_events (_monitor_thread self) r
                           ++ pass_events net (remaining_keys (_monitor_thread self))
                           ++ replicate (3 + extra) (MonitorStep r))%list in
       slaves (fst alone) =
         fold_left (fun d k => fst (fetch_at k (net k) d))
                   (remaining_keys (_monitor_thread self))
                   (after_pending (_monitor_thread self) (slaves self))
       ∧ snd alone = map (fun k => mkCommit Monitor k (net k))
                         (remaining_keys (_monitor_thread self))
       ∧ is_alive (_monitor_thread (fst alone)) = false).
Proof.
  intros Hns self res.
  pose proof (run_thread_ok file evs0) as Hok. fold self in Hok.
  assert (Hok' : thread_ok (stop_monitoring self)) by exact Hok.
  destruct (stopped_run evs (stop_monitoring self) eq_refl Hok' Hns) as [_ [Hkeys Hsteps]].
  fold res in Hkeys, Hsteps. change (_monitor_thread (stop_monitoring self))
    with (_monitor_thread self) in Hkeys, Hsteps.
  split; [done|]. split; [done|]. split; [exact Hkeys|]. split; [|split].
  - intros Hlen.
    assert (Hz : steps_bound (_monitor_thread (fst res)) = 0%nat) by lia.
    destruct (exited_thread _ Hz) as [Hrem Halive]. split; [|exact Halive].
    rewrite Hkeys, Hrem. by rewrite app_nil_r.
  - intros Hdead r. by apply returned_step.
  - intros net r extra.
    destruct (stopped_alone (stop_monitoring self) net r extra eq_refl Hok')
      as (Hsl & Hlog & Hdead & _).
    done.
Qed.

Lemma stop_ends_after_current_pass_witness :
  Forall (fun ev => is_start ev = false) after_stop
  ∧ _monitor_thread (fst (run (MasterServer__init__ None) before_stop))
      = Some (InFetch (Some "192.168.217.180")
                [SetError (Some "Connection timeout to Slave-1 (192.168.217.180:5001)")]
                None [Some "192.168.217.190"; Some "192.168.217.200"])
  ∧ monitor_keys (snd (run (stop_monitoring (fst (run (MasterServer__init__ None) before_stop)))
                           after_stop))
      = [Some "192.168.217.190"; Some "192.168.217.200"]
  ∧ is_alive (_monitor_thread
                (fst (run (stop_monitoring (fst (run (MasterServer__init__ None) before_stop)))
                          after_stop))) = false.
Proof.
  assert (Hns : Forall (fun ev => is_start ev = false) after_stop).
  { repeat constructor. }
  split; [exact Hns|]. split; [reflexivity|].
  destruct (stop_ends_after_current_pass None before_stop after_stop Hns)
    as [_ [_ [_ [Hfin _]]]].
  apply Hfin. vm_compute. lia.
Defined.

(** ** Refreshing every agent *)

Lemma fetch_at_middle k s r (pre d : list (option string * SlaveInfo)) :
  k ∉ dict_keys pre →
  fst (fetch_at k r (pre ++ (k, s) :: d)%list)
  = (pre ++ (k, fst (_fetch_slave_info s r)) :: d)%list.
Proof.
  intros Hk. unfold fetch_at.
  rewrite dict_get_app_None by (by apply dict_get_absent). simpl.
  rewrite decide_True by done.
  destruct (_fetch_slave_info s r) as [s' x]. simpl. by apply dict_set_middle.
Qed.

(** Fetching key after key, as the monitoring thread does, is the loop
    over the values. *)
Lemma fetch_keys_map net (d pre : list (option string * SlaveInfo)) :
  NoDup (dict_keys (pre ++ d)%list) →
  fold_left (fun d' k => fst (fetch_at k (net k) d')) (dict_keys d) (pre ++ d)%list
  = (pre ++ map (fun kv => (fst kv, fst (_fetch_slave_info (snd kv) (net (fst kv))))) d)%list.
Proof.
  revert pre. induction d as [|[k s] d IH]; intros pre Hnd; simpl; [done|].
  assert (Hk : k ∉ dict_keys pre).
  { unfold dict_keys in *. rewrite map_app in Hnd. apply NoDup_app in Hnd as [_ [Hdis _]].
    intros Hin. apply (Hdis k Hin). simpl. apply list_elem_of_here. }
  rewrite fetch_at_middle by done.
  specialize (IH (pre ++ [(k, fst (_fetch_slave_info s (net k)))])%list).
  rewrite <- !app_assoc in IH. simpl in IH. apply IH.
  unfold dict_keys in *. rewrite !map_app in *. simpl in *. exact Hnd.
Qed.

(** C6, as the code has it. [refresh_all] fetches every agent of the
    roster once, in roster order, each with its own reply, raises nothing
    and answers 200 with the body [{"success": True}]; the updated states
    are not in the response (they are what [get_slaves] shows next, when
    it can serialise the roster). In every state the server reaches, the
    roster it leaves is the roster that one pass of the monitoring
    thread, left alone, leaves under the same replies. *)
Theorem refresh_all_is_a_pass (file : option user_config) (evs0 : list event)
    (net : option string -> net_reply) (r0 : net_reply) :
  let self := fst (run (MasterServer__init__ file) evs0) in
  refresh_all self net =
    (set_slaves self
       (map (fun kv => (fst kv, fst (_fetch_slave_info (snd kv) (net (fst kv))))) (slaves self)),
     Return (VDict [(VStr "success", VBool true)], 200))
  ∧ slaves (fst (run (set_thread (set_running self true) (Some AtWhile))
                     (MonitorStep r0 :: pass_events net (dict_keys (slaves self)))))
    = slaves (fst (refresh_all self net))
  ∧ get_slaves (fst (refresh_all self net)) =
      if mixed_keys (slaves self) then Raise unorderable_keys
      else Return (VDict (map (fun kv => (VStr (json_key (fst kv)),
                                          to_dict (fst (_fetch_slave_info (snd kv) (net (fst kv))))))
                              (slaves self)), 200).
Proof.
  intros self. pose proof (run_roster_ok file evs0) as Hok. fold self in Hok.
  unfold refresh_all. rewrite for_each_slave_spec. split; [done|]. split.
  2:{ rewrite get_slaves_entries.
      - simpl.
        rewrite (mixed_keys_map (fun kv => fst (_fetch_slave_info (snd kv) (net (fst kv))))).
        destruct (mixed_keys (slaves self)); [done|]. by rewrite map_map.
      - unfold roster_ok, dict_keys. simpl. by rewrite map_map. }
  rewrite run_cons. cbn [fst].
  change (fst (step (set_thread (set_running self true) (Some AtWhile)) (MonitorStep r0)))
    with (set_thread (set_running self true) (Some (InFor (dict_keys (slaves self))))).
  rewrite (run_pass net (dict_keys (slaves self))
             (set_thread (set_running self true) (Some (InFor (dict_keys (slaves self)))))
             eq_refl) by (by apply Forall_forall).
  simpl. apply (fetch_keys_map net (slaves self) []). exact Hok.
Qed.

(** C6, as the claim has it, fails: on the default roster with every
    agent answering, the response of [refresh_all] is the success flag; it
    is not the mapping from ids to the updated states, which [get_slaves]
    answers next, and no id is a key of it. *)
Lemma refresh_all_returns_no_mapping :
  snd (refresh_all (MasterServer__init__ None) (fun _ => reply_ok))
    = Return (VDict [(VStr "success", VBool true)], 200)
  ∧ vdict_get "192.168.217.180" (VDict [(VStr "success", VBool true)]) = None
  ∧ ∃ body,
      get_slaves (fst (refresh_all (MasterServer__init__ None) (fun _ => reply_ok)))
        = Return (body, 200)
      ∧ snd (refresh_all (MasterServer__init__ None) (fun _ => reply_ok)) ≠ Return (body, 200)
      ∧ vdict_get "192.168.217.180" body
        = Some (to_dict (fst (_fetch_slave_info
                                (SlaveInfo__init__ (Some "Slave-1") (Some "192.168.217.180") 5001)
                                reply_ok))).
Proof.
  split; [reflexivity|]. split; [reflexivity|].
  eexists. split; [reflexivity|]. split; [|reflexivity].
  vm_compute. discriminate.
Qed.

(** ** A reader racing a commit *)

Example interleavings_small :
  interleavings [1; 2] [3] = [[1; 2; 3]; [1; 3; 2]; [3; 1; 2]].
Proof. reflexivity. Qed.

Lemma interleavings_nil_l {A : Type} (ys : list A) : interleavings [] ys = [ys].
Proof. by destruct ys. Qed.

Lemma interleavings_nil_r {A : Type} (xs : list A) : interleavings xs [] = [xs].
Proof. by destruct xs. Qed.

Lemma interleavings_cons_l {A : Type} (x : A) (xs ys tr : list A) :
  tr ∈ interleavings xs ys → x :: tr ∈ interleavings (x :: xs) ys.
Proof.
  intros Hin. destruct ys as [|y ys].
  - rewrite interleavings_nil_r in Hin |- *.
    apply list_elem_of_singleton in Hin as ->. apply list_elem_of_here.
  - simpl. apply elem_of_app. left. by apply list_elem_of_fmap_2.
Qed.

Lemma interleavings_cons_r {A : Type} (y : A) (xs ys tr : list A) :
  tr ∈ interleavings xs ys → y :: tr ∈ interleavings xs (y :: ys).
Proof.
  intros Hin. destruct xs as [|x xs].
  - rewrite interleavings_nil_l in Hin |- *.
    apply list_elem_of_singleton in Hin as ->. apply list_elem_of_here.
  - simpl. apply elem_of_app. right. by apply (list_elem_of_fmap_2 (cons y)).
Qed.

Lemma interleavings_app_l {A : Type} (xs ys : list A) : (xs ++ ys)%list ∈ interleavings xs ys.
Proof.
  induction xs as [|x xs IH]; simpl app.
  - rewrite interleavings_nil_l. apply list_elem_of_here.
  - by apply interleavings_cons_l.
Qed.

Lemma interleavings_app_r {A : Type} (xs ys : list A) : (ys ++ xs)%list ∈ interleavings xs ys.
Proof.
  induction ys as [|y ys IH]; simpl app.
  - rewrite interleavings_nil_r. apply list_elem_of_here.
  - by apply interleavings_cons_r.
Qed.

Lemma run_actions_app tr tr' slave acc :
  run_actions (tr ++ tr')%list slave acc =
    run_actions tr' (fst (run_actions tr slave acc)) (snd (run_actions tr slave acc)).
Proof.
  revert slave acc. induction tr as [|[w|a] tr IH]; intros slave acc; simpl; [done| |]; apply IH.
Qed.

Lemma run_actions_writes ws slave acc :
  run_actions (map Write ws) slave acc = (run_stores ws slave, acc).
Proof. revert slave. induction ws as [|w ws IH]; intros slave; simpl; [done|]. apply IH. Qed.

(** A reader that runs alone gets [to_dict]. *)
Lemma run_actions_reads slave :
  run_actions (map Read to_dict_reads) slave [] = (slave, vdict_entries (to_dict slave)).
Proof. reflexivity. Qed.

Lemma torn_to_dict s : torn (to_dict s) = false ↔ consistent s.
Proof.
  unfold torn, consistent. simpl. destruct (online s), (error s); simpl; split; try done.
  intros H. by specialize (H eq_refl).
Qed.

Lemma interleavings_elem {A : Type} (xs : list A) : ∀ ys tr,
  tr ∈ interleavings xs ys → ∀ x, x ∈ tr → x ∈ xs ∨ x ∈ ys.
Proof.
  induction xs as [|x0 xs IHx]; intros ys.
  - intros tr Hin x Hx. rewrite interleavings_nil_l in Hin.
    apply list_elem_of_singleton in Hin as ->. by right.
  - induction ys as [|y0 ys IHy]; intros tr Hin x Hx.
    + rewrite interleavings_nil_r in Hin. apply list_elem_of_singleton in Hin as ->. by left.
    + simpl in Hin. apply elem_of_app in Hin as [Hin|Hin].
      * apply list_elem_of_fmap in Hin as [tr' [-> Htr']].
        apply elem_of_cons in Hx as [->|Hx]; [left; apply list_elem_of_here|].
        destruct (IHx _ _ Htr' x Hx) as [Hl|Hr]; [left; by apply list_elem_of_further|by right].
      * apply list_elem_of_fmap in Hin as [tr' [-> Htr']].
        change (tr' ∈ interleavings (x0 :: xs) ys) in Htr'.
        apply elem_of_cons in Hx as [->|Hx]; [right; apply list_elem_of_here|].
        destruct (IHy _ Htr' x Hx) as [Hl|Hr]; [by left|right; by apply list_elem_of_further].
Qed.

(** What every store of a schedule keeps of the record, every load of
    the schedule finds. *)
Lemma run_actions_inv (P : SlaveInfo → Prop) (Q : list (pyval * pyval) → Prop) :
  (∀ a s acc, P s → Q acc → Q (acc ++ [(VStr (attr_key a), getattr s a)])%list) →
  ∀ tr slave acc,
    (∀ w s, Write w ∈ tr → P s → P (setattr s w)) →
    P slave → Q acc → Q (snd (run_actions tr slave acc)).
Proof.
  intros Hread. induction tr as [|[w|a] tr IH]; intros slave acc Hw HP HQ; simpl; [done| |].
  - apply IH; [|by apply Hw; [apply list_elem_of_here|]|done].
    intros w' s Hin. apply Hw. by apply list_elem_of_further.
  - apply IH; [|done|by apply Hread].
    intros w' s Hin. apply Hw. by apply list_elem_of_further.
Qed.

Lemma vdict_lookup_elem k v d : vdict_lookup k d = Some v → (VStr k, v) ∈ d.
Proof.
  induction d as [|[k0 v0] d IH]; simpl; [done|].
  destruct k0 as [| | | |s| |]; try (intros H; apply list_elem_of_further; by apply IH).
  destruct (String.eqb k s) eqn:Heq.
  - intros [= ->]. apply String.eqb_eq in Heq as ->. apply list_elem_of_here.
  - intros H. apply list_elem_of_further. by apply IH.
Qed.

Lemma races_writes slave r tr w :
  tr ∈ races slave r → Write w ∈ tr → w ∈ fst (fetch_stores slave r).
Proof.
  intros Htr Hw. destruct (interleavings_elem _ _ _ Htr _ Hw) as [Hin|Hin].
  - apply list_elem_of_fmap in Hin as [w' [[= ->] Hw']]. done.
  - apply list_elem_of_fmap in Hin as [a [[=] _]].
Qed.

(** A success landing on a record without error: no load of [error]
    finds one. *)
Lemma success_on_clean_untorn slave r tr :
  is_success r = true → error slave = None → tr ∈ races slave r →
  torn (observed tr slave) = false.
Proof.
  unfold is_success. destruct (success_body r) as [body|] eqn:Hs; [intros _|done].
  intros Herr Htr.
  assert (HQ : ∀ v, (VStr "error", v) ∈ snd (run_actions tr slave []) → v = VNone).
  { apply (run_actions_inv (fun s => error s = None)
             (fun acc => ∀ v, (VStr "error", v) ∈ acc → v = VNone)).
    - intros a s acc HP HQ v Hin. apply elem_of_app in Hin as [Hin|Hin]; [by apply HQ|].
      apply list_elem_of_singleton in Hin. injection Hin as Hk ->.
      destruct a; try discriminate Hk. simpl. by rewrite HP.
    - intros w s Hw HP. apply (races_writes _ _ _ _ Htr) in Hw.
      rewrite (fetch_stores_success _ _ _ Hs) in Hw. simpl in Hw.
      repeat (apply elem_of_cons in Hw as [->|Hw]; [done|]). by apply elem_of_nil in Hw.
    - done.
    - intros v Hin. by apply elem_of_nil in Hin. }
  unfold torn, observed. simpl.
  destruct (vdict_lookup "online" (snd (run_actions tr slave []))) as [[|[|]| | | | |]|];
    try done.
  destruct (vdict_lookup "error" (snd (run_actions tr slave []))) as [v|] eqn:He; [|done].
  apply vdict_lookup_elem in He. by rewrite (HQ v He).
Qed.

(** A failure landing on a record that is offline: no load of [online]
    finds it true. *)
Lemma failure_on_offline_untorn slave r tr :
  is_success r = false → online slave = false → tr ∈ races slave r →
  torn (observed tr slave) = false.
Proof.
  unfold is_success. destruct (success_body r) as [body|] eqn:Hs; [done|intros _].
  intros Hoff Htr.
  assert (HQ : ∀ v, (VStr "online", v) ∈ snd (run_actions tr slave []) → v = VBool false).
  { apply (run_actions_inv (fun s => online s = false)
             (fun acc => ∀ v, (VStr "online", v) ∈ acc → v = VBool false)).
    - intros a s acc HP HQ v Hin. apply elem_of_app in Hin as [Hin|Hin]; [by apply HQ|].
      apply list_elem_of_singleton in Hin. injection Hin as Hk ->.
      destruct a; try discriminate Hk. simpl. by rewrite HP.
    - intros w s Hw HP. apply (races_writes _ _ _ _ Htr) in Hw.
      destruct (fetch_stores_failure slave r Hs) as [msg Hfs]. rewrite Hfs in Hw. simpl in Hw.
      repeat (apply elem_of_cons in Hw as [->|Hw]; [done|]). by apply elem_of_nil in Hw.
    - done.
    - intros v Hin. by apply elem_of_nil in Hin. }
  unfold torn, observed. simpl.
  destruct (vdict_lookup "online" (snd (run_actions tr slave []))) as [v|] eqn:Ho; [|done].
  apply vdict_lookup_elem in Ho. by rewrite (HQ v Ho).
Qed.

(** A success landing on a record with an error: the reader between the
    store of [online] and the store of [error]. *)
Lemma success_on_error_torn slave r :
  is_success r = true → is_Some (error slave) →
  ∃ tr, tr ∈ races slave r ∧ torn (observed tr slave) = true.
Proof.
  unfold is_success. destruct (success_body r) as [body|] eqn:Hs; [intros _|done].
  intros [e He].
  exists ([Write (SetData body); Write (SetOnline true)]
            ++ map Read to_dict_reads
            ++ [Write (SetLastSeen (clock r)); Write (SetError None)])%list.
  split.
  - unfold races. rewrite (fetch_stores_success _ _ _ Hs). unfold to_dict_reads.
    cbn [map app fst].
    repeat (apply interleavings_cons_l || apply interleavings_cons_r).
    apply list_elem_of_here.
  - unfold torn, observed. simpl. by rewrite He.
Qed.

(** A failure landing on a record that is online: the whole commit
    between the reader's load of [online] and its load of [error]. *)
Lemma failure_on_online_torn slave r :
  is_success r = false → online slave = true →
  ∃ tr, tr ∈ races slave r ∧ torn (observed tr slave) = true.
Proof.
  unfold is_success. destruct (success_body r) as [body|] eqn:Hs; [done|intros _].
  intros Hon. destruct (fetch_stores_failure slave r Hs) as [msg Hfs].
  exists ([Read AName; Read AIp; Read APort; Read AOnline]
            ++ [Write (SetOnline false); Write (SetError (Some msg))]
            ++ [Read ALastSeen; Read AData; Read AError])%list.
  split.
  - unfold races. rewrite Hfs. unfold to_dict_reads. cbn [map app fst].
    repeat (apply interleavings_cons_l || apply interleavings_cons_r).
    apply list_elem_of_here.
  - unfold torn, observed. simpl. by rewrite Hon.
Qed.

(** C4, as the code has it. The stores of a commit and the loads of
    [to_dict] take no lock and interleave freely. The two schedules in
    which the reader does not overlap the commit are among the schedules
    of the race; in them the reader gets the record as it was before the
    fetch, or as the fetch left it, and, the record being consistent
    before, never ["online"] true next to an error. A reader that
    overlaps the commit never gets ["online"] true next to an error when
    the fetch succeeds on a record without error, or fails on a record
    that is offline. When the fetch succeeds on a record with an error,
    or fails on a record that is online, some schedule of the race gives
    the reader ["online"] true next to an error. *)
Theorem reader_outside_commit (slave : SlaveInfo) (r : net_reply) :
  consistent slave →
  reader_first slave r ∈ races slave r
  ∧ reader_last slave r ∈ races slave r
  ∧ observed (reader_first slave r) slave = to_dict slave
  ∧ observed (reader_last slave r) slave = to_dict (fst (_fetch_slave_info slave r))
  ∧ torn (observed (reader_first slave r) slave) = false
  ∧ torn (observed (reader_last slave r) slave) = false
  ∧ (is_success r = true → error slave = None →
       ∀ tr, tr ∈ races slave r → torn (observed tr slave) = false)
  ∧ (is_success r = false → online slave = false →
       ∀ tr, tr ∈ races slave r → torn (observed tr slave) = false)
  ∧ (is_success r = true → is_Some (error slave) →
       ∃ tr, tr ∈ races slave r ∧ torn (observed tr slave) = true)
  ∧ (is_success r = false → online slave = true →
       ∃ tr, tr ∈ races slave r ∧ torn (observed tr slave) = true).
Proof.
  intros Hc.
  assert (H1 : observed (reader_first slave r) slave = to_dict slave).
  { unfold observed, reader_first. rewrite run_actions_app, run_actions_reads.
    by rewrite run_actions_writes. }
  assert (H2 : observed (reader_last slave r) slave = to_dict (fst (_fetch_slave_info slave r))).
  { unfold observed, reader_last. rewrite run_actions_app, run_actions_writes.
    cbn [fst snd]. by rewrite run_actions_reads, fetch_as_stores. }
  split; [apply interleavings_app_r|]. split; [apply interleavings_app_l|].
  split; [exact H1|]. split; [exact H2|]. rewrite H1, H2.
  split; [by apply torn_to_dict|]. split; [apply torn_to_dict, fetch_consistent|].
  split; [|split; [|split]].
  - intros Hs He tr Htr. by apply (success_on_clean_untorn slave r).
  - intros Hs Ho tr Htr. by apply (failure_on_offline_untorn slave r).
  - apply success_on_error_torn.
  - apply failure_on_online_torn.
Qed.

Lemma reader_outside_commit_witness :
  consistent offline_slave
  ∧ torn (observed (reader_first offline_slave reply_ok) offline_slave) = false
  ∧ torn (observed (reader_last offline_slave reply_ok) offline_slave) = false
  ∧ ∃ tr, tr ∈ races offline_slave reply_ok ∧ torn (observed tr offline_slave) = true.
Proof.
  assert (Hc : consistent offline_slave) by (intros H; discriminate H).
  split; [exact Hc|].
  destruct (reader_outside_commit offline_slave reply_ok Hc)
    as (_ & _ & _ & _ & Hfirst & Hlast & _ & _ & Htorn & _).
  split; [exact Hfirst|]. split; [exact Hlast|].
  apply Htorn; [reflexivity|]. by eexists.
Defined.

(** C4, as the claim has it, fails. The agent is offline with an error
    and its next fetch succeeds; a reader scheduled after the store of
    [online] and before the store of [error] gets ["online"] true next to
    the error of the previous fetch. *)
Lemma reader_sees_torn_record :
  consistent offline_slave
  ∧ reader_inside_success ∈ races offline_slave reply_ok
  ∧ torn (observed reader_inside_success offline_slave) = true
  ∧ vdict_get "online" (observed reader_inside_success offline_slave) = Some (VBool true)
  ∧ vdict_get "error" (observed reader_inside_success offline_slave)
    = Some (VStr "Connection timeout to Slave-1 (192.168.217.180:5001)").
Proof.
  split; [intros H; discriminate H|]. split; [|split; [|split]; reflexivity].
  unfold races, reader_inside_success.
  change (fst (fetch_stores offline_slave reply_ok))
    with [SetData (VDict [(VStr "timestamp", VInt 1); (VStr "system", VDict []);
                          (VStr "gpus", VList [])]);
          SetOnline true; SetLastSeen 104; SetError None].
  unfold to_dict_reads. simpl map.
  repeat (apply interleavings_cons_l || apply interleavings_cons_r).
  apply list_elem_of_here.
Qed.

(** The reader is not atomic either: it loads [online] before [error],
    and a whole failed fetch scheduled between the two loads gives it
    ["online"] true next to the new error, although the record itself
    never was in that state. *)
Example reader_torn_by_failed_fetch :
  consistent online_slave
  ∧ failure_inside_reader ∈ races online_slave reply_timeout
  ∧ torn (observed failure_inside_reader online_slave) = true.
Proof.
  split; [intros _; reflexivity|]. split; [|reflexivity].
  unfold races, failure_inside_reader.
  change (fst (fetch_stores online_slave reply_timeout))
    with [SetOnline false;
          SetError (Some "Connection timeout to Slave-1 (192.168.217.180:5001)")].
  unfold to_dict_reads. simpl map.
  repeat (apply interleavings_cons_l || apply interleavings_cons_r).
  apply list_elem_of_here.
Qed.

(** Two fetches of one record on two threads (the monitoring thread and
    a refresh route) take no lock either: their stores can interleave so
    that, both calls having returned, the record is online with the error
    of the failed one. The properties of a fetch above are those of a call
    whose stores no other fetch of the same record interleaves. *)
Example two_fetches_interleaved :
  racing_stores ∈ interleavings (fst (fetch_stores fresh_slave reply_ok))
                                (fst (fetch_stores fresh_slave reply_timeout))
  ∧ online (run_stores racing_stores fresh_slave) = true
  ∧ error (run_stores racing_stores fresh_slave)
    = Some "Connection timeout to Slave-1 (192.168.217.180:5001)".
Proof.
  split; [|split; reflexivity].
  change (fst (fetch_stores fresh_slave reply_ok))
    with [SetData (VDict [(VStr "timestamp", VInt 1); (VStr "system", VDict []);
                          (VStr "gpus", VList [])]);
          SetOnline true; SetLastSeen 104; SetError None].
  change (fst (fetch_stores fresh_slave reply_timeout))
    with [SetOnline false;
          SetError (Some "Connection timeout to Slave-1 (192.168.217.180:5001)")].
  unfold racing_stores.
  apply interleavings_cons_r.
  do 4 apply interleavings_cons_l.
  apply interleavings_cons_r. apply list_elem_of_here.
Qed.

(** * Further properties *)

(** ** Sequences of fetches *)

Lemma fetch_all_snoc slave rs r :
  fetch_all slave (rs ++ [r])%list = fst (_fetch_slave_info (fetch_all slave rs) r).
Proof. unfold fetch_all. by rewrite fold_left_app. Qed.

Lemma last_success_snoc rs r :
  last_success (rs ++ [r])%list =
    match success_of r with
    | Some x => Some x
    | None => last_success rs
    end.
Proof.
  unfold last_success. rewrite omap_app. simpl.
  destruct (success_of r) as [x|]; simpl.
  - apply last_snoc.
  - by rewrite app_nil_r.
Qed.

(** X1. The record after any sequence of fetches. Its payload is the body
    of the last successful reply and its [last_seen] the clock reading of
    that reply, however many failures came after it (both are as before
    when no reply succeeded); [online] tells whether the last reply
    succeeded, and the error is absent exactly then. *)
Theorem fetch_sequence_outcome (slave : SlaveInfo) (rs : list net_reply) :
  let s' := fetch_all slave rs in
  data s' = match last_success rs with
            | Some (body, _) => body
            | None => data slave
            end
  ∧ last_seen s' = match last_success rs with
                   | Some (_, t) => Some t
                   | None => last_seen slave
                   end
  ∧ match last rs with
    | Some r => online s' = is_success r ∧ (error s' = None ↔ is_success r = true)
    | None => s' = slave
    end.
Proof.
  induction rs as [|r rs IH] using rev_ind; [done|].
  destruct IH as [Hd [Hl _]]. rewrite fetch_all_snoc, last_success_snoc, last_snoc.
  unfold success_of, is_success. cbv zeta.
  destruct (success_body r) as [body|] eqn:Hs.
  - rewrite (fetch_on_success _ _ _ Hs). simpl. done.
  - destruct (fetch_on_failure (fetch_all slave rs) r Hs) as [msg ->]. simpl.
    split; [exact Hd|]. split; [exact Hl|]. split; [done|]. split; done.
Qed.

(** X2. Fetching again with the same reply changes nothing; and the
    record a successful fetch leaves does not depend on what the record
    held before, beyond the identity of the agent. *)
Theorem fetch_idempotent (slave slave' : SlaveInfo) (r : net_reply) :
  fst (_fetch_slave_info (fst (_fetch_slave_info slave r)) r) = fst (_fetch_slave_info slave r)
  ∧ (same_identity slave slave' → is_success r = true →
     fst (_fetch_slave_info slave r) = fst (_fetch_slave_info slave' r)).
Proof.
  split.
  - unfold _fetch_slave_info, fetch_stores, try_body.
    destruct (get r) as [[| |msg]|response]; simpl; try done.
    destruct (Z.eqb (status_code response) 200); simpl; [|done].
    by destruct (json response) as [[| |msg]|body].
  - intros (Hn & Hi & Hp). unfold is_success.
    destruct (success_body r) as [body|] eqn:Hs; [|done]. intros _.
    rewrite !(fetch_on_success _ _ _ Hs). simpl. by rewrite Hn, Hi, Hp.
Qed.

Lemma fetch_idempotent_witness :
  same_identity offline_slave online_slave
  ∧ is_success reply_ok = true
  ∧ fst (_fetch_slave_info offline_slave reply_ok) = fst (_fetch_slave_info online_slave reply_ok).
Proof.
  assert (Hid : same_identity offline_slave online_slave) by (repeat split).
  split; [exact Hid|]. split; [reflexivity|].
  exact (proj2 (fetch_idempotent offline_slave online_slave reply_ok) Hid eq_refl).
Defined.

(** ** The routes against each other *)

Lemma string_keys_not_mixed {V : Type} (d : list (option string * V)) :
  string_keys d = true → mixed_keys d = false.
Proof.
  intros Hs. unfold mixed_keys.
  assert (Hn : existsb (fun kv : option string * V =>
                          match fst kv with None => true | Some _ => false end) d = false).
  { induction d as [|[[k|] v] d IH]; simpl in *; [done| |done]. by apply IH. }
  by rewrite Hn.
Qed.

Lemma vdict_lookup_roster (f : SlaveInfo → pyval) (slave_ip : string)
    (d : list (option string * SlaveInfo)) :
  string_keys d = true →
  vdict_lookup slave_ip (map (fun kv => (VStr (json_key (fst kv)), f (snd kv))) d)
  = f <$> dict_get (Some slave_ip) d.
Proof.
  induction d as [|[[k|] s] d IH]; simpl; [done| |done].
  intros Hs. destruct (String.eqb_spec slave_ip k) as [->|Hne].
  - by rewrite decide_True.
  - rewrite decide_False by congruence. by apply IH.
Qed.

(** X3. [get_slaves] and [get_slave] agree when every agent was
    configured with an [ip]. In every such state the server reaches,
    [get_slaves] answers 200 with a mapping that holds under an id
    exactly the dict that [get_slave] answers for that id with status
    200, and holds nothing under an id for which [get_slave] answers
    404. *)
Theorem snapshot_all_agrees_with_one (file : option user_config) (evs : list event)
    (slave_ip : string) :
  let self := fst (run (MasterServer__init__ file) evs) in
  string_keys (slaves self) = true →
  ∃ body, get_slaves self = Return (body, 200)
    ∧ match vdict_get slave_ip body with
      | Some d => get_slave self slave_ip = (d, 200)
      | None => get_slave self slave_ip = slave_not_found
      end.
Proof.
  intros self Hs. pose proof (run_roster_ok file evs) as Hok. fold self in Hok.
  rewrite (get_slaves_entries self Hok), (string_keys_not_mixed _ Hs).
  eexists. split; [done|]. simpl. rewrite vdict_lookup_roster by done.
  unfold get_slave. by destruct (dict_get (Some slave_ip) (slaves self)).
Qed.

Lemma snapshot_all_agrees_with_one_witness :
  string_keys (slaves (fst (run (MasterServer__init__ None) sample_schedule))) = true
  ∧ ∃ body, get_slaves (fst (run (MasterServer__init__ None) sample_schedule))
            = Return (body, 200)
      ∧ match vdict_get "192.168.217.190" body with
        | Some d => get_slave (fst (run (MasterServer__init__ None) sample_schedule))
                      "192.168.217.190" = (d, 200)
        | None => get_slave (fst (run (MasterServer__init__ None) sample_schedule))
                    "192.168.217.190" = slave_not_found
        end.
Proof.
  split; [reflexivity|].
  apply (snapshot_all_agrees_with_one None sample_schedule "192.168.217.190"). reflexivity.
Defined.

(** X4. [refresh_slave] answers what [get_slave] answers right after it,
    for an id of the roster and for an unknown id alike; the records
    under the other keys are untouched and no key is added or lost. When
    the reply is a success the answered dict shows the agent online with
    the received body and no error. *)
Theorem refresh_slave_answers_new_state (self : MasterServer) (slave_ip : string)
    (r : net_reply) :
  let self' := fst (refresh_slave self slave_ip r) in
  snd (refresh_slave self slave_ip r) = Return (get_slave self' slave_ip)
  ∧ dict_keys (slaves self') = dict_keys (slaves self)
  ∧ (∀ k, k ≠ Some slave_ip → dict_get k (slaves self') = dict_get k (slaves self))
  ∧ match dict_get (Some slave_ip) (slaves self), success_body r with
    | Some _, Some body =>
        vdict_get "online" (fst (get_slave self' slave_ip)) = Some (VBool true)
        ∧ vdict_get "data" (fst (get_slave self' slave_ip)) = Some body
        ∧ vdict_get "error" (fst (get_slave self' slave_ip)) = Some VNone
    | Some _, None =>
        vdict_get "online" (fst (get_slave self' slave_ip)) = Some (VBool false)
    | None, _ => self' = self
    end.
Proof.
  unfold refresh_slave, get_slave.
  destruct (dict_get (Some slave_ip) (slaves self)) as [slave|] eqn:Hg; simpl.
  - pose proof (fetch_returns slave r) as Hr.
    destruct (_fetch_slave_info slave r) as [s' x] eqn:Hf. simpl in Hr. subst x. simpl.
    rewrite dict_get_set_eq. split; [done|].
    split; [by apply (dict_keys_set_present _ _ slave)|].
    split; [intros k Hk; by apply dict_get_set_ne|].
    destruct (success_body r) as [body|] eqn:Hs.
    + rewrite (fetch_on_success _ _ _ Hs) in Hf. by injection Hf as <-.
    + destruct (fetch_on_failure slave r Hs) as [msg Hm]. rewrite Hm in Hf.
      by injection Hf as <-.
  - by rewrite Hg.
Qed.

Lemma filter_length_le {A : Type} (f : A → bool) (l : list A) :
  (length (List.filter f l) ≤ length l)%nat.
Proof. induction l as [|x l IH]; simpl; [done|]. destruct (f x); simpl; lia. Qed.

(** X5. Whatever the state, [health_check] answers 200 with a
    [slaves_online] between 0 and [slaves_total]. *)
Theorem health_online_bounded (self : MasterServer) (now : Z) :
  ∃ total online_,
    vdict_get "slaves_total" (fst (health_check self now)) = Some (VInt total)
    ∧ vdict_get "slaves_online" (fst (health_check self now)) = Some (VInt online_)
    ∧ (0 ≤ online_ ≤ total)%Z
    ∧ snd (health_check self now) = 200.
Proof.
  exists (dict_len (slaves self)), (online_count self). simpl.
  split; [done|]. split; [done|]. split; [|done].
  unfold online_count, dict_len, dict_values. rewrite sum_of_ones.
  pose proof (filter_length_le online (map snd (slaves self))) as Hle.
  rewrite length_map in Hle. lia.
Qed.

Lemma online_after_pass net (d : list (option string * SlaveInfo)) :
  List.filter online
    (dict_values (map (fun kv => (fst kv, fst (_fetch_slave_info (snd kv) (net (fst kv))))) d))
  = map (fun kv => fst (_fetch_slave_info (snd kv) (net (fst kv))))
        (List.filter (fun kv => is_success (net (fst kv))) d).
Proof.
  induction d as [|[k s] d IH]; simpl; [done|].
  unfold is_success at 1. destruct (success_body (net k)) as [body|] eqn:Hs.
  - rewrite (fetch_on_success _ _ _ Hs). simpl. f_equal.
    + by rewrite (fetch_on_success _ _ _ Hs).
    + apply IH.
  - destruct (fetch_on_failure s (net k) Hs) as [msg ->]. simpl. apply IH.
Qed.

(** X6. Right after [refresh_all], [health_check] counts as online
    exactly the agents whose request was answered with success, whatever
    they were before. *)
Theorem health_after_refresh_all (self : MasterServer) (net : option string → net_reply)
    (now : Z) :
  vdict_get "slaves_online" (fst (health_check (fst (refresh_all self net)) now))
  = Some (VInt (Z.of_nat (length
      (List.filter (fun k => is_success (net k)) (dict_keys (slaves self))))))
  ∧ vdict_get "slaves_total" (fst (health_check (fst (refresh_all self net)) now))
    = Some (VInt (Z.of_nat (length (slaves self)))).
Proof.
  unfold refresh_all. rewrite for_each_slave_spec. simpl. split.
  - unfold online_count. simpl. rewrite sum_of_ones, online_after_pass, length_map.
    do 3 f_equal. unfold dict_keys. induction (slaves self) as [|[k s] d IH]; simpl; [done|].
    destruct (is_success (net k)); simpl; by rewrite IH.
  - unfold dict_len. by rewrite length_map.
Qed.

(** ** Invariants of the running server *)

Lemma fetch_same_identity slave r : same_identity (fst (_fetch_slave_info slave r)) slave.
Proof. apply fetch_keeps_identity. Qed.

Lemma fetch_record_ok slave r : record_ok slave → record_ok (fst (_fetch_slave_info slave r)).
Proof.
  intros (H1 & H2 & H3). destruct (success_body r) as [body|] eqn:Hs.
  - rewrite (fetch_on_success _ _ _ Hs). unfold record_ok. simpl.
    split; [eauto|]. split; [by intros [e He]|]. done.
  - destruct (fetch_on_failure slave r Hs) as [msg ->]. unfold record_ok. simpl.
    split; [done|]. split; [done|]. intros Hl. by destruct (H3 Hl) as [Hd _].
Qed.

Lemma init_record cfg k s :
  dict_get k (_init_slaves cfg) = Some s →
  ip s = k ∧ online s = false ∧ last_seen s = None ∧ data s = VNone ∧ error s = None.
Proof.
  unfold _init_slaves. rewrite init_fold_get.
  destruct (last (filter (fun sc => cfg_ip sc = k) (slaves_cfg cfg))) as [sc|] eqn:Hl; [|done].
  intros [= <-]. split; [|done]. simpl.
  apply last_Some in Hl as [l' Hl].
  assert (Hin : sc ∈ filter (fun sc0 => cfg_ip sc0 = k) (slaves_cfg cfg)).
  { rewrite Hl. apply elem_of_app. right. apply list_elem_of_here. }
  by apply list_elem_of_filter in Hin as [Hip _].
Qed.

(** X7. The roster is fixed at construction. Under any schedule the
    configuration and the keys of the roster, in their order, are those of
    the construction, and the record under a key keeps the name, ip and
    port it was constructed with, its ip being the key. *)
Theorem roster_never_changes (file : option user_config) (evs : list event) :
  let self := fst (run (MasterServer__init__ file) evs) in
  dict_keys (slaves self) = dict_keys (_init_slaves (_load_config file))
  ∧ config self = _load_config file
  ∧ ∀ k s, dict_get k (slaves self) = Some s →
      ∃ s0, dict_get k (_init_slaves (_load_config file)) = Some s0
            ∧ same_identity s s0 ∧ ip s = k.
Proof.
  intros self. split; [apply run_keys|]. split; [apply run_config|].
  apply (run_records_inv
           (fun k s => ∃ s0, dict_get k (_init_slaves (_load_config file)) = Some s0
                             ∧ same_identity s s0 ∧ ip s = k)).
  - intros k s w (s0 & Hg & (Hn & Hi & Hp) & Hk). exists s0. split; [done|].
    destruct (setattr_identity s w) as (Hn' & Hi' & Hp').
    repeat split; congruence.
  - intros k s Hg. exists s. split; [exact Hg|]. split; [done|].
    by destruct (init_record _ _ _ Hg).
Qed.

Lemma step_records_settle self ev :
  records_settle self → no_overlap self [ev] = true → records_settle (fst (step self ev)).
Proof.
  unfold records_settle. intros Hinv Hev k s'.
  destruct ev as [r| | |slave_ip r|k' r|k' r i]; simpl in *; try done.
  - unfold monitor_step.
    destruct (_monitor_thread self) as [[|[|k0 rest]|k0 [|w ws] [e|] rest| |]|] eqn:Ht;
      simpl in *; try (rewrite ?Ht; by apply (Hinv k s')).
    + specialize (Hinv k s'). destruct (_running self); simpl; exact Hinv.
    + specialize (Hinv k s').
      destruct (Z.ltb (refresh_interval (config self)) 0); simpl; exact Hinv.
    + destruct (dict_get k0 (slaves self)) as [s0|] eqn:Hg0; [|by apply (Hinv k s')].
      destruct (fetch_stores s0 r) as [ws raised] eqn:Hfs. simpl. intros Hg.
      destruct (decide (k0 = k)) as [->|Hne]; [|exact (Hinv k s' Hg)].
      assert (s' = s0) as -> by congruence.
      pose proof (fetch_as_stores s0 r) as Hf. rewrite Hfs in Hf. simpl in Hf. rewrite Hf.
      apply fetch_record_ok. exact (Hinv k s0 Hg0).
    + specialize (Hinv k s'). by destruct (decide (k0 = k)).
    + specialize (Hinv k s'). by destruct (decide (k0 = k)).
    + intros Hg. destruct (decide (k0 = k)) as [->|Hne].
      * destruct (dict_get k (slaves self)) as [s|] eqn:Hg0.
        -- rewrite (store_at_get _ [w] _ _ Hg0) in Hg. injection Hg as <-.
           specialize (Hinv k s Hg0). by rewrite decide_True in Hinv.
        -- unfold store_at in Hg. rewrite Hg0 in Hg. congruence.
      * rewrite store_at_other in Hg by done. specialize (Hinv k s' Hg).
        by rewrite decide_False in Hinv.
    + intros Hg. destruct (decide (k0 = k)) as [->|Hne].
      * destruct (dict_get k (slaves self)) as [s|] eqn:Hg0.
        -- rewrite (store_at_get _ [w] _ _ Hg0) in Hg. injection Hg as <-.
           specialize (Hinv k s Hg0). by rewrite decide_True in Hinv.
        -- unfold store_at in Hg. rewrite Hg0 in Hg. congruence.
      * rewrite store_at_other in Hg by done. specialize (Hinv k s' Hg).
        by rewrite decide_False in Hinv.
  - unfold start_monitoring.
    destruct (is_alive (_monitor_thread self)) eqn:Hal; [by apply (Hinv k s')|]. simpl.
    intros Hg. specialize (Hinv k s' Hg).
    by destruct (_monitor_thread self) as [[| | | |]|].
  - by apply (Hinv k s').
  - rewrite andb_true_r in Hev. unfold idle_at in Hev.
    assert (Hth : _monitor_thread (fst (refresh_slave self slave_ip r)) = _monitor_thread self).
    { unfold refresh_slave. destruct (dict_get (Some slave_ip) (slaves self)) as [s|]; [|done].
      by destruct (_fetch_slave_info s r) as [s1 [e|]]. }
    rewrite Hth. intros Hg. destruct (decide (Some slave_ip = k)) as [<-|Hne].
    + destruct (pending_at (_monitor_thread self) (Some slave_ip)) eqn:Hp; [|done]. simpl.
      unfold refresh_slave in Hg.
      destruct (dict_get (Some slave_ip) (slaves self)) as [s|] eqn:Hg0.
      * assert (s' = fst (_fetch_slave_info s r)) as ->.
        { destruct (_fetch_slave_info s r) as [s1 [e|]]; simpl in Hg;
            rewrite dict_get_set_eq in Hg; by injection Hg as <-. }
        apply fetch_record_ok. specialize (Hinv _ _ Hg0). by rewrite Hp in Hinv.
      * simpl in Hg. congruence.
    + apply (Hinv k s'). rewrite <- Hg. symmetry. unfold refresh_slave.
      destruct (dict_get (Some slave_ip) (slaves self)) as [s|]; [|done].
      destruct (_fetch_slave_info s r) as [s1 [e|]]; simpl; by apply dict_get_set_ne.
  - rewrite andb_true_r in Hev. unfold idle_at in Hev.
    intros Hg. destruct (decide (k' = k)) as [->|Hne].
    + destruct (pending_at (_monitor_thread self) k) eqn:Hp; [|done]. simpl.
      destruct (dict_get k (slaves self)) as [s|] eqn:Hg0.
      * rewrite (fetch_at_get _ _ _ _ Hg0) in Hg. injection Hg as <-.
        apply fetch_record_ok. specialize (Hinv _ _ Hg0). by rewrite Hp in Hinv.
      * unfold fetch_at in Hg. rewrite Hg0 in Hg. simpl in Hg. congruence.
    + rewrite fetch_at_other in Hg by done. by apply (Hinv k s').
Qed.

Lemma run_records_settle evs : ∀ self,
  records_settle self → no_overlap self evs = true → records_settle (fst (run self evs)).
Proof.
  induction evs as [|ev evs IH]; intros self Hinv Hno; [done|].
  rewrite run_cons. cbn [fst]. cbn [no_overlap] in Hno.
  apply andb_prop in Hno as [Hev Hno]. apply IH; [|done].
  apply step_records_settle; [done|]. cbn [no_overlap]. by rewrite Hev.
Qed.

(** X8. The records of a server on which no two fetches of one agent
    overlap. In every state such a server reaches, every record is well
    formed once the stores that the monitoring thread has pending on it
    are done, and so every record on which it has none pending: an agent
    shown online has no error and has a [last_seen]; an agent with an
    error is offline; an agent without [last_seen] is offline and has no
    payload. *)
Theorem records_well_formed (file : option user_config) (evs : list event)
    (k : option string) (s : SlaveInfo) :
  no_overlap (MasterServer__init__ file) evs = true →
  dict_get k (slaves (fst (run (MasterServer__init__ file) evs))) = Some s →
  record_ok (run_stores
               (pending_at (_monitor_thread (fst (run (MasterServer__init__ file) evs))) k) s)
  ∧ (idle_at (_monitor_thread (fst (run (MasterServer__init__ file) evs))) k = true →
       record_ok s).
Proof.
  intros Hno Hg.
  assert (Hinv : records_settle (fst (run (MasterServer__init__ file) evs))).
  { apply run_records_settle; [|done]. intros k0 s0 Hg0. simpl.
    destruct (init_record _ _ _ Hg0) as (_ & Ho & Hl & Hd & He).
    unfold record_ok. split; [congruence|]. split; [|done].
    rewrite He. by intros [e He']. }
  split; [by apply Hinv|]. intros Hidle. specialize (Hinv k s Hg).
  unfold idle_at in Hidle.
  by destruct (pending_at (_monitor_thread (fst (run (MasterServer__init__ file) evs))) k).
Qed.

Lemma records_well_formed_witness :
  no_overlap (MasterServer__init__ None) sample_schedule = true
  ∧ dict_get (Some "192.168.217.180")
      (slaves (fst (run (MasterServer__init__ None) sample_schedule)))
    = Some (fst (_fetch_slave_info
                   (SlaveInfo__init__ (Some "Slave-1") (Some "192.168.217.180") 5001)
                   reply_bad_json))
  ∧ record_ok (fst (_fetch_slave_info
                      (SlaveInfo__init__ (Some "Slave-1") (Some "192.168.217.180") 5001)
                      reply_bad_json)).
Proof.
  split; [reflexivity|]. split; [reflexivity|].
  apply (records_well_formed None sample_schedule (Some "192.168.217.180"));
    reflexivity.
Defined.

(** ** The monitoring thread while the flag is up *)

Lemma monitor_keys_requests net (keys : list (option string)) :
  monitor_keys (map (fun k => mkCommit Monitor k (net k)) keys) = keys.
Proof. induction keys as [|k keys IH]; [done|]. unfold monitor_keys in *. simpl. by rewrite IH. Qed.


(** The test of the [while] and the pass over the roster. *)
Lemma run_test_and_pass r0 net self :
  roster_ok self → _monitor_thread self = Some AtWhile → _running self = true →
  run self (MonitorStep r0 :: pass_events net (dict_keys (slaves self))) =
    (set_thread (set_slaves self (fst (for_each_slave net (slaves self)))) (Some (InFor [])),
     map (fun k => mkCommit Monitor k (net k)) (dict_keys (slaves self))).
Proof.
  intros Hok Ht Hrun. rewrite run_cons.
  assert (Hstep : step self (MonitorStep r0)
            = (set_thread self (Some (InFor (dict_keys (slaves self)))), [])).
  { simpl. unfold monitor_step. by rewrite Ht, Hrun. }
  rewrite Hstep. cbn [fst snd].
  rewrite (run_pass net (dict_keys (slaves self))
             (set_thread self (Some (InFor (dict_keys (slaves self))))) eq_refl)
    by (by apply Forall_forall).
  cbn [fst snd app]. f_equal. rewrite for_each_slave_spec. cbn [fst].
  pose proof (fetch_keys_map net (slaves self) [] Hok) as Hmap. simpl in Hmap.
  simpl. by rewrite Hmap.
Qed.








(** X11. [start_monitoring] does nothing while the thread is alive, also
    right after [stop_monitoring]: the flag stays down. Calling
    [start_monitoring] twice is calling it once, in every state. A
    restart asked for before the stopped thread has returned is lost: the
    thread finishes its pass and returns, and nothing monitors any more
    until [start_monitoring] is called again, which then starts a new
    thread. *)
Theorem restart_while_alive_is_lost (file : option user_config) (evs0 evs : list event) :
  let self := fst (run (MasterServer__init__ file) evs0) in
  let res := run (start_monitoring (stop_monitoring self)) evs in
  (∀ srv, start_monitoring (start_monitoring srv) = start_monitoring srv)
  ∧ (∀ srv, is_alive (_monitor_thread srv) = true → start_monitoring srv = srv)
  ∧ (∀ srv, is_alive (_monitor_thread srv) = false →
       _running (start_monitoring srv) = true
       ∧ _monitor_thread (start_monitoring srv) = Some AtWhile
       ∧ slaves (start_monitoring srv) = slaves srv)
  ∧ (is_alive (_monitor_thread self) = true →
     Forall (fun ev => is_start ev = false) evs →
     (steps_bound (_monitor_thread self) ≤ monitor_steps evs)%nat →
     start_monitoring (stop_monitoring self) = stop_monitoring self
     ∧ monitor_keys (snd res) = remaining_keys (_monitor_thread self)
     ∧ is_alive (_monitor_thread (fst res)) = false
     ∧ _running (fst res) = false).
Proof.
  intros self res.
  split.
  { intros srv. unfold start_monitoring.
    destruct (is_alive (_monitor_thread srv)) eqn:Hal; [by rewrite Hal|done]. }
  split; [intros srv Hal; unfold start_monitoring; by rewrite Hal|].
  split; [intros srv Hal; unfold start_monitoring; by rewrite Hal|].
  intros Hal Hns Hsteps.
  assert (Hlost : start_monitoring (stop_monitoring self) = stop_monitoring self).
  { unfold start_monitoring. simpl. by rewrite Hal. }
  split; [exact Hlost|]. subst res. rewrite Hlost.
  pose proof (run_thread_ok file evs0) as Hok. fold self in Hok.
  assert (Hok' : thread_ok (stop_monitoring self)) by exact Hok.
  destruct (stopped_run evs (stop_monitoring self) eq_refl Hok' Hns) as (Hflag & Hkeys & Hst).
  change (_monitor_thread (stop_monitoring self)) with (_monitor_thread self) in Hkeys, Hst.
  assert (Hz : steps_bound (_monitor_thread (fst (run (stop_monitoring self) evs))) = 0%nat)
    by lia.
  destruct (exited_thread _ Hz) as [Hrem Hdead].
  split; [by rewrite Hkeys, Hrem, app_nil_r|]. split; [exact Hdead|exact Hflag].
Qed.

Lemma restart_while_alive_is_lost_witness :
  is_alive (_monitor_thread (fst (run (MasterServer__init__ None) before_stop))) = true
  ∧ Forall (fun ev => is_start ev = false) after_stop
  ∧ (steps_bound (_monitor_thread (fst (run (MasterServer__init__ None) before_stop)))
       ≤ monitor_steps after_stop)%nat
  ∧ is_alive (_monitor_thread
      (fst (run (start_monitoring
                   (stop_monitoring (fst (run (MasterServer__init__ None) before_stop))))
                after_stop))) = false
  ∧ _running
      (fst (run (start_monitoring
                   (stop_monitoring (fst (run (MasterServer__init__ None) before_stop))))
                after_stop)) = false.
Proof.
  assert (Hns : Forall (fun ev => is_start ev = false) after_stop) by repeat constructor.
  assert (Hst : (steps_bound (_monitor_thread (fst (run (MasterServer__init__ None) before_stop)))
                   ≤ monitor_steps after_stop)%nat) by (vm_compute; lia).
  split; [reflexivity|]. split; [exact Hns|]. split; [exact Hst|].
  destruct (restart_while_alive_is_lost None before_stop after_stop)
    as (_ & _ & _ & Hlost).
  destruct (Hlost eq_refl Hns Hst) as (_ & _ & Hdead & Hflag).
  split; [exact Hdead|exact Hflag].
Defined.

(** X25. A negative ["refresh_interval"] ends the monitoring after its
    first pass. [time.sleep] raises for a negative length, outside any
    [try]: from the test of the [while] the thread, left alone, fetches
    the whole roster once, in roster order, and is then dead, while the
    run flag is still up; no later step of it fetches anything. *)
Theorem negative_interval_ends_monitoring (self : MasterServer) (r0 : net_reply)
    (net : option string → net_reply) (extra : nat) :
  roster_ok self → _monitor_thread self = Some AtWhile → _running self = true →
  (refresh_interval (config self) < 0)%Z →
  let res := run self (MonitorStep r0 :: pass_events net (dict_keys (slaves self))
                         ++ replicate (1 + extra) (MonitorStep r0))%list in
  monitor_keys (snd res) = dict_keys (slaves self)
  ∧ slaves (fst res) = fst (for_each_slave net (slaves self))
  ∧ _monitor_thread (fst res) = Some Returned
  ∧ is_alive (_monitor_thread (fst res)) = false
  ∧ _running (fst res) = true.
Proof.
  intros Hok Ht Hrun Hneg res. subst res.
  rewrite app_comm_cons, run_app, (run_test_and_pass r0 net self Hok Ht Hrun). cbn [fst snd].
  set (self2 := set_thread (set_slaves self (fst (for_each_slave net (slaves self))))
                           (Some (InFor []))).
  change (replicate (1 + extra) (MonitorStep r0))
    with (MonitorStep r0 :: replicate extra (MonitorStep r0)).
  assert (Hstep : step self2 (MonitorStep r0) = (set_thread self2 (Some Returned), [])).
  { simpl. unfold monitor_step. simpl.
    destruct (Z.ltb_spec (refresh_interval (config self)) 0) as [_|Hge]; [done|lia]. }
  rewrite run_cons, Hstep. cbn [fst snd]. rewrite returned_run by done.
  cbn [fst snd]. rewrite !app_nil_r, monitor_keys_requests. done.
Qed.

Lemma negative_interval_ends_monitoring_witness :
  (refresh_interval
     (config (start_monitoring (MasterServer__init__ (Some config_negative_interval)))) < 0)%Z
  ∧ is_alive (_monitor_thread (fst (run
      (start_monitoring (MasterServer__init__ (Some config_negative_interval)))
      (MonitorStep reply_ok
       :: pass_events (fun _ => reply_ok)
            (dict_keys (slaves (start_monitoring
                                  (MasterServer__init__ (Some config_negative_interval)))))
          ++ replicate (1 + 0) (MonitorStep reply_ok))%list))) = false
  ∧ _running (fst (run
      (start_monitoring (MasterServer__init__ (Some config_negative_interval)))
      (MonitorStep reply_ok
       :: pass_events (fun _ => reply_ok)
            (dict_keys (slaves (start_monitoring
                                  (MasterServer__init__ (Some config_negative_interval)))))
          ++ replicate (1 + 0) (MonitorStep reply_ok))%list)) = true.
Proof.
  assert (Hneg : (refresh_interval
     (config (start_monitoring (MasterServer__init__ (Some config_negative_interval)))) < 0)%Z)
    by reflexivity.
  split; [exact Hneg|].
  destruct (negative_interval_ends_monitoring
              (start_monitoring (MasterServer__init__ (Some config_negative_interval)))
              reply_ok (fun _ => reply_ok) 0 (init_slaves_NoDup _) eq_refl eq_refl Hneg)
    as (_ & _ & _ & Hdead & Hflag).
  split; [exact Hdead|exact Hflag].
Defined.

(** ** Uptime, error texts and the dict of a record *)

(** X12. [get_uptime] splits the whole seconds between the start and now
    into days, hours below 24, minutes below 60 and seconds below 60, and
    the four add up to exactly these whole seconds (rounded down, also
    when the clock went back and the difference is negative). *)
Theorem uptime_decomposition (start_time now : Z) :
  ∃ d h m s,
    get_uptime start_time now =
      (VDict [ (VStr "days", VInt d); (VStr "hours", VInt h);
               (VStr "minutes", VInt m); (VStr "seconds", VInt s) ], 200)
    ∧ (0 ≤ h < 24)%Z ∧ (0 ≤ m < 60)%Z ∧ (0 ≤ s < 60)%Z
    ∧ (d * 86400 + h * 3600 + m * 60 + s = (now - start_time) / 1000000)%Z.
Proof.
  unfold get_uptime, datetime_sub. cbv zeta. simpl.
  set (us := now - start_time).
  set (S := (us mod 86400000000) / 1000000).
  exists (us / 86400000000), (S / 3600), ((S mod 3600) / 60), (S mod 60).
  split; [done|].
  assert (HS : (0 ≤ S < 86400)%Z).
  { subst S. pose proof (Z.mod_pos_bound us 86400000000 ltac:(lia)) as Hm.
    split; [apply Z.div_pos; lia|]. apply Z.div_lt_upper_bound; lia. }
  pose proof (Z.mod_pos_bound S 3600 ltac:(lia)) as H3600.
  pose proof (Z.mod_pos_bound S 60 ltac:(lia)) as H60.
  split; [split; [apply Z.div_pos; lia|apply Z.div_lt_upper_bound; lia]|].
  split; [split; [apply Z.div_pos; lia|apply Z.div_lt_upper_bound; lia]|].
  split; [lia|].
  assert (Hsplit : (S / 3600 * 3600 + S mod 3600 / 60 * 60 + S mod 60 = S)%Z).
  { pose proof (Z.div_mod S 3600 ltac:(lia)) as H1.
    pose proof (Z.div_mod (S mod 3600) 60 ltac:(lia)) as H2.
    assert (H3 : ((S mod 3600) mod 60 = S mod 60)%Z).
    { apply Z.mod_mod_divide. exists 60. lia. }
    lia. }
  assert (Hus : (us / 1000000 = us / 86400000000 * 86400 + S)%Z).
  { subst S. pose proof (Z.div_mod us 86400000000 ltac:(lia)) as H1.
    rewrite H1 at 1.
    replace (86400000000 * (us / 86400000000) + us mod 86400000000)%Z
      with (us / 86400000000 * 86400 * 1000000 + us mod 86400000000)%Z by lia.
    rewrite Z.div_add_l by lia. done. }
  lia.
Qed.

(** X13. The error text a failed fetch leaves, by the kind of failure:
    a timeout and a refused connection name the agent with its address
    and port, a status other than 200 gives the status, and anything else,
    an unparseable body included, gives the text of the exception. *)
Theorem fetch_error_text (slave : SlaveInfo) (r : net_reply) :
  error (fst (_fetch_slave_info slave r)) =
    match get r with
    | inl Timeout =>
        Some ("Connection timeout to " +:+ py_str (name slave) +:+ " ("
              +:+ py_str (ip slave) +:+ ":" +:+ pretty (port slave) +:+ ")")
    | inl ConnectionError =>
        Some ("Connection refused by " +:+ py_str (name slave) +:+ " ("
              +:+ py_str (ip slave) +:+ ":" +:+ pretty (port slave) +:+ ")")
    | inl (OtherException msg) =>
        Some ("Error from " +:+ py_str (name slave) +:+ ": " +:+ msg)
    | inr response =>
        if Z.eqb (status_code response) 200 then
          match json response with
          | inr _ => None
          | inl (OtherException msg) =>
              Some ("Error from " +:+ py_str (name slave) +:+ ": " +:+ msg)
          | inl Timeout =>
              Some ("Connection timeout to " +:+ py_str (name slave) +:+ " ("
                    +:+ py_str (ip slave) +:+ ":" +:+ pretty (port slave) +:+ ")")
          | inl ConnectionError =>
              Some ("Connection refused by " +:+ py_str (name slave) +:+ " ("
                    +:+ py_str (ip slave) +:+ ":" +:+ pretty (port slave) +:+ ")")
          end
        else
          Some ("HTTP " +:+ pretty (status_code response) +:+ " from "
                +:+ py_str (name slave) +:+ " (" +:+ py_str (ip slave) +:+ ")")
    end.
Proof.
  unfold _fetch_slave_info, fetch_stores, try_body.
  destruct (get r) as [[| |msg]|response]; simpl; try done.
  destruct (Z.eqb (status_code response) 200); simpl; [|done].
  by destruct (json response) as [[| |msg]|body].
Qed.

Example fetch_error_text_samples :
  error (fst (_fetch_slave_info fresh_slave reply_timeout))
    = Some "Connection timeout to Slave-1 (192.168.217.180:5001)"
  ∧ error (fst (_fetch_slave_info fresh_slave reply_refused))
    = Some "Connection refused by Slave-1 (192.168.217.180:5001)"
  ∧ error (fst (_fetch_slave_info fresh_slave reply_http500))
    = Some "HTTP 500 from Slave-1 (192.168.217.180)"
  ∧ error (fst (_fetch_slave_info fresh_slave reply_bad_json))
    = Some "Error from Slave-1: Expecting value: line 1 column 1 (char 0)".
Proof. repeat split. Qed.

(** X14. [to_dict] loses nothing: each attribute is read back from the
    dict under its key, and two records with the same dict are the same
    record. *)
Theorem to_dict_faithful (s s' : SlaveInfo) :
  vdict_get "name" (to_dict s) = Some (opt_str_val (name s))
  ∧ vdict_get "ip" (to_dict s) = Some (opt_str_val (ip s))
  ∧ vdict_get "port" (to_dict s) = Some (VInt (port s))
  ∧ vdict_get "online" (to_dict s) = Some (VBool (online s))
  ∧ vdict_get "last_seen" (to_dict s) = Some (opt_int_val (last_seen s))
  ∧ vdict_get "data" (to_dict s) = Some (data s)
  ∧ vdict_get "error" (to_dict s) = Some (opt_str_val (error s))
  ∧ (to_dict s = to_dict s' → s = s').
Proof.
  repeat (split; [reflexivity|]).
  destruct s as [n i p o l d e], s' as [n' i' p' o' l' d' e']. unfold to_dict. simpl.
  intros H. injection H as Hn Hi Hp Ho Hl Hd He.
  assert (Hstr : ∀ x y : option string, opt_str_val x = opt_str_val y → x = y).
  { intros [x|] [y|]; simpl; congruence. }
  assert (Hint : ∀ x y : option Z, opt_int_val x = opt_int_val y → x = y).
  { intros [x|] [y|]; simpl; congruence. }
  apply Hstr in Hn, Hi, He. apply Hint in Hl. congruence.
Qed.

(** * The slave *)

(** ** String methods *)

Example py_split_samples :
  py_split ":" "a:b" = ["a"; "b"] ∧ py_split ":" "a:" = ["a"; EmptyString]
  ∧ py_split ":" EmptyString = [EmptyString]
  ∧ py_split ":" "::" = [EmptyString; EmptyString; EmptyString]
  ∧ py_split ":" "abc" = ["abc"].
Proof. repeat split. Qed.

Example py_strip_samples :
  py_strip "  a b  " = "a b" ∧ py_strip "   " = EmptyString
  ∧ py_strip EmptyString = EmptyString
  ∧ py_strip (tab +:+ "x" +:+ newline) = "x".
Proof. repeat split. Qed.

Example get_cpu_model_sample :
  get_cpu_model (mkCpuEnv "Linux" (Lines sample_cpuinfo false) None "x86_64")
  = "Intel(R) Xeon(R) Gold 6248R CPU @ 3.00GHz".
Proof. reflexivity. Qed.

Lemma append_nil (t : string) : EmptyString +:+ t = t.
Proof. reflexivity. Qed.

Lemma append_cons (c : ascii) (s t : string) : String c s +:+ t = String c (s +:+ t).
Proof. reflexivity. Qed.

Lemma py_split_cons (sep c : ascii) (s : string) :
  Ascii.eqb c sep = false →
  py_split sep (String c s) =
    match py_split sep s with
    | piece :: pieces => String c piece :: pieces
    | [] => [String c EmptyString]
    end.
Proof. intros Hc. simpl. by rewrite Hc. Qed.

Lemma py_split_free (sep : ascii) (s : string) : free_of sep s = true → py_split sep s = [s].
Proof.
  induction s as [|c s IH]; simpl; [done|].
  destruct (Ascii.eqb c sep); simpl; [done|]. intros Hf. by rewrite IH.
Qed.

(** Up to the first separator. *)
Lemma py_split_first (sep : ascii) (pre s : string) :
  free_of sep pre = true →
  py_split sep (pre +:+ String sep s) = pre :: py_split sep s.
Proof.
  induction pre as [|c pre IH]; [rewrite append_nil|rewrite append_cons]; simpl.
  - by rewrite Ascii.eqb_refl.
  - destruct (Ascii.eqb c sep); simpl; [done|]. intros Hf. by rewrite IH.
Qed.

Lemma app_empty_r (s : string) : s +:+ EmptyString = s.
Proof. induction s as [|c s IH]; [done|]. by rewrite append_cons, IH. Qed.

Lemma py_split_second (sep : ascii) (pre m rest : string) :
  free_of sep pre = true → free_of sep m = true →
  (rest = EmptyString ∨ ∃ rest', rest = String sep rest') →
  ∃ pieces, py_split sep (pre +:+ String sep (m +:+ rest)) = pre :: m :: pieces.
Proof.
  intros Hpre Hm Hrest. rewrite py_split_first by done.
  destruct Hrest as [->|[rest' ->]].
  - rewrite app_empty_r, py_split_free by done. by exists [].
  - rewrite py_split_first by done. eauto.
Qed.

Lemma py_lstrip_head (s : string) :
  py_lstrip s = EmptyString ∨ ∃ c t, py_lstrip s = String c t ∧ is_space c = false.
Proof.
  induction s as [|c s IH]; simpl; [by left|].
  destruct (is_space c) eqn:Hc; [exact IH|]. right. eauto.
Qed.

Lemma py_lstrip_fixed (c : ascii) (t : string) :
  is_space c = false → py_lstrip (String c t) = String c t.
Proof. intros Hc. simpl. by rewrite Hc. Qed.

Lemma py_rstrip_idemp (s : string) : py_rstrip (py_rstrip s) = py_rstrip s.
Proof.
  induction s as [|c s IH]; simpl; [done|].
  destruct (py_rstrip s) as [|c' t] eqn:Hr.
  - destruct (is_space c) eqn:Hc; simpl; [done|]. by rewrite Hc.
  - simpl in IH |- *. by rewrite IH.
Qed.

Lemma py_rstrip_head (c : ascii) (t : string) :
  is_space c = false → ∃ t', py_rstrip (String c t) = String c t'.
Proof.
  intros Hc. simpl. destruct (py_rstrip t); [rewrite Hc|]; eauto.
Qed.

Lemma py_strip_stripped (s : string) : stripped (py_strip s).
Proof.
  unfold stripped, py_strip. split; [|apply py_rstrip_idemp].
  destruct (py_lstrip_head s) as [->|(c & t & -> & Hc)]; [done|].
  destruct (py_rstrip_head c t Hc) as [t' ->]. by apply py_lstrip_fixed.
Qed.

Lemma free_of_lstrip (c : ascii) (s : string) :
  free_of c s = true → free_of c (py_lstrip s) = true.
Proof.
  induction s as [|c' s IH]; simpl; [done|].
  intros Hf. apply andb_prop in Hf as [Hc Hs].
  destruct (is_space c'); [by apply IH|]. simpl. by rewrite Hc, Hs.
Qed.

Lemma free_of_rstrip (c : ascii) (s : string) :
  free_of c s = true → free_of c (py_rstrip s) = true.
Proof.
  induction s as [|c' s IH]; simpl; [done|].
  intros Hf. apply andb_prop in Hf as [Hc Hs]. specialize (IH Hs).
  destruct (py_rstrip s) as [|c'' t].
  - destruct (is_space c'); simpl; [done|]. by rewrite Hc.
  - simpl in *. by rewrite Hc, IH.
Qed.

Lemma free_of_strip (c : ascii) (s : string) :
  free_of c s = true → free_of c (py_strip s) = true.
Proof. intros Hf. by apply free_of_rstrip, free_of_lstrip. Qed.

Lemma scan_cpuinfo_skip (before rest : list string) :
  Forall (fun l => py_in "model name" l = false) before →
  scan_cpuinfo (before ++ rest)%list = scan_cpuinfo rest.
Proof.
  induction before as [|l before IH]; intros Hb; [done|].
  apply Forall_cons in Hb as [Hl Hb]. simpl. rewrite Hl. by apply IH.
Qed.

(** ** [get_cpu_model] *)

(** X15. On Linux the model is read off the first line of
    [/proc/cpuinfo] that contains ["model name"]: it is the text between
    the first colon of that line and the next colon or the end of the
    line, without the whitespace around it. Lines before it and after it
    do not matter, nor does a read error after it. The result has no
    whitespace at its ends and no colon. *)
Theorem cpu_model_from_cpuinfo (before after : list string) (then_raises : bool)
    (pre m rest : string) (wmic : option string) (processor : string) :
  Forall (fun l => py_in "model name" l = false) before →
  py_in "model name" (pre +:+ String ":" (m +:+ rest)) = true →
  free_of ":" pre = true → free_of ":" m = true →
  (rest = EmptyString ∨ ∃ rest', rest = String ":" rest') →
  let result :=
    get_cpu_model
      (mkCpuEnv "Linux"
         (Lines (before ++ (pre +:+ String ":" (m +:+ rest)) :: after) then_raises)
         wmic processor) in
  result = py_strip m ∧ stripped result ∧ free_of ":" result = true.
Proof.
  intros Hb Hin Hpre Hm Hrest result.
  assert (Hres : result = py_strip m).
  { subst result. unfold get_cpu_model, get_cpu_model_body. simpl proc_cpuinfo.
    cbn [platform_system]. change (String.eqb "Linux" "Linux") with true. cbv iota.
    rewrite scan_cpuinfo_skip by done. cbn [scan_cpuinfo]. rewrite Hin.
    destruct (py_split_second ":" pre m rest Hpre Hm Hrest) as [pieces ->]. done. }
  rewrite Hres. split; [done|]. split; [apply py_strip_stripped|by apply free_of_strip].
Qed.

Lemma cpu_model_from_cpuinfo_witness :
  get_cpu_model (mkCpuEnv "Linux" (Lines sample_cpuinfo true) None "x86_64")
  = "Intel(R) Xeon(R) Gold 6248R CPU @ 3.00GHz".
Proof.
  destruct (cpu_model_from_cpuinfo
              [ "processor" +:+ tab +:+ ": 0" +:+ newline;
                "vendor_id" +:+ tab +:+ ": GenuineIntel" +:+ newline ]
              [ "model name" +:+ tab +:+ ": other" +:+ newline ]
              true
              ("model name" +:+ tab)
              (" Intel(R) Xeon(R) Gold 6248R CPU @ 3.00GHz" +:+ newline)
              EmptyString None "x86_64") as [Hres _].
  - repeat constructor.
  - reflexivity.
  - reflexivity.
  - reflexivity.
  - by left.
  - exact Hres.
Defined.

(** X16. When [get_cpu_model] has no model line to read. On Linux, if no
    line of [/proc/cpuinfo] contains ["model name"], the result is
    [platform.processor()], or ["Unknown CPU"] when that is empty or when
    reading the file raised; if the first line that contains
    ["model name"] has no colon, the result is ["Unknown CPU"] whatever
    the other lines hold. In both cases the result is not empty. *)
Theorem cpu_model_without_model_line (before after : list string) (then_raises : bool)
    (line : string) (wmic : option string) (processor : string) :
  Forall (fun l => py_in "model name" l = false) before →
  py_in "model name" line = true → free_of ":" line = true →
  get_cpu_model (mkCpuEnv "Linux" (Lines before then_raises) wmic processor)
    = (if then_raises then "Unknown CPU" else str_or processor "Unknown CPU")
  ∧ get_cpu_model (mkCpuEnv "Linux" (Lines before then_raises) wmic processor) ≠ EmptyString
  ∧ get_cpu_model (mkCpuEnv "Linux" (Lines (before ++ line :: after) then_raises) wmic processor)
    = "Unknown CPU".
Proof.
  intros Hb Hin Hfree. unfold get_cpu_model, get_cpu_model_body.
  cbn [platform_system proc_cpuinfo platform_processor].
  change (String.eqb "Linux" "Linux") with true. cbv iota.
  rewrite scan_cpuinfo_skip by done.
  rewrite <- (app_nil_r before) at 1 2. rewrite scan_cpuinfo_skip by done.
  cbn [scan_cpuinfo]. rewrite Hin, (py_split_free _ _ Hfree).
  split; [by destruct then_raises|]. split; [|done].
  destruct then_raises; [done|]. by destruct processor.
Qed.

Lemma cpu_model_without_model_line_witness :
  get_cpu_model (mkCpuEnv "Linux" (Lines ["processor: 0"; "flags: fpu"] false) None EmptyString)
    = "Unknown CPU"
  ∧ get_cpu_model (mkCpuEnv "Linux"
      (Lines ["processor: 0"; "flags: fpu"; "model name"; "model name: x"] false) None "arm")
    = "Unknown CPU".
Proof.
  destruct (cpu_model_without_model_line ["processor: 0"; "flags: fpu"] ["model name: x"]
              false "model name" None EmptyString) as (H1 & _ & _);
    [repeat constructor|reflexivity|reflexivity|].
  destruct (cpu_model_without_model_line ["processor: 0"; "flags: fpu"] ["model name: x"]
              false "model name" None "arm") as (_ & _ & H2);
    [repeat constructor|reflexivity|reflexivity|].
  split; [exact H1|exact H2].
Defined.

(** X17. Whatever the machine, [get_cpu_model] returns text without
    whitespace at its ends, unless it returns [platform.processor()] as
    it is. *)
Theorem cpu_model_stripped (env : cpu_env) :
  get_cpu_model env = platform_processor env ∨ stripped (get_cpu_model env).
Proof.
  assert (Hu : stripped "Unknown CPU") by (split; reflexivity).
  assert (Hfall : str_or (platform_processor env) "Unknown CPU" = platform_processor env
                  ∨ stripped (str_or (platform_processor env) "Unknown CPU")).
  { destruct (platform_processor env); [by right|by left]. }
  unfold get_cpu_model, get_cpu_model_body.
  destruct (String.eqb (platform_system env) "Linux").
  - destruct (proc_cpuinfo env) as [|lines b]; [by right|].
    destruct (scan_cpuinfo lines) as [[model|]|] eqn:Hscan.
    + right. clear -Hscan. induction lines as [|l lines IH]; simpl in Hscan; [done|].
      destruct (py_in "model name" l); [|by apply IH].
      destruct (py_split ":" l) as [|p0 [|p1 ps]]; try done.
      injection Hscan as <-. apply py_strip_stripped.
    + by right.
    + destruct b; [by right|exact Hfall].
  - destruct (String.eqb (platform_system env) "Windows"); [|exact Hfall].
    destruct (wmic_stdout env) as [stdout|]; [|by right].
    cbv zeta. destruct (py_split "010" (py_strip stdout)) as [|l0 [|l1 ls]]; try exact Hfall.
    right. apply py_strip_stripped.
Qed.

(** ** [get_gpu_processes] and [get_gpu_info] *)

Section gpu_facts.
Variable round_ratio : Z → Z → Z → pyval.

Lemma list_processes_acc (proc_infos : list gpu_proc) (processes : list pyval) :
  list_processes round_ratio proc_infos processes
  = (processes ++ list_processes round_ratio proc_infos [])%list.
Proof.
  revert processes. induction proc_infos as [|proc rest IH]; intros processes; simpl.
  - by rewrite app_nil_r.
  - destruct (proc_entry round_ratio proc) as [[| |]|entry].
    + rewrite IH, (IH [_]). by rewrite <- app_assoc.
    + by rewrite app_nil_r.
    + by rewrite app_nil_r.
    + rewrite IH, (IH [_]). by rewrite <- app_assoc.
Qed.

Lemma proc_entry_pid (proc : gpu_proc) (entry : pyval) :
  proc_entry round_ratio proc = inr entry → entry_pid entry = Some (VInt (pid proc)).
Proof.
  unfold proc_entry, attempt_bind.
  destruct (psutil_Process proc) as [e|u]; [done|].
  destruct (p_name proc) as [e|n]; [done|].
  destruct (p_username proc) as [e|un]; [done|].
  destruct (p_cmdline proc) as [e|[|a args]]; [done| |].
  - by intros [= <-].
  - destruct (p_cmdline_again proc) as [e|args']; [done|]. by intros [= <-].
Qed.

(** X18. [get_gpu_processes] lists, in the order NVML reports them, the
    processes up to the first one whose inspection raises something
    other than [NoSuchProcess] or [AccessDenied], one entry per process
    with its pid; a process that is gone or may not be inspected is listed
    with name and user ["Unknown"] and an empty command line. When the
    query for the running processes itself raises, the list is empty. *)
Theorem gpu_processes_listing (proc_infos : list gpu_proc) (e : failure) :
  let listed := while_ok (proc_listed round_ratio) proc_infos in
  let processes := get_gpu_processes round_ratio (inr proc_infos) in
  map entry_pid processes = map (fun proc => Some (VInt (pid proc))) listed
  ∧ Forall2 (fun proc entry =>
               proc_entry round_ratio proc = inr entry
               ∨ proc_entry round_ratio proc = inl ProcessGone
                 ∧ entry = VDict [ (VStr "pid", VInt (pid proc));
                                   (VStr "name", VStr "Unknown");
                                   (VStr "username", VStr "Unknown");
                                   (VStr "memory_mb", memory_mb round_ratio proc);
                                   (VStr "cmdline", VStr EmptyString) ])
            listed processes
  ∧ (length processes ≤ length proc_infos)%nat
  ∧ get_gpu_processes round_ratio (inl e) = [].
Proof.
  cbv zeta. unfold get_gpu_processes.
  induction proc_infos as [|proc rest IH]; simpl.
  - repeat split; [constructor|lia].
  - destruct IH as (Hpid & Hall & Hlen & _). unfold proc_listed.
    destruct (proc_entry round_ratio proc) as [[| |]|entry] eqn:He; simpl.
    + rewrite list_processes_acc. simpl. rewrite Hpid.
      split; [done|]. split; [|split; [lia|done]].
      constructor; [by right|exact Hall].
    + repeat split; [constructor|lia].
    + repeat split; [constructor|lia].
    + rewrite list_processes_acc. simpl. rewrite Hpid, (proc_entry_pid _ _ He).
      split; [done|]. split; [|split; [lia|done]].
      constructor; [by left|exact Hall].
Qed.

Lemma collect_gpus_acc (i : Z) (devs : list gpu_device) (gpus : list pyval) :
  collect_gpus round_ratio i devs gpus
  = ((gpus ++ fst (collect_gpus round_ratio i devs []))%list,
     snd (collect_gpus round_ratio i devs [])).
Proof.
  revert i gpus. induction devs as [|dev rest IH]; intros i gpus; simpl.
  - by rewrite app_nil_r.
  - destruct (gpu_entry round_ratio i dev) as [e|entry]; simpl.
    + by rewrite app_nil_r.
    + rewrite IH, (IH _ [_]). simpl. by rewrite <- app_assoc.
Qed.

Lemma gpu_entry_id (i : Z) (dev : gpu_device) (entry : pyval) :
  gpu_entry round_ratio i dev = inr entry → entry_id entry = Some (VInt i).
Proof.
  unfold gpu_entry, attempt_bind.
  destruct (nvmlDeviceGetHandleByIndex dev) as [e|u]; [done|].
  destruct (nvmlDeviceGetMemoryInfo dev) as [e|[[total used] free]]; [done|].
  destruct (nvmlDeviceGetUtilizationRates dev) as [e|ut]; [done|].
  destruct (nvmlDeviceGetTemperature dev) as [e|t]; [done|].
  destruct (rounded_power round_ratio (nvmlDeviceGetPowerUsage dev)) as [e|pw]; [done|].
  destruct (rounded_power round_ratio (nvmlDeviceGetPowerManagementLimit dev)) as [e|mx];
    [done|].
  destruct (nvmlDeviceGetName dev) as [e|n]; [done|].
  destruct (decode_name n) as [e|nm]; [done|].
  by intros [= <-].
Qed.

Lemma collect_gpus_ids (devs : list gpu_device) : ∀ i,
  map entry_id (fst (collect_gpus round_ratio i devs []))
  = map (fun k => Some (VInt (i + Z.of_nat k)))
        (seq 0 (length (fst (collect_gpus round_ratio i devs []))))
  ∧ (length (fst (collect_gpus round_ratio i devs [])) ≤ length devs)%nat
  ∧ snd (collect_gpus round_ratio i devs []) = devices_read round_ratio i devs
  ∧ (devices_read round_ratio i devs = true →
     length (fst (collect_gpus round_ratio i devs [])) = length devs).
Proof.
  induction devs as [|dev rest IH]; intros i; simpl.
  - repeat split. lia.
  - unfold device_read.
    destruct (gpu_entry round_ratio i dev) as [e|entry] eqn:He; simpl.
    + repeat split; [lia|done].
    + destruct (IH (i + 1)) as (Hids & Hlen & Hflag & Hall).
      rewrite collect_gpus_acc. simpl. rewrite (gpu_entry_id _ _ _ He), Hids.
      split; [|split; [lia|split; [done|]]].
      * f_equal; [do 2 f_equal; lia|].
        rewrite <- seq_shift, map_map. apply map_ext. intros k. do 2 f_equal. lia.
      * intros Hr. by rewrite Hall.
Qed.

(** X19. The entries of [get_gpu_info] carry the ids 0, 1, 2, ... in
    order, without a gap: they are the devices before the first one for
    which a query fails, never more than NVML counts, and none when
    [pynvml] is missing or [nvmlInit] or [nvmlDeviceGetCount] raises. *)
Theorem gpu_info_ids (env : nvml_env) :
  let gpus := fst (get_gpu_info round_ratio env) in
  map entry_id gpus = map (fun k => Some (VInt (Z.of_nat k))) (seq 0 (length gpus))
  ∧ (length gpus ≤ length (nvml_devices env))%nat
  ∧ (HAS_PYNVML env && returns (nvmlInit env) && returns (nvmlDeviceGetCount env) = false →
     gpus = []).
Proof.
  cbv zeta. unfold get_gpu_info.
  destruct (HAS_PYNVML env); simpl; [|repeat split; lia].
  destruct (nvmlInit env) as [e|u]; simpl; [repeat split; lia|].
  destruct (nvmlDeviceGetCount env) as [e|u']; simpl; [repeat split; lia|].
  destruct (collect_gpus_ids (nvml_devices env) 0) as (Hids & Hlen & _ & _).
  destruct (collect_gpus round_ratio 0 (nvml_devices env) []) as [gpus [|]]; simpl in *;
    (split; [exact Hids|]; split; [exact Hlen|done]).
Qed.

(** X20. [get_gpu_info] calls [nvmlShutdown] only when it has read every
    device, and then returns one entry per device. When [nvmlInit],
    [nvmlDeviceGetCount] or a query of some device raises, NVML has been
    initialised and is not shut down. Without [pynvml] no call is
    made. *)
Theorem gpu_info_shutdown (env : nvml_env) :
  snd (get_gpu_info round_ratio env) =
    (if HAS_PYNVML env then
       if returns (nvmlInit env) && returns (nvmlDeviceGetCount env)
          && devices_read round_ratio 0 (nvml_devices env)
       then [CallInit; CallShutdown]
       else [CallInit]
     else [])
  ∧ (snd (get_gpu_info round_ratio env) = [CallInit; CallShutdown] →
     length (fst (get_gpu_info round_ratio env)) = length (nvml_devices env)).
Proof.
  unfold get_gpu_info.
  destruct (HAS_PYNVML env); simpl; [|done].
  destruct (nvmlInit env) as [e|u]; simpl; [done|].
  destruct (nvmlDeviceGetCount env) as [e|u']; simpl; [done|].
  destruct (collect_gpus_ids (nvml_devices env) 0) as (_ & _ & Hflag & Hall).
  destruct (collect_gpus round_ratio 0 (nvml_devices env) []) as [gpus [|]]; simpl in *;
    rewrite <- Hflag; [|done].
  split; [done|]. intros _. by apply Hall.
Qed.

(** X21. When a device gets its entry. The handle, the memory, the
    utilisation and the temperature must be answered and the name must be
    readable; each of the two power queries may also raise
    [pynvml.NVMLError], the power then being 0. What the listing of the
    processes does never costs the device its entry. *)
Theorem gpu_entry_built (i : Z) (dev : gpu_device) :
  device_read round_ratio i dev =
    returns (nvmlDeviceGetHandleByIndex dev)
    && returns (nvmlDeviceGetMemoryInfo dev)
    && returns (nvmlDeviceGetUtilizationRates dev)
    && returns (nvmlDeviceGetTemperature dev)
    && power_answered (nvmlDeviceGetPowerUsage dev)
    && power_answered (nvmlDeviceGetPowerManagementLimit dev)
    && match nvmlDeviceGetName dev with
       | inr n => returns (decode_name n)
       | inl _ => false
       end
  ∧ (nvmlDeviceGetPowerUsage dev = inl NvmlFailure →
     ∀ entry, gpu_entry round_ratio i dev = inr entry →
       ∃ max_power, vdict_get "power" entry
                    = Some (VDict [(VStr "current", VInt 0); (VStr "max", max_power)])).
Proof.
  unfold device_read, gpu_entry, attempt_bind. split.
  - destruct (nvmlDeviceGetHandleByIndex dev) as [e|u]; [done|].
    destruct (nvmlDeviceGetMemoryInfo dev) as [e|[[total used] free]]; [done|].
    destruct (nvmlDeviceGetUtilizationRates dev) as [e|ut]; [done|].
    destruct (nvmlDeviceGetTemperature dev) as [e|t]; [done|].
    destruct (nvmlDeviceGetPowerUsage dev) as [[| |]|mw]; simpl; try done;
      destruct (nvmlDeviceGetPowerManagementLimit dev) as [[| |]|lim]; simpl; try done;
      destruct (nvmlDeviceGetName dev) as [e|n]; simpl; try done;
      by destruct (decode_name n).
  - intros Hp entry. rewrite Hp. simpl.
    destruct (nvmlDeviceGetHandleByIndex dev) as [e|u]; [done|].
    destruct (nvmlDeviceGetMemoryInfo dev) as [e|[[total used] free]]; [done|].
    destruct (nvmlDeviceGetUtilizationRates dev) as [e|ut]; [done|].
    destruct (nvmlDeviceGetTemperature dev) as [e|t]; [done|].
    destruct (rounded_power round_ratio (nvmlDeviceGetPowerManagementLimit dev)) as [e|mx];
      [done|].
    destruct (nvmlDeviceGetName dev) as [e|n]; [done|].
    destruct (decode_name n) as [e|nm]; [done|].
    intros [= <-]. by exists mx.
Qed.

End gpu_facts.

(** ** Configuration *)

(** X22. Where the roster comes from. The record under a key was built
    from an entry of the configured list with that ip: the list of the
    user file when it gives one, which then replaces the three built-in
    slaves altogether, and the built-in list otherwise. Its port is the
    entry's, else the [slave_port] of the user file, else 5001; its name
    is the entry's, else the ip. *)
Theorem roster_from_config (file : option user_config) (k : option string) (s : SlaveInfo) :
  dict_get k (slaves (MasterServer__init__ file)) = Some s →
  ∃ sc,
    sc ∈ match file with
         | Some {| u_slaves := Some l |} => l
         | _ => slaves_cfg default_config
         end
    ∧ cfg_ip sc = k ∧ ip s = k
    ∧ port s = match cfg_port sc, file with
               | Some p, _ => p
               | None, Some {| u_slave_port := Some p |} => p
               | None, _ => 5001
               end
    ∧ name s = match cfg_name sc with
               | Some n => Some n
               | None => cfg_ip sc
               end.
Proof.
  simpl. unfold _init_slaves. rewrite init_fold_get.
  destruct (last (filter (fun sc => cfg_ip sc = k) (slaves_cfg (_load_config file))))
    as [sc|] eqn:Hl; [|done].
  intros [= <-]. exists sc.
  apply last_Some in Hl as [l' Hl].
  assert (Hin : sc ∈ filter (fun sc0 => cfg_ip sc0 = k) (slaves_cfg (_load_config file))).
  { rewrite Hl. apply elem_of_app. right. apply list_elem_of_here. }
  apply list_elem_of_filter in Hin as [Hip Hin].
  split.
  - destruct file as [[[l|] p r t]|]; exact Hin.
  - split; [exact Hip|]. split; [exact Hip|]. split; [|done].
    simpl. destruct (cfg_port sc) as [p|]; [done|].
    by destruct file as [[l [p|] r t]|].
Qed.

Lemma roster_from_config_witness :
  ∃ sc,
    sc ∈ [ {| cfg_name := None; cfg_ip := Some "10.0.0.7"; cfg_port := None |} ]
    ∧ cfg_ip sc = Some "10.0.0.7"
    ∧ ip (init_entry 6001 {| cfg_name := None; cfg_ip := Some "10.0.0.7"; cfg_port := None |})
      = Some "10.0.0.7"
    ∧ port (init_entry 6001 {| cfg_name := None; cfg_ip := Some "10.0.0.7"; cfg_port := None |})
      = match cfg_port sc with
        | Some p => p
        | None => 6001
        end
    ∧ name (init_entry 6001 {| cfg_name := None; cfg_ip := Some "10.0.0.7"; cfg_port := None |})
      = match cfg_name sc with
        | Some n => Some n
        | None => cfg_ip sc
        end.
Proof.
  exact (roster_from_config
           (Some {| u_slaves := Some [ {| cfg_name := None; cfg_ip := Some "10.0.0.7";
                                          cfg_port := None |} ];
                    u_slave_port := Some 6001; u_refresh_interval := None;
                    u_request_timeout := None |})
           (Some "10.0.0.7")
           (init_entry 6001 {| cfg_name := None; cfg_ip := Some "10.0.0.7"; cfg_port := None |})
           eq_refl).
Defined.

Lemma init_all_offline cfg :
  List.filter online (dict_values (_init_slaves cfg)) = [].
Proof.
  assert (Hall : ∀ k s, (k, s) ∈ _init_slaves cfg → online s = false).
  { intros k s Hin. apply (dict_elem_get _ _ _ (init_slaves_NoDup cfg)) in Hin.
    by destruct (init_record _ _ _ Hin) as (_ & Ho & _). }
  induction (_init_slaves cfg) as [|[k s] d IH]; simpl; [done|].
  rewrite (Hall k s) by apply list_elem_of_here. apply IH.
  intros k' s' Hin. apply (Hall k' s'). by apply list_elem_of_further.
Qed.

(** X23. A server just constructed, whatever the configuration file:
    the monitoring thread does not exist and the flag is down, every
    record of the roster is offline without payload, error or
    [last_seen], [get_slave] answers so for every id of the roster, and
    [health_check] counts no agent online. *)
Theorem fresh_server_all_offline (file : option user_config) (now : Z) (slave_ip : string) :
  let self := MasterServer__init__ file in
  _monitor_thread self = None ∧ _running self = false
  ∧ vdict_get "slaves_online" (fst (health_check self now)) = Some (VInt 0)
  ∧ (∀ k s, dict_get k (slaves self) = Some s →
       ip s = k ∧ online s = false ∧ last_seen s = None ∧ data s = VNone ∧ error s = None)
  ∧ match dict_get (Some slave_ip) (slaves self) with
    | Some _ =>
        ∃ d, get_slave self slave_ip = (d, 200)
          ∧ vdict_get "online" d = Some (VBool false) ∧ vdict_get "data" d = Some VNone
          ∧ vdict_get "error" d = Some VNone ∧ vdict_get "last_seen" d = Some VNone
          ∧ vdict_get "ip" d = Some (VStr slave_ip)
    | None => get_slave self slave_ip = slave_not_found
    end.
Proof.
  intros self. split; [done|]. split; [done|]. split; [|split].
  - simpl. unfold online_count. simpl. by rewrite init_all_offline.
  - intros k s Hg. by apply (init_record (_load_config file)).
  - unfold get_slave. change (slaves self) with (_init_slaves (_load_config file)).
    destruct (dict_get (Some slave_ip) (_init_slaves (_load_config file))) as [s|] eqn:Hg;
      [|done].
    destruct (init_record _ _ _ Hg) as (Hi & Ho & Hl & Hd & He).
    exists (to_dict s). split; [done|]. simpl. by rewrite Hi, Ho, Hl, Hd, He.
Qed.

(** X24. The address the slave listens on. A host or port given on the
    command line wins, unless it is empty or 0, which counts as not
    given; then the value of the configuration file is taken, and
    without one ["0.0.0.0"] and 5001. *)
Theorem slave_listen_address (file : option slave_user_config) (host : option string)
    (port : option Z) :
  let address := slave_run (slave_load_config file) host port in
  fst address =
    match host, file with
    | Some (String c h), _ => String c h
    | _, Some {| su_slave_host := Some h |} => h
    | _, _ => "0.0.0.0"
    end
  ∧ snd address =
    match port, file with
    | Some (Zpos p), _ => Zpos p
    | Some (Zneg p), _ => Zneg p
    | _, Some {| su_slave_port := Some p |} => p
    | _, _ => 5001
    end.
Proof.
  cbv zeta. unfold slave_run, host_or, port_or. simpl. split.
  - destruct host as [[|c h]|]; try done; by destruct file as [[[h'|] p i mp r]|].
  - destruct port as [[|p|p]|]; simpl; try done; by destruct file as [[h' [p'|] i mp r]|].
Qed.
